(** * Static checks and feedback of the Python code tutor

    A shallow embedding of the backend: [backend/analyzer/static_checks.py]
    (the three [ast.NodeVisitor] subclasses [UndefinedNameVisitor],
    [RuntimePatternVisitor] and [ComplexityVisitor], and
    [run_static_checks]), [backend/analyzer/analyzer.py]
    ([analyze_python_code] and [_normalize_clusters]),
    [backend/analyzer/llm.py] ([_extract_json], the default hints, the
    fallback response and [generate_feedback]) and, of [backend/main.py],
    the allowed origins and the [/api/analyze] handler.

    Visitors are objects with mutable fields in the source; here every
    [visit_X] method is a function from the visitor's state to its next state.
    A function that can raise returns [option], with [None] for the
    exception: [self.scopes[-1]] and [node.comparators[0]] on an empty list,
    an exception of [ast.parse] other than the [SyntaxError] that is caught,
    an exception of [json.loads] other than the [JSONDecodeError] that is
    caught, [int] on a setting that is no integer, and the validation of the
    response. The dictionaries of the feedback layer are finite maps from
    keys to JSON values.

    The file has the syntax tree and the program first, then the notions the
    properties are stated with and some sample inputs, then the lemmas on
    each visitor, and last the properties themselves: C1 to C10, and X1 to
    X23 on the code around them. What lies outside the repository is a
    parameter: the names the interpreter predeclares,
    [ast.get_source_segment], [ast.parse], [str.strip], [len], [int], the
    regular expression search for a json fence, [json.loads], the
    environment, the text of the prompt, the request to the tutor model, and
    the validation pydantic runs on the arguments of a response. *)

From Stdlib Require Import ZArith String Ascii List Bool Lia.
From Stdlib Require Import Floats.SpecFloat DecimalString.
From stdpp Require Import base option list strings gmap.

Open Scope Z_scope.
Open Scope string_scope.

Scheme All for list.
Scheme All for option.

(** ** The syntax tree of Python's [ast] module

    The constructors and their fields follow the abstract grammar of [ast]
    (field order is the order [ast.iter_fields] yields, which is the order
    [generic_visit] walks). The classes the analyzer inspects and the common
    ones have a constructor of their own. Every other class (lambdas,
    comprehensions, dict and set displays, f-strings, slices, [await],
    [yield], and among statements [async with], [match], [nonlocal], ...) is
    an [OtherExpr] or an [OtherStmt]: no visitor has a method for such a
    class or for its helper nodes ([arguments], [comprehension],
    [match_case], ...), so all that matters of it is the sequence of
    expressions and statements [generic_visit] reaches below it, in order.
    Every expression carries its source position; statement positions are
    never read by the analyzer and are not kept. *)

Module ast.

Definition identifier := string.

Record location := mk_location {
  lineno : Z;
  col_offset : Z;
  end_lineno : option Z;
  end_col_offset : option Z
}.

(** The Python value held by an [ast.Constant]. *)
Inductive constant :=
| CNone
| CBool (b : bool)
| CInt (n : Z)
| CFloat (f : spec_float)
| CComplex (re im : spec_float)
| CStr (s : string)
| CBytes (s : string)
| CEllipsis.

Inductive expr_context := Load | Store | Del.

Inductive boolop := And | Or.

Inductive operator :=
| Add | Sub | Mult | MatMult | Div | Mod | Pow
| LShift | RShift | BitOr | BitXor | BitAnd | FloorDiv.

Inductive unaryop := Invert | Not | UAdd | USub.

Inductive cmpop := Eq | NotEq | Lt | LtE | Gt | GtE | Is | IsNot | In | NotIn.

Inductive expr :=
| BoolOp (op : boolop) (values : list expr) (loc : location)
| NamedExpr (target value : expr) (loc : location)
| BinOp (left : expr) (op : operator) (right : expr) (loc : location)
| UnaryOp (op : unaryop) (operand : expr) (loc : location)
| IfExp (test body orelse : expr) (loc : location)
| Compare (left : expr) (ops : list cmpop) (comparators : list expr)
    (loc : location)
| Call (func : expr) (args : list expr) (keywords : list keyword)
    (loc : location)
| Constant (value : constant) (loc : location)
| Attribute (value : expr) (attr : identifier) (ctx : expr_context)
    (loc : location)
| Subscript (value slice : expr) (ctx : expr_context) (loc : location)
| Starred (value : expr) (ctx : expr_context) (loc : location)
| Name (id : identifier) (ctx : expr_context) (loc : location)
| List (elts : list expr) (ctx : expr_context) (loc : location)
| Tuple (elts : list expr) (ctx : expr_context) (loc : location)
| OtherExpr (children : list expr) (loc : location)
with keyword :=
| mk_keyword (arg : option identifier) (value : expr).

Scheme expr_keyword_ind := Induction for expr Sort Prop
with keyword_expr_ind := Induction for keyword Sort Prop.

Definition expr_loc (e : expr) : location :=
  match e with
  | BoolOp _ _ l | NamedExpr _ _ l | BinOp _ _ _ l | UnaryOp _ _ l
  | IfExp _ _ _ l | Compare _ _ _ l | Call _ _ _ l | Constant _ l
  | Attribute _ _ _ l | Subscript _ _ _ l | Starred _ _ l | Name _ _ l
  | List _ _ l | Tuple _ _ l | OtherExpr _ l => l
  end.

Record arg := mk_arg {
  arg_arg : identifier;
  arg_annotation : option expr
}.

Record arguments := mk_arguments {
  posonlyargs : list arg;
  args : list arg;
  vararg : option arg;
  kwonlyargs : list arg;
  kw_defaults : list (option expr);
  kwarg : option arg;
  defaults : list expr
}.

Record alias := mk_alias {
  alias_name : identifier;
  alias_asname : option identifier
}.

Record withitem := mk_withitem {
  context_expr : expr;
  optional_vars : option expr
}.

Inductive stmt :=
| FunctionDef (name : identifier) (args : arguments) (body : list stmt)
    (decorator_list : list expr) (returns : option expr)
| AsyncFunctionDef (name : identifier) (args : arguments) (body : list stmt)
    (decorator_list : list expr) (returns : option expr)
| ClassDef (name : identifier) (bases : list expr) (keywords : list keyword)
    (body : list stmt) (decorator_list : list expr)
| Return (value : option expr)
| Delete (targets : list expr)
| Assign (targets : list expr) (value : expr)
| AugAssign (target : expr) (op : operator) (value : expr)
| AnnAssign (target annotation : expr) (value : option expr) (simple : Z)
| For (target iter : expr) (body orelse : list stmt)
| AsyncFor (target iter : expr) (body orelse : list stmt)
| While (test : expr) (body orelse : list stmt)
| If (test : expr) (body orelse : list stmt)
| With (items : list withitem) (body : list stmt)
| Raise (exc cause : option expr)
| Try (body : list stmt) (handlers : list excepthandler)
    (orelse finalbody : list stmt)
| Assert (test : expr) (msg : option expr)
| Import (names : list alias)
| ImportFrom (module : option identifier) (names : list alias) (level : Z)
| Global (names : list identifier)
| Expr (value : expr)
| Pass
| Break
| Continue
| OtherStmt (children : list child)
with excepthandler :=
| ExceptHandler (type : option expr) (name : option identifier)
    (body : list stmt)
with child :=
| ChildExpr (e : expr)
| ChildStmt (s : stmt)
| ChildHandler (h : excepthandler).

Scheme stmt_handler_ind := Induction for stmt Sort Prop
with handler_stmt_ind := Induction for excepthandler Sort Prop
with child_stmt_ind := Induction for child Sort Prop.

(** [ast.Module]: the root [ast.parse] returns. *)
Inductive py_module :=
| Module_ (body : list stmt).

End ast.

(** ** Visitor methods as state transformers

    A method of a visitor with state [S] is an [action S]: it maps the state
    before the call to the state after it, or to [None] when the Python
    method raises. *)

Section actions.
Context {S : Type}.

Definition action := S → option S.

Definition skip : action := Some.

Definition seq (a b : action) : action := λ self, a self ≫= b.

(** [for x in xs: f(x)] *)
Definition for_each {A} (f : A → action) : list A → action :=
  fix go xs :=
    match xs with
    | [] => skip
    | x :: rest => seq (f x) (go rest)
    end.

(** [if x is not None: f(x)] *)
Definition if_some {A} (f : A → action) (x : option A) : action :=
  match x with
  | Some y => f y
  | None => skip
  end.

End actions.

Arguments action : clear implicits.
Notation "a ;; b" := (seq a b)
  (at level 100, b at level 200, right associativity).

(** ** [RuntimeIssue] and the dictionaries made from it *)

Record RuntimeIssue := mk_RuntimeIssue {
  type : string;
  line : option Z;
  snippet : option string;
  why : string;
  severity : string
}.

(** The dataclass default [severity = "warning"]. *)
Definition RuntimeIssue_default (type : string) (line : option Z)
  (snippet : option string) (why : string) : RuntimeIssue :=
  mk_RuntimeIssue type line snippet why "warning".

(** ** [_get_name] and [_add_target_names] *)

Definition _get_name (node : ast.expr) : option string :=
  match node with
  | ast.Name id _ _ => Some id
  | _ => None
  end.

(** The [ast.ExceptHandler] branch of [_add_target_names] is never taken
    from the visitors (every call passes an expression), so it has no
    counterpart for an [expr] argument. *)

Fixpoint _add_target_names (target : ast.expr) (names : gset string)
  : gset string :=
  match target with
  | ast.Name id _ _ => names ∪ {[id]}
  | ast.Tuple elts _ _ | ast.List elts _ _ =>
      fold_left (λ names elt, _add_target_names elt names) elts names
  | ast.Starred value _ _ => _add_target_names value names
  | _ => names
  end.

(** ** [UndefinedNameVisitor] *)

Module UndefinedNameVisitor.
Import ast.

Record t := mk {
  source : string;
  scopes : list (gset string);
  issues : list RuntimeIssue;
  builtins : gset string;
  _seen : gset (string * Z)
}.

Definition set_scopes (self : t) (scopes' : list (gset string)) : t :=
  mk (source self) scopes' (issues self) (builtins self) (_seen self).

Section methods.

(** [set(dir(builtins))] joined with the names of [__builtins__]: whatever the
    interpreter running the analyzer predeclares. *)
Variable runtime_builtins : gset string.

(** [ast.get_source_segment(source, node)], a function of the source text and
    the node's position. *)
Variable get_source_segment : string → location → option string.

Definition __init__ (source : string) : t :=
  mk source [∅] [] runtime_builtins ∅.

Definition _push_scope : action t :=
  λ self, Some (set_scopes self (scopes self ++ [∅])).

Definition _pop_scope : action t :=
  λ self,
    if decide (1 < length (scopes self))%nat
    then Some (set_scopes self (removelast (scopes self)))
    else Some self.

Definition _is_defined (self : t) (name : string) : bool :=
  existsb (λ scope, bool_decide (name ∈ scope)) (reverse (scopes self)).

(** [f(self.scopes[-1])] for an [f] that mutates the set in place; the
    subscript raises [IndexError] on an empty list. *)
Definition on_top_scope (f : gset string → gset string) : action t :=
  λ self,
    match last (scopes self) with
    | Some top =>
        Some (set_scopes self
                (<[pred (length (scopes self)) := f top]> (scopes self)))
    | None => None
    end.

Definition truthy (s : string) : bool := negb (String.eqb s "").

Definition _define (name : string) : action t :=
  if truthy name && negb (String.prefix "_" name)
  then on_top_scope (λ top, top ∪ {[name]})
  else if truthy name
  then on_top_scope (λ top, top ∪ {[name]})
  else skip.

Definition undefined_why (id : string) : string :=
  "Variable '" ++ id ++ "' might not be defined before it is used.".

(** The issue [_report_undefined] builds for the name node [id] at [loc]. *)
Definition undefined_issue (source : string) (id : identifier)
  (loc : location) : RuntimeIssue :=
  RuntimeIssue_default "Potential issue" (Some (lineno loc))
    (get_source_segment source loc) (undefined_why id).

Definition _report_undefined (id : identifier) (loc : location) : action t :=
  λ self,
    if bool_decide (id ∈ builtins self)
       || bool_decide (id ∈ ({["None"; "True"; "False"]} : gset string))
    then Some self
    else if _is_defined self id then Some self
    else
      let key := (id, lineno loc) in
      if bool_decide (key ∈ _seen self) then Some self
      else
        Some (mk (source self) (scopes self)
                (issues self ++ [undefined_issue (source self) id loc])
                (builtins self)
                (_seen self ∪ {[key]})).

(** [visit_Name]; the [generic_visit] that follows reaches only the context
    node, which has no fields. *)
Definition visit_Name (id : identifier) (ctx : expr_context) (loc : location)
  : action t :=
  match ctx with
  | Load => _report_undefined id loc
  | _ => skip
  end.

(** [visit] on expressions: [visit_Name] for names, [generic_visit] for every
    other class. *)
Fixpoint visit_expr (e : expr) : action t :=
  match e with
  | Name id ctx loc => visit_Name id ctx loc
  | BoolOp _ values _ => for_each visit_expr values
  | NamedExpr target value _ => visit_expr target;; visit_expr value
  | BinOp left_ _ right_ _ => visit_expr left_;; visit_expr right_
  | UnaryOp _ operand _ => visit_expr operand
  | IfExp test body orelse _ =>
      visit_expr test;; visit_expr body;; visit_expr orelse
  | Compare left_ _ comparators _ =>
      visit_expr left_;; for_each visit_expr comparators
  | Call func args keywords _ =>
      visit_expr func;; for_each visit_expr args;;
      for_each visit_keyword keywords
  | Constant _ _ => skip
  | Attribute value _ _ _ => visit_expr value
  | Subscript value slice _ _ => visit_expr value;; visit_expr slice
  | Starred value _ _ => visit_expr value
  | List elts _ _ | Tuple elts _ _ => for_each visit_expr elts
  | OtherExpr children _ => for_each visit_expr children
  end
with visit_keyword (k : keyword) : action t :=
  match k with
  | mk_keyword _ value => visit_expr value
  end.

(** [s.split(".")[0]] *)
Fixpoint before_dot (s : string) : string :=
  match s with
  | EmptyString => EmptyString
  | String c rest =>
      if Ascii.eqb c "." then EmptyString else String c (before_dot rest)
  end.

(** [asname or fallback] for an optional string. *)
Definition asname_or (asname : option identifier) (fallback : string)
  : string :=
  match asname with
  | Some a => if truthy a then a else fallback
  | None => fallback
  end.

Definition visit_Import (names : list alias) : action t :=
  for_each
    (λ alias,
       _define (asname_or (alias_asname alias) (before_dot (alias_name alias))))
    names.

Definition visit_ImportFrom (names : list alias) : action t :=
  for_each
    (λ alias,
       if String.eqb (alias_name alias) "*" then skip
       else _define (asname_or (alias_asname alias) (alias_name alias)))
    names.

(** [if a and a.arg: self._define(a.arg)] *)
Definition define_optional_arg (a : option arg) : action t :=
  match a with
  | Some a => if truthy (arg_arg a) then _define (arg_arg a) else skip
  | None => skip
  end.

Section statements.

(** [self.visit] on statements, the recursive call of the methods below. *)
Variable visit : stmt → action t.

Definition _add_function_body (body : list stmt) : action t :=
  for_each visit body.

Definition visit_FunctionDef (name : identifier) (args : arguments)
  (body : list stmt) (decorator_list : list expr) : action t :=
  _define name;;
  _push_scope;;
  for_each (λ a, if truthy (arg_arg a) then _define (arg_arg a) else skip)
    (posonlyargs args ++ ast.args args ++ kwonlyargs args);;
  define_optional_arg (vararg args);;
  define_optional_arg (kwarg args);;
  for_each visit_expr decorator_list;;
  _add_function_body body;;
  _pop_scope.

Definition visit_AsyncFunctionDef := visit_FunctionDef.

Definition visit_ClassDef (name : identifier) (bases : list expr)
  (body : list stmt) (decorator_list : list expr) : action t :=
  _define name;;
  _push_scope;;
  for_each visit_expr bases;;
  for_each visit_expr decorator_list;;
  _add_function_body body;;
  _pop_scope.

Definition visit_For (target iter : expr) (body orelse : list stmt)
  : action t :=
  visit_expr iter;;
  on_top_scope (_add_target_names target);;
  for_each visit body;;
  for_each visit orelse.

Definition visit_While (test : expr) (body orelse : list stmt) : action t :=
  visit_expr test;;
  for_each visit body;;
  for_each visit orelse.

Definition visit_With (items : list withitem) (body : list stmt)
  : action t :=
  for_each
    (λ item,
       visit_expr (context_expr item);;
       if_some (λ vars, on_top_scope (_add_target_names vars))
         (optional_vars item))
    items;;
  for_each visit body.

Definition visit_ExceptHandler (name : option identifier) (body : list stmt)
  : action t :=
  _push_scope;;
  match name with
  | Some n => if truthy n then _define n else skip
  | None => skip
  end;;
  for_each visit body;;
  _pop_scope.

End statements.

Definition visit_Assign (targets : list expr) (value : expr) : action t :=
  for_each (λ target, on_top_scope (_add_target_names target)) targets;;
  visit_expr value.

Definition visit_AnnAssign (target annotation : expr) (value : option expr)
  : action t :=
  on_top_scope (_add_target_names target);;
  visit_expr annotation;;
  if_some visit_expr value.

Definition visit_AugAssign (target value : expr) : action t :=
  on_top_scope (_add_target_names target);;
  visit_expr value.

(** [visit] on statements: the [visit_X] method where the class defines one,
    [generic_visit] (the children, in field order) otherwise. *)
Fixpoint visit_stmt (s : stmt) : action t :=
  match s with
  | FunctionDef name args body decorator_list _ =>
      visit_FunctionDef visit_stmt name args body decorator_list
  | AsyncFunctionDef name args body decorator_list _ =>
      visit_AsyncFunctionDef visit_stmt name args body decorator_list
  | ClassDef name bases _ body decorator_list =>
      visit_ClassDef visit_stmt name bases body decorator_list
  | For target iter body orelse => visit_For visit_stmt target iter body orelse
  | While test body orelse => visit_While visit_stmt test body orelse
  | With items body => visit_With visit_stmt items body
  | Assign targets value => visit_Assign targets value
  | AnnAssign target annotation value _ =>
      visit_AnnAssign target annotation value
  | AugAssign target _ value => visit_AugAssign target value
  | Import names => visit_Import names
  | ImportFrom _ names _ => visit_ImportFrom names
  | Return value => if_some visit_expr value
  | Delete targets => for_each visit_expr targets
  | AsyncFor target iter body orelse =>
      visit_expr target;; visit_expr iter;;
      for_each visit_stmt body;; for_each visit_stmt orelse
  | If test body orelse =>
      visit_expr test;; for_each visit_stmt body;; for_each visit_stmt orelse
  | Raise exc cause => if_some visit_expr exc;; if_some visit_expr cause
  | Try body handlers orelse finalbody =>
      for_each visit_stmt body;;
      for_each visit_excepthandler handlers;;
      for_each visit_stmt orelse;;
      for_each visit_stmt finalbody
  | Assert test msg => visit_expr test;; if_some visit_expr msg
  | Expr value => visit_expr value
  | Global _ | Pass | Break | Continue => skip
  | OtherStmt children => for_each visit_child children
  end
with visit_excepthandler (h : excepthandler) : action t :=
  match h with
  | ExceptHandler _ name body => visit_ExceptHandler visit_stmt name body
  end
with visit_child (c : child) : action t :=
  match c with
  | ChildExpr e => visit_expr e
  | ChildStmt s => visit_stmt s
  | ChildHandler h => visit_excepthandler h
  end.

(** [visit(tree)] for the [ast.Module] root: [generic_visit] over its body. *)
Definition visit (tree : py_module) : action t :=
  match tree with
  | Module_ body => for_each visit_stmt body
  end.

End methods.
End UndefinedNameVisitor.

(** ** [RuntimePatternVisitor] *)

Module RuntimePatternVisitor.
Import ast.

Record t := mk {
  source : string;
  issues : list RuntimeIssue
}.

(** [isinstance(value, int)]; [bool] is a subclass of [int]. *)
Definition isinstance_int (value : constant) : bool :=
  match value with
  | CBool _ | CInt _ => true
  | _ => false
  end.

(** [isinstance(value, (int, float))] *)
Definition isinstance_int_float (value : constant) : bool :=
  match value with
  | CBool _ | CInt _ | CFloat _ => true
  | _ => false
  end.

(** [value == 0] for the value of a constant: numbers compare by value
    ([False == 0], [0.0 == 0], [-0.0 == 0] and [0j == 0] hold), every other
    kind of constant is unequal to [0]. *)
Definition eq_zero (value : constant) : bool :=
  match value with
  | CBool b => negb b
  | CInt n => Z.eqb n 0
  | CFloat f => SFeqb f (S754_zero false)
  | CComplex re im => SFeqb re (S754_zero false) && SFeqb im (S754_zero false)
  | _ => false
  end.

Definition _is_constant_zero (node : expr) : bool :=
  match node with
  | Constant value _ => isinstance_int_float value && eq_zero value
  | _ => false
  end.

Section methods.

Variable get_source_segment : string → location → option string.

Definition __init__ (source : string) : t := mk source [].

(** [self.issues.append(issue)], for an issue whose snippet is cut from
    [self.source]. *)
Definition append (issue : string → RuntimeIssue) : action t :=
  λ self, Some (mk (source self) (issues self ++ [issue (source self)])).

Definition ZeroDivisionError_issue (loc : location) (source : string)
  : RuntimeIssue :=
  RuntimeIssue_default "ZeroDivisionError" (Some (lineno loc))
    (get_source_segment source loc) "This expression can divide by zero.".

Definition TypeError_issue (iter_loc : location) (source : string)
  : RuntimeIssue :=
  RuntimeIssue_default "TypeError" (Some (lineno iter_loc))
    (get_source_segment source iter_loc)
    "You are trying to iterate over an int, which is not iterable.".

Definition BestPractice_issue (loc : location) (source : string)
  : RuntimeIssue :=
  mk_RuntimeIssue "BestPractice" (Some (lineno loc))
    (get_source_segment source loc)
    "Use `is None` / `is not None` for None checks." "info".

Section expressions.

Variable visit : expr → action t.

Definition visit_BinOp (left_ : expr) (op : operator) (right_ : expr)
  (loc : location) : action t :=
  match op with
  | Div | FloorDiv | Mod =>
      if _is_constant_zero right_ then append (ZeroDivisionError_issue loc)
      else skip
  | _ => skip
  end;;
  visit left_;; visit right_.

(** [comp_rhs = node.comparators[0]] raises [IndexError] when the list is
    empty. *)
Definition visit_Compare (left_ : expr) (ops : list cmpop)
  (comparators : list expr) (loc : location) : action t :=
  match ops with
  | [Eq] | [NotEq] =>
      λ self,
        match comparators with
        | comp_rhs :: _ =>
            match comp_rhs with
            | Constant CNone _ => append (BestPractice_issue loc) self
            | _ => Some self
            end
        | [] => None
        end
  | _ => skip
  end;;
  visit left_;; for_each visit comparators.

End expressions.

Fixpoint visit_expr (e : expr) : action t :=
  match e with
  | BinOp left_ op right_ loc => visit_BinOp visit_expr left_ op right_ loc
  | Compare left_ ops comparators loc =>
      visit_Compare visit_expr left_ ops comparators loc
  | BoolOp _ values _ => for_each visit_expr values
  | NamedExpr target value _ => visit_expr target;; visit_expr value
  | UnaryOp _ operand _ => visit_expr operand
  | IfExp test body orelse _ =>
      visit_expr test;; visit_expr body;; visit_expr orelse
  | Call func args keywords _ =>
      visit_expr func;; for_each visit_expr args;;
      for_each visit_keyword keywords
  | Constant _ _ | Name _ _ _ => skip
  | Attribute value _ _ _ => visit_expr value
  | Subscript value slice _ _ => visit_expr value;; visit_expr slice
  | Starred value _ _ => visit_expr value
  | List elts _ _ | Tuple elts _ _ => for_each visit_expr elts
  | OtherExpr children _ => for_each visit_expr children
  end
with visit_keyword (k : keyword) : action t :=
  match k with
  | mk_keyword _ value => visit_expr value
  end.

(** [generic_visit] of the helper nodes [arg], [arguments] and [withitem]. *)
Definition visit_arg (a : arg) : action t :=
  if_some visit_expr (arg_annotation a).

Definition visit_arguments (a : arguments) : action t :=
  for_each visit_arg (posonlyargs a);;
  for_each visit_arg (args a);;
  if_some visit_arg (vararg a);;
  for_each visit_arg (kwonlyargs a);;
  for_each (if_some visit_expr) (kw_defaults a);;
  if_some visit_arg (kwarg a);;
  for_each visit_expr (defaults a).

Definition visit_withitem (item : withitem) : action t :=
  visit_expr (context_expr item);; if_some visit_expr (optional_vars item).

Definition visit_For (visit : stmt → action t) (target iter : expr)
  (body orelse : list stmt) : action t :=
  match iter with
  | Constant value _ =>
      if isinstance_int value then append (TypeError_issue (expr_loc iter))
      else skip
  | _ => skip
  end;;
  visit_expr target;; visit_expr iter;;
  for_each visit body;; for_each visit orelse.

Fixpoint visit_stmt (s : stmt) : action t :=
  match s with
  | For target iter body orelse => visit_For visit_stmt target iter body orelse
  | FunctionDef _ args body decorator_list returns
  | AsyncFunctionDef _ args body decorator_list returns =>
      visit_arguments args;; for_each visit_stmt body;;
      for_each visit_expr decorator_list;; if_some visit_expr returns
  | ClassDef _ bases keywords body decorator_list =>
      for_each visit_expr bases;; for_each visit_keyword keywords;;
      for_each visit_stmt body;; for_each visit_expr decorator_list
  | Return value => if_some visit_expr value
  | Delete targets => for_each visit_expr targets
  | Assign targets value => for_each visit_expr targets;; visit_expr value
  | AugAssign target _ value => visit_expr target;; visit_expr value
  | AnnAssign target annotation value _ =>
      visit_expr target;; visit_expr annotation;; if_some visit_expr value
  | AsyncFor target iter body orelse =>
      visit_expr target;; visit_expr iter;;
      for_each visit_stmt body;; for_each visit_stmt orelse
  | While test body orelse | If test body orelse =>
      visit_expr test;; for_each visit_stmt body;; for_each visit_stmt orelse
  | With items body => for_each visit_withitem items;; for_each visit_stmt body
  | Raise exc cause => if_some visit_expr exc;; if_some visit_expr cause
  | Try body handlers orelse finalbody =>
      for_each visit_stmt body;;
      for_each visit_excepthandler handlers;;
      for_each visit_stmt orelse;;
      for_each visit_stmt finalbody
  | Assert test msg => visit_expr test;; if_some visit_expr msg
  | Expr value => visit_expr value
  | Import _ | ImportFrom _ _ _ | Global _ | Pass | Break | Continue => skip
  | OtherStmt children => for_each visit_child children
  end
with visit_excepthandler (h : excepthandler) : action t :=
  match h with
  | ExceptHandler type _ body =>
      if_some visit_expr type;; for_each visit_stmt body
  end
with visit_child (c : child) : action t :=
  match c with
  | ChildExpr e => visit_expr e
  | ChildStmt s => visit_stmt s
  | ChildHandler h => visit_excepthandler h
  end.

Definition visit (tree : py_module) : action t :=
  match tree with
  | Module_ body => for_each visit_stmt body
  end.

End methods.
End RuntimePatternVisitor.

(** ** [ast.walk]

    [ast.walk(node)] yields [node] and all its descendants, in an order the
    library leaves unspecified; its only caller tests membership. The list
    below is in pre-order. The field-less operator and context nodes are not
    listed, nor are the helper nodes below an [OtherExpr] or [OtherStmt]. *)

Inductive node :=
| N_expr (e : ast.expr)
| N_keyword (k : ast.keyword)
| N_arg (a : ast.arg)
| N_arguments (a : ast.arguments)
| N_alias (a : ast.alias)
| N_withitem (w : ast.withitem)
| N_stmt (s : ast.stmt)
| N_excepthandler (h : ast.excepthandler)
| N_module (m : ast.py_module).

Module walk.
Import ast.

Definition opt {A} (w : A → list node) (x : option A) : list node :=
  match x with
  | Some y => w y
  | None => []
  end.

Fixpoint expr (e : ast.expr) : list node :=
  N_expr e ::
  match e with
  | BoolOp _ values _ => (values ≫= expr)
  | NamedExpr target value _ => expr target ++ expr value
  | BinOp left_ _ right_ _ => expr left_ ++ expr right_
  | UnaryOp _ operand _ => expr operand
  | IfExp test body orelse _ => expr test ++ expr body ++ expr orelse
  | Compare left_ _ comparators _ => expr left_ ++ (comparators ≫= expr)
  | Call func args keywords _ =>
      expr func ++ (args ≫= expr) ++ (keywords ≫= keyword)
  | Constant _ _ | Name _ _ _ => []
  | Attribute value _ _ _ => expr value
  | Subscript value slice _ _ => expr value ++ expr slice
  | Starred value _ _ => expr value
  | List elts _ _ | Tuple elts _ _ => elts ≫= expr
  | OtherExpr children _ => children ≫= expr
  end
with keyword (k : ast.keyword) : list node :=
  N_keyword k ::
  match k with
  | mk_keyword _ value => expr value
  end.

Definition arg (a : ast.arg) : list node :=
  N_arg a :: opt expr (arg_annotation a).

Definition arguments (a : ast.arguments) : list node :=
  N_arguments a ::
  (posonlyargs a ≫= arg) ++ (args a ≫= arg) ++
  opt arg (vararg a) ++ (kwonlyargs a ≫= arg) ++
  (kw_defaults a ≫= opt expr) ++ opt arg (kwarg a) ++
  (defaults a ≫= expr).

Definition withitem (w : ast.withitem) : list node :=
  N_withitem w :: expr (context_expr w) ++ opt expr (optional_vars w).

Fixpoint stmt (s : ast.stmt) : list node :=
  N_stmt s ::
  match s with
  | FunctionDef _ args body decorator_list returns
  | AsyncFunctionDef _ args body decorator_list returns =>
      arguments args ++ (body ≫= stmt) ++
      (decorator_list ≫= expr) ++ opt expr returns
  | ClassDef _ bases keywords body decorator_list =>
      (bases ≫= expr) ++ (keywords ≫= keyword) ++
      (body ≫= stmt) ++ (decorator_list ≫= expr)
  | Return value => opt expr value
  | Delete targets => (targets ≫= expr)
  | Assign targets value => (targets ≫= expr) ++ expr value
  | AugAssign target _ value => expr target ++ expr value
  | AnnAssign target annotation value _ =>
      expr target ++ expr annotation ++ opt expr value
  | For target iter body orelse | AsyncFor target iter body orelse =>
      expr target ++ expr iter ++ (body ≫= stmt) ++ (orelse ≫= stmt)
  | While test body orelse | If test body orelse =>
      expr test ++ (body ≫= stmt) ++ (orelse ≫= stmt)
  | With items body => (items ≫= withitem) ++ (body ≫= stmt)
  | Raise exc cause => opt expr exc ++ opt expr cause
  | Try body handlers orelse finalbody =>
      (body ≫= stmt) ++ (handlers ≫= excepthandler) ++
      (orelse ≫= stmt) ++ (finalbody ≫= stmt)
  | Assert test msg => expr test ++ opt expr msg
  | Import names | ImportFrom _ names _ => map N_alias names
  | Expr value => expr value
  | Global _ | Pass | Break | Continue => []
  | OtherStmt children => children ≫= child
  end
with excepthandler (h : ast.excepthandler) : list node :=
  N_excepthandler h ::
  match h with
  | ExceptHandler type _ body => opt expr type ++ (body ≫= stmt)
  end
with child (c : ast.child) : list node :=
  match c with
  | ChildExpr e => expr e
  | ChildStmt s => stmt s
  | ChildHandler h => excepthandler h
  end.

Definition module (m : py_module) : list node :=
  N_module m ::
  match m with
  | Module_ body => (body ≫= stmt)
  end.

End walk.

(** ** [ComplexityVisitor] *)

Module ComplexityVisitor.
Import ast.

Record t := mk {
  loop_depth : Z;
  max_loop_depth : Z;
  has_nested_data : bool;
  has_recursion : bool;
  function_name : option string
}.

Definition __init__ : t := mk 0 0 false false None.

Definition set_loop_depth (d : Z) : action t :=
  λ self,
    Some (mk d (max_loop_depth self) (has_nested_data self)
            (has_recursion self) (function_name self)).

Definition set_max_loop_depth (d : Z) : action t :=
  λ self,
    Some (mk (loop_depth self) d (has_nested_data self) (has_recursion self)
            (function_name self)).

Definition set_has_recursion (b : bool) : action t :=
  λ self,
    Some (mk (loop_depth self) (max_loop_depth self) (has_nested_data self) b
            (function_name self)).

Definition set_function_name (fn : option string) : action t :=
  λ self,
    Some (mk (loop_depth self) (max_loop_depth self) (has_nested_data self)
            (has_recursion self) fn).

(** [isinstance(child, ast.Call) and isinstance(child.func, ast.Name) and
    child.func.id == fn] *)
Definition is_call_to (fn : option string) (child : node) : bool :=
  match child with
  | N_expr (Call (Name id _ _) _ _ _) => bool_decide (Some id = fn)
  | _ => false
  end.

(** [_check_recursion(node)], given [ast.walk(node)]. *)
Definition _check_recursion (walk_node : list node) : action t :=
  λ self,
    let fn := function_name self in
    for_each
      (λ child, if is_call_to fn child then set_has_recursion true else skip)
      walk_node self.

(** No method handles an expression class: [visit] on an expression is
    [generic_visit] all the way down. *)
Fixpoint visit_expr (e : expr) : action t :=
  match e with
  | BoolOp _ values _ => for_each visit_expr values
  | NamedExpr target value _ => visit_expr target;; visit_expr value
  | BinOp left_ _ right_ _ => visit_expr left_;; visit_expr right_
  | UnaryOp _ operand _ => visit_expr operand
  | IfExp test body orelse _ =>
      visit_expr test;; visit_expr body;; visit_expr orelse
  | Compare left_ _ comparators _ =>
      visit_expr left_;; for_each visit_expr comparators
  | Call func args keywords _ =>
      visit_expr func;; for_each visit_expr args;;
      for_each visit_keyword keywords
  | Constant _ _ | Name _ _ _ => skip
  | Attribute value _ _ _ => visit_expr value
  | Subscript value slice _ _ => visit_expr value;; visit_expr slice
  | Starred value _ _ => visit_expr value
  | List elts _ _ | Tuple elts _ _ => for_each visit_expr elts
  | OtherExpr children _ => for_each visit_expr children
  end
with visit_keyword (k : keyword) : action t :=
  match k with
  | mk_keyword _ value => visit_expr value
  end.

Definition visit_arg (a : arg) : action t :=
  if_some visit_expr (arg_annotation a).

Definition visit_arguments (a : arguments) : action t :=
  for_each visit_arg (posonlyargs a);;
  for_each visit_arg (args a);;
  if_some visit_arg (vararg a);;
  for_each visit_arg (kwonlyargs a);;
  for_each (if_some visit_expr) (kw_defaults a);;
  if_some visit_arg (kwarg a);;
  for_each visit_expr (defaults a).

Definition visit_withitem (item : withitem) : action t :=
  visit_expr (context_expr item);; if_some visit_expr (optional_vars item).

Section statements.

Variable visit : stmt → action t.

(** [visit_For] and [visit_While] have the same body; [generic_visit] is the
    walk over the loop's own fields. *)
Definition visit_loop (generic_visit : action t) : action t :=
  (λ self, set_loop_depth (loop_depth self + 1) self);;
  (λ self,
     set_max_loop_depth (Z.max (max_loop_depth self) (loop_depth self)) self);;
  generic_visit;;
  (λ self, set_loop_depth (loop_depth self - 1) self).

Definition visit_For (target iter : expr) (body orelse : list stmt)
  : action t :=
  visit_loop
    (visit_expr target;; visit_expr iter;;
     for_each visit body;; for_each visit orelse).

Definition visit_While (test : expr) (body orelse : list stmt) : action t :=
  visit_loop (visit_expr test;; for_each visit body;; for_each visit orelse).

Definition visit_FunctionDef (walk_node : list node) (name : identifier)
  (args : arguments) (body : list stmt) (decorator_list : list expr)
  (returns : option expr) : action t :=
  λ self,
    let previous := function_name self in
    (set_function_name (Some name);;
     _check_recursion walk_node;;
     (visit_arguments args;; for_each visit body;;
      for_each visit_expr decorator_list;; if_some visit_expr returns);;
     set_function_name previous) self.

Definition visit_AsyncFunctionDef := visit_FunctionDef.

End statements.

Fixpoint visit_stmt (s : stmt) : action t :=
  match s with
  | For target iter body orelse => visit_For visit_stmt target iter body orelse
  | While test body orelse => visit_While visit_stmt test body orelse
  | FunctionDef name args body decorator_list returns =>
      visit_FunctionDef visit_stmt (walk.stmt s) name args body decorator_list
        returns
  | AsyncFunctionDef name args body decorator_list returns =>
      visit_AsyncFunctionDef visit_stmt (walk.stmt s) name args body
        decorator_list returns
  | ClassDef _ bases keywords body decorator_list =>
      for_each visit_expr bases;; for_each visit_keyword keywords;;
      for_each visit_stmt body;; for_each visit_expr decorator_list
  | Return value => if_some visit_expr value
  | Delete targets => for_each visit_expr targets
  | Assign targets value => for_each visit_expr targets;; visit_expr value
  | AugAssign target _ value => visit_expr target;; visit_expr value
  | AnnAssign target annotation value _ =>
      visit_expr target;; visit_expr annotation;; if_some visit_expr value
  | AsyncFor target iter body orelse =>
      visit_expr target;; visit_expr iter;;
      for_each visit_stmt body;; for_each visit_stmt orelse
  | If test body orelse =>
      visit_expr test;; for_each visit_stmt body;; for_each visit_stmt orelse
  | With items body => for_each visit_withitem items;; for_each visit_stmt body
  | Raise exc cause => if_some visit_expr exc;; if_some visit_expr cause
  | Try body handlers orelse finalbody =>
      for_each visit_stmt body;;
      for_each visit_excepthandler handlers;;
      for_each visit_stmt orelse;;
      for_each visit_stmt finalbody
  | Assert test msg => visit_expr test;; if_some visit_expr msg
  | Expr value => visit_expr value
  | Import _ | ImportFrom _ _ _ | Global _ | Pass | Break | Continue => skip
  | OtherStmt children => for_each visit_child children
  end
with visit_excepthandler (h : excepthandler) : action t :=
  match h with
  | ExceptHandler type _ body =>
      if_some visit_expr type;; for_each visit_stmt body
  end
with visit_child (c : child) : action t :=
  match c with
  | ChildExpr e => visit_expr e
  | ChildStmt s => visit_stmt s
  | ChildHandler h => visit_excepthandler h
  end.

Definition visit (tree : py_module) : action t :=
  match tree with
  | Module_ body => for_each visit_stmt body
  end.

End ComplexityVisitor.

(** ** [run_static_checks] and the head of [analyze_python_code] *)

(** The dictionary built from a [RuntimeIssue] (and, for a syntax error,
    directly): keys [type], [line], [snippet], [why], [severity]. *)
Record IssueDict := mk_IssueDict {
  d_type : string;
  d_line : option Z;
  d_snippet : option string;
  d_why : string;
  d_severity : string
}.

Definition issue_to_dict (issue : RuntimeIssue) : IssueDict :=
  mk_IssueDict (type issue) (line issue) (snippet issue) (why issue)
    (severity issue).

(** [{"time": ..., "space": ...}] *)
Record ComplexityDict := mk_ComplexityDict {
  time : string;
  space : string
}.

(** The [static_context] dictionary; a key that is absent or bound to [None]
    reads as [None] through [dict.get]. *)
Record StaticContext := mk_StaticContext {
  sc_issues : list IssueDict;
  sc_complexity : option ComplexityDict;
  sc_recursion : option bool;
  sc_max_loop_depth : option Z
}.

Definition _derive_time_complexity (complexity_checker : ComplexityVisitor.t)
  : string :=
  if ComplexityVisitor.has_recursion complexity_checker
  then "Depends on recursion depth; often O(2^n) for naive recursion"
  else if Z.eqb (ComplexityVisitor.max_loop_depth complexity_checker) 0
  then "Roughly O(n)"
  else if Z.eqb (ComplexityVisitor.max_loop_depth complexity_checker) 1
  then "Roughly O(n)"
  else if Z.eqb (ComplexityVisitor.max_loop_depth complexity_checker) 2
  then "Approximately O(n^2)"
  else "Approximately O(n^k), k > 2".

Definition _derive_space_complexity (complexity_checker : ComplexityVisitor.t)
  : string :=
  if ComplexityVisitor.has_recursion complexity_checker
  then "O(recursion depth)"
  else "O(1) to O(n) typical for this file".

(** The [SyntaxError] raised by [ast.parse]. *)
Record SyntaxError := mk_SyntaxError {
  exc_lineno : option Z;
  exc_text : option string;
  exc_msg : string
}.

(** What [ast.parse] does with a text: it returns a tree, it raises
    [SyntaxError], or it raises another exception ([ValueError] for a NUL
    character under Python 3.11, [UnicodeEncodeError] for a lone surrogate,
    [RecursionError], [MemoryError]), which no [except SyntaxError] catches. *)
Inductive parse_outcome :=
| Parsed (tree : ast.py_module)
| Raised (exc : SyntaxError)
| RaisedOther.

(** Where [analyze_python_code] stands after its line 61: it has returned the
    "no code" response, or it is about to call [generate_feedback] with these
    issues and this complexity. *)
Inductive analysis :=
| NoCodeProvided
| Analysed (source : string) (issues : list IssueDict)
    (complexity : option ComplexityDict).

Section analyzer.

Variable runtime_builtins : gset string.
Variable get_source_segment : string → ast.location → option string.

(** [ast.parse], a function of the source text. *)
Variable ast_parse : string → parse_outcome.

(** [str.strip] *)
Variable strip : string → string.

(** [run_static_checks]; it has no handler, so every exception of
    [ast.parse] leaves it ([None]). *)
Definition run_static_checks (source : string) : option StaticContext :=
  match ast_parse source with
  | Raised _ | RaisedOther => None
  | Parsed tree =>
      let issues : list RuntimeIssue := [] in
      undefined_checker ←
        UndefinedNameVisitor.visit get_source_segment tree
          (UndefinedNameVisitor.__init__ runtime_builtins source);
      let issues :=
        (issues ++ UndefinedNameVisitor.issues undefined_checker)%list in
      runtime_checker ←
        RuntimePatternVisitor.visit get_source_segment tree
          (RuntimePatternVisitor.__init__ source);
      let issues :=
        (issues ++ RuntimePatternVisitor.issues runtime_checker)%list in
      complexity_checker ←
        ComplexityVisitor.visit tree ComplexityVisitor.__init__;
      let complexity :=
        mk_ComplexityDict (_derive_time_complexity complexity_checker)
          (_derive_space_complexity complexity_checker) in
      Some (mk_StaticContext (map issue_to_dict issues) (Some complexity)
              (Some (ComplexityVisitor.has_recursion complexity_checker))
              (Some (ComplexityVisitor.max_loop_depth complexity_checker)))
  end.

(** [exc.lineno or 0] *)
Definition lineno_or_0 (lineno : option Z) : Z :=
  match lineno with
  | Some n => if Z.eqb n 0 then 0 else n
  | None => 0
  end.

(** [exc.text.strip() if exc.text else None] *)
Definition text_snippet (text : option string) : option string :=
  match text with
  | Some s => if String.eqb s "" then None else Some (strip s)
  | None => None
  end.

Definition syntax_error_issue (exc : SyntaxError) : IssueDict :=
  mk_IssueDict "SyntaxError" (Some (lineno_or_0 (exc_lineno exc)))
    (text_snippet (exc_text exc)) (exc_msg exc) "error".

(** Lines 34 to 59 of [analyze_python_code], for the stripped text
    [source]: the [issues] and the [static_context] it holds before it reads
    the complexity. An exception of [ast.parse] other than [SyntaxError] is
    not caught and leaves the function ([None]). *)
Definition static_report (source : string)
  : option (list IssueDict * StaticContext) :=
  match ast_parse source with
  | RaisedOther => None
  | Raised exc =>
      let issues := [syntax_error_issue exc] in
      let static_context := mk_StaticContext [] None None None in
      Some (issues, static_context)
  | Parsed tree =>
      static_context ← run_static_checks source;
      let issues := sc_issues static_context in
      Some (issues, static_context)
  end.

(** [analyze_python_code] up to its line 61. Of its parameters only [code]
    and [include_complexity] are read there. *)
Definition analyze_python_code (code : string) (include_complexity : bool)
  : option analysis :=
  let source := strip code in
  if String.eqb source "" then Some NoCodeProvided
  else
    report ← static_report source;
    let issues := report.1 in
    let static_context := report.2 in
    let complexity := sc_complexity static_context in
    let complexity := if include_complexity then complexity else None in
    Some (Analysed source issues complexity).

End analyzer.

(** ** JSON values

    What [json.loads] returns and what the response dictionaries hold. A
    Python [dict] with string keys is a finite map; nothing here depends on
    the order of its keys. *)

Unset Elimination Schemes.
Inductive json :=
| JNull
| JBool (b : bool)
| JInt (n : Z)
| JFloat (f : spec_float)
| JStr (s : string)
| JList (items : list json)
| JDict (items : gmap string json).
Set Elimination Schemes.

Abbreviation dict := (gmap string json) (only parsing).

(** [bool(v)]: [None], [False], zero, the empty string, the empty list and
    the empty dictionary are false. *)
Definition json_bool (v : json) : bool :=
  match v with
  | JNull => false
  | JBool b => b
  | JInt n => negb (Z.eqb n 0)
  | JFloat f => negb (SFeqb f (S754_zero false))
  | JStr s => negb (String.eqb s "")
  | JList items => match items with [] => false | _ :: _ => true end
  | JDict items => negb (bool_decide (dom items = ∅))
  end.

(** [v is not None] *)
Definition is_not_None (v : json) : bool :=
  match v with
  | JNull => false
  | _ => true
  end.

(** [bool(s)] for a string and [bool(xs)] for a list. *)
Definition str_bool (s : string) : bool := negb (String.eqb s "").

Definition list_bool {A} (xs : list A) : bool :=
  match xs with
  | [] => false
  | _ :: _ => true
  end.


Definition str_of_nat (n : nat) : string :=
  NilZero.string_of_uint (Nat.to_uint n).

(** An optional value as JSON: [None] is [null]. *)
Definition json_of_option {A} (f : A → json) (x : option A) : json :=
  match x with
  | Some y => f y
  | None => JNull
  end.

(** The dictionaries of the static checks as JSON values. *)
Definition dict_of_issue (d : IssueDict) : dict :=
  <["type" := JStr (d_type d)]>
    (<["line" := json_of_option JInt (d_line d)]>
       (<["snippet" := json_of_option JStr (d_snippet d)]>
          (<["why" := JStr (d_why d)]>
             (<["severity" := JStr (d_severity d)]> ∅)))).

Definition json_of_issue (d : IssueDict) : json := JDict (dict_of_issue d).

Definition json_of_complexity (c : ComplexityDict) : json :=
  JDict (<["time" := JStr (time c)]> (<["space" := JStr (space c)]> ∅)).

(** ** [models.py]

    The pydantic models as far as the analyzer builds them itself. *)

Module models.

Record Hint := mk_Hint {
  level : string;
  text : string
}.

(** [h.model_dump()] *)
Definition model_dump (h : Hint) : json :=
  JDict (<["level" := JStr (level h)]> (<["text" := JStr (text h)]> ∅)).

(** The keyword arguments [analyze_python_code] calls [AnalyzeResponse]
    with; an argument left out takes the model's default [None]. *)
Record AnalyzeResponse := mk_AnalyzeResponse {
  summary : json;
  error_clusters : json;
  hints : json;
  full_solution : json;
  key_concepts : json;
  complexity : json;
  best_practices : json
}.

(** The request after validation: [hint_depth] and [hint_level] are absent
    or between 1 and 3. *)
Record AnalyzeRequest := mk_AnalyzeRequest {
  code : string;
  help_mode : string;
  hint_depth : option Z;
  hint_level : option Z;
  include_complexity : bool;
  include_solution : bool
}.

(** [Field(default=None, ge=1, le=3)] *)
Definition valid_hint (h : option Z) : Prop :=
  match h with
  | Some n => (1 ≤ n ≤ 3)%Z
  | None => True
  end.




End models.

(** ** [llm.py] *)

(** [str.find] and [str.rfind] for a one-character needle, [None] for [-1];
    [s[start:stop]] for [0 <= start] and [stop <= len(s)]. Positions count
    the characters of the string as this development holds it; the braces
    searched for are single characters in every encoding of the text. *)
Fixpoint find (c : ascii) (s : string) : option nat :=
  match s with
  | EmptyString => None
  | String d rest =>
      if Ascii.eqb d c then Some 0%nat else S <$> find c rest
  end.

Fixpoint rfind (c : ascii) (s : string) : option nat :=
  match s with
  | EmptyString => None
  | String d rest =>
      match rfind c rest with
      | Some i => Some (S i)
      | None => if Ascii.eqb d c then Some 0%nat else None
      end
  end.

Definition slice (start stop : nat) (s : string) : string :=
  substring start (stop - start) s.

Definition level_1_hint : models.Hint :=
  models.mk_Hint "beginner"
    "Read each red line carefully from the message, then fix one issue at a time before moving on.".

Definition level_2_hint : models.Hint :=
  models.mk_Hint "intermediate"
    ("Trace variable values around the failing line. " ++
     "If an error says 'undefined' or 'not iterable', print variable types and values before the line.").

Definition level_3_hint : models.Hint :=
  models.mk_Hint "near_solution"
    ("Consider rewriting the section with guard clauses (early checks like type or range checks) " ++
     "to prevent the error conditions before the operation.").

Definition no_issues_hint : models.Hint :=
  models.mk_Hint "beginner"
    "No static issues found; run a few simple test inputs in class and compare expected outputs.".

Definition _default_hints_from_issues (issues : list IssueDict)
  (hint_level : Z) : list models.Hint :=
  let max_level := Z.max 1 (Z.min 3 hint_level) in
  let hints := [level_1_hint] in
  let hints :=
    if (2 <=? max_level)%Z then (hints ++ [level_2_hint])%list else hints in
  let hints :=
    if (3 <=? max_level)%Z then (hints ++ [level_3_hint])%list else hints in
  let hints :=
    if negb (list_bool issues) then (hints ++ [no_issues_hint])%list
    else hints in
  hints.

Definition fallback_key_concepts : json :=
  JList
    [JStr "Reading traceback-like errors";
     JStr "Guarding edge cases before math or indexing";
     JStr "Checking variable scope and definitions"].

Definition fallback_best_practices : json :=
  JList
    [JStr "Use clear variable names and consistent indentation.";
     JStr "Handle edge cases (empty lists, zero division, wrong types) explicitly.";
     JStr "Add one simple test input for each branch of logic."].

(** [{"code": "", "explanation": explanation}] *)
Definition no_solution (explanation : string) : json :=
  JDict (<["code" := JStr ""]> (<["explanation" := JStr explanation]> ∅)).

(** The two solutions the feedback layer writes itself. *)
Definition no_key_solution : json :=
  no_solution
    ("No Gemini key is configured right now. Add your Google AI Studio key to backend/.env " ++
     "to get an improved code version and deeper teaching hints.").

Definition no_answer_solution : json :=
  no_solution "Solver did not return a corrected version.".

Definition no_issues_summary : string :=
  "No obvious syntax/runtime risks found in the static checks.".

(** [f"Found {n} issue(s) to fix before this code is safe to run."] *)
Definition issues_summary (n : nat) : string :=
  "Found " ++ str_of_nat n ++
  " issue(s) to fix before this code is safe to run.".

Definition build_fallback_response (source_code : string)
  (issues : list IssueDict) (hint_level : Z)
  (include_complexity include_solution : bool)
  (complexity : option ComplexityDict) : dict :=
  let summary := no_issues_summary in
  let summary :=
    if list_bool issues then issues_summary (length issues) else summary in
  let response : dict :=
    <["summary" := JStr summary]>
      (<["error_clusters" := JList (json_of_issue <$> issues)]>
         (<["hints" :=
              JList
                (models.model_dump <$>
                 _default_hints_from_issues issues hint_level)]>
            (<["key_concepts" := fallback_key_concepts]>
               (<["best_practices" := fallback_best_practices]> ∅)))) in
  let response :=
    match complexity with
    | Some c =>
        if include_complexity
        then <["complexity" := json_of_complexity c]> response
        else response
    | None => response
    end in
  let response :=
    if include_solution then <["full_solution" := no_key_solution]> response
    else response in
  response.

(** What [json.loads] does with a text: it returns a value, it raises
    [json.JSONDecodeError], or it raises another exception ([ValueError] for
    an integer of more digits than the interpreter converts,
    [RecursionError] for a deeply nested text). *)
Inductive loads_outcome :=
| Loaded (value : json)
| JSONDecodeError
| LoadsRaised.

(** [os.getenv(key, fallback)] in the environment [environ]. *)
Definition os_getenv (environ : gmap string string) (key fallback : string)
  : string :=
  default fallback (environ !! key).

Section llm.

(** [m.group(1)] for the match [m] of
    [re.search(r"```json(.*?)```", text, re.DOTALL | re.IGNORECASE)], [None]
    when there is no match. *)
Variable fence_group : string → option string.

(** [str.strip] *)
Variable strip : string → string.

Variable json_loads : string → loads_outcome.

(** [os.environ], as it is after [load_dotenv()]. *)
Variable environ : gmap string string.

(** [int(s)] for a string; [None] stands for its [ValueError]. *)
Variable int : string → option Z.

(** The prompt of [generate_feedback], lines 176 to 194: a fixed text around
    [hint_level], [include_complexity], [include_solution], [issues] and
    [code]. *)
Variable prompt : string → list IssueDict → Z → bool → bool → string.

(** Lines 50 to 63 of [_call_gemini], for the [url], the [prompt] and the
    [timeout]: the text of the first part of the first candidate of the
    reply, or [None] when the request or anything after it raises an
    [Exception], when the status is not 200, and when the reply has no
    candidate or no part. *)
Variable post : string → string → Z → option string.

(** [try: return json.loads(candidate)] /
    [except json.JSONDecodeError: return None]; any other exception leaves
    the function ([None] outside). *)
Definition loads_or_None (candidate : string) : option (option json) :=
  match json_loads candidate with
  | Loaded value => Some (Some value)
  | JSONDecodeError => Some None
  | LoadsRaised => None
  end.

Definition _extract_json (payload_text : string) : option (option json) :=
  if negb (str_bool payload_text) then Some None
  else
    let candidate :=
      match fence_group payload_text with
      | Some group => strip group
      | None => strip payload_text
      end in
    match find "{" candidate, rfind "}" candidate with
    | Some start, Some end_ =>
        loads_or_None (slice start (end_ + 1) candidate)
    | _, _ => Some None
    end.

(** [_call_gemini]; the conversion of the timeout is outside its [try], so
    its [ValueError] leaves the function ([None] outside). *)
Definition _call_gemini (prompt : string) : option (option string) :=
  let api_key := strip (os_getenv environ "GEMINI_API_KEY" "") in
  if negb (str_bool api_key)
     || String.eqb api_key "PASTE_YOUR_GEMINI_API_KEY_HERE"
  then Some None
  else
    let model := os_getenv environ "GEMINI_MODEL" "gemini-1.5-flash" in
    timeout ← int (os_getenv environ "GEMINI_TIMEOUT_SECONDS" "20");
    let url :=
      "https://generativelanguage.googleapis.com/v1beta/models/" ++ model ++
      ":generateContent?key=" ++ api_key in
    Some (post url prompt timeout).

(** The dictionary built from a reply that parsed to the dictionary
    [parsed], lines 202 to 219. *)
Definition feedback_from_reply (parsed : dict) (issues : list IssueDict)
  (hint_level : Z) (include_complexity include_solution : bool) : dict :=
  let result : dict :=
    <["summary" :=
        default (JStr "No clear message from tutor model.")
          (parsed !! "summary")]>
      (<["error_clusters" :=
           default (JList (json_of_issue <$> issues))
             (parsed !! "error_clusters")]>
         (<["hints" :=
              default
                (JList
                   (models.model_dump <$>
                    _default_hints_from_issues issues hint_level))
                (parsed !! "hints")]>
            (<["key_concepts" := default (JList []) (parsed !! "key_concepts")]>
               (<["best_practices" :=
                    default (JList []) (parsed !! "best_practices")]> ∅)))) in
  let result :=
    match parsed !! "complexity" with
    | Some value =>
        if include_complexity && is_not_None value
        then <["complexity" := value]> result
        else result
    | None => result
    end in
  let result :=
    match parsed !! "full_solution" with
    | Some value =>
        if include_solution && is_not_None value
        then <["full_solution" := value]> result
        else result
    | None => result
    end in
  let result :=
    if include_solution
       && negb (bool_decide (is_Some (result !! "full_solution")))
       && negb (bool_decide (is_Some (parsed !! "full_solution")))
    then <["full_solution" := no_answer_solution]> result
    else result in
  result.

(** [generate_feedback]; [None] stands for an exception: the one
    [_call_gemini] or [_extract_json] lets through, and the
    [AttributeError] of [parsed.get] on a value that is not a dictionary. *)
Definition generate_feedback (code : string) (issues : list IssueDict)
  (hint_level : Z) (include_complexity include_solution : bool)
  (complexity : option ComplexityDict) : option dict :=
  raw ←
    _call_gemini
      (prompt code issues hint_level include_complexity include_solution);
  parsed ←
    match raw with
    | Some text => if str_bool text then _extract_json text else Some None
    | None => Some None
    end;
  match parsed with
  | Some (JDict parsed) =>
      if negb (json_bool (JDict parsed))
      then
        Some
          (build_fallback_response code issues hint_level include_complexity
             include_solution complexity)
      else
        Some
          (feedback_from_reply parsed issues hint_level include_complexity
             include_solution)
  | Some parsed =>
      if negb (json_bool parsed)
      then
        Some
          (build_fallback_response code issues hint_level include_complexity
             include_solution complexity)
      else None
  | None =>
      Some
        (build_fallback_response code issues hint_level include_complexity
           include_solution complexity)
  end.

End llm.

(** ** [analyzer.py], from line 63 on *)

(** One round of the loop of [_normalize_clusters]; a cluster that is no
    dictionary has no [get]. *)
Definition normalize_cluster (cluster : json) : option json :=
  match cluster with
  | JDict items =>
      match items !! "type" with
      | Some (JStr "NameError") =>
          Some (JDict (<["type" := JStr "Potential issue"]> items))
      | _ => Some cluster
      end
  | _ => None
  end.

(** [_normalize_clusters]; [None] stands for the exception raised when
    [clusters] cannot be iterated over or holds something that is no
    dictionary. A string is iterated over by characters and a dictionary by
    keys, neither of which is a dictionary, so of these only the empty ones
    pass. *)
Definition _normalize_clusters (clusters : json) : option json :=
  match clusters with
  | JList items => JList <$> mapM normalize_cluster items
  | JStr s => if str_bool s then None else Some clusters
  | JDict items => if json_bool clusters then None else Some clusters
  | JNull | JBool _ | JInt _ | JFloat _ => None
  end.

(** The response for an empty source, lines 25 to 32. *)
Definition no_code_response : models.AnalyzeResponse :=
  models.mk_AnalyzeResponse
    (JStr "No code provided. Paste Python code first.")
    (JList []) (JList []) JNull
    (JList
       [JStr "Code entry point"; JStr "Begin by writing one valid statement"])
    JNull
    (JList [JStr "Start with small, runnable snippets."]).

Section response.

Variable runtime_builtins : gset string.
Variable get_source_segment : string → ast.location → option string.
Variable ast_parse : string → parse_outcome.
Variable strip : string → string.
Variable fence_group : string → option string.
Variable json_loads : string → loads_outcome.
Variable environ : gmap string string.
Variable int : string → option Z.
Variable prompt : string → list IssueDict → Z → bool → bool → string.
Variable post : string → string → Z → option string.

(** [AnalyzeResponse(...).model_dump()] for the keyword arguments given:
    pydantic checks them against the declared field types and the dump is
    the dictionary of the validated model; [None] stands for its
    [ValidationError]. *)
Variable response_dump : models.AnalyzeResponse → option (gmap string json).

(** Lines 63 to 88 of [analyze_python_code], run with the [source],
    [issues] and [complexity] it holds after line 61: the keyword arguments
    it calls [AnalyzeResponse] with. *)
Definition feedback_response (source : string) (issues : list IssueDict)
  (complexity : option ComplexityDict) (hint_level : Z) (help_mode : string)
  (include_complexity include_solution : bool)
  : option models.AnalyzeResponse :=
  feedback ←
    generate_feedback fence_group strip json_loads environ int prompt post
      source issues hint_level include_complexity
      (include_solution && String.eqb help_mode "guided") complexity;
  let feedback : dict :=
    if String.eqb help_mode "diagnostic"
    then
      delete "key_concepts"
        (delete "best_practices"
           (<["full_solution" := JNull]> (<["hints" := JList []]> feedback)))
    else feedback in
  error_clusters ←
    _normalize_clusters
      (if list_bool issues then JList (json_of_issue <$> issues)
       else default (JList []) (feedback !! "error_clusters"));
  Some
    (models.mk_AnalyzeResponse
       (default (JStr "Analysis completed.") (feedback !! "summary"))
       error_clusters
       (default (JList []) (feedback !! "hints"))
       (default JNull (feedback !! "full_solution"))
       (default (JList []) (feedback !! "key_concepts"))
       (if include_complexity then default JNull (feedback !! "complexity")
        else JNull)
       (default (JList []) (feedback !! "best_practices"))).

(** [analyze_python_code] as a whole. *)
Definition analyze_python_code_response (code : string) (hint_level : Z)
  (help_mode : string) (include_complexity include_solution : bool)
  : option dict :=
  outcome ←
    analyze_python_code runtime_builtins get_source_segment ast_parse strip
      code include_complexity;
  match outcome with
  | NoCodeProvided => response_dump no_code_response
  | Analysed source issues complexity =>
      response ←
        feedback_response source issues complexity hint_level help_mode
          include_complexity include_solution;
      response_dump response
  end.

(** ** [main.py]: the allowed origins and the [/api/analyze] endpoint *)

(** [s.split(c)] for a one-character separator. *)
Fixpoint split (c : ascii) (s : string) : list string :=
  match s with
  | EmptyString => [EmptyString]
  | String d rest =>
      if Ascii.eqb d c then EmptyString :: split c rest
      else
        match split c rest with
        | first :: others => String d first :: others
        | [] => [String d EmptyString]
        end
  end.

(** [allow_list], from the value [allowed] of [ALLOWED_ORIGINS]. *)
Definition allow_list (allowed : string) : list string :=
  let allow_list :=
    strip <$> filter (λ origin, str_bool (strip origin) = true)
                (split "," allowed) in
  if list_bool allow_list then allow_list else ["*"].

(** [a or b] for optional integers: [a] unless it is [None] or [0]. *)
Definition or_else (a : option Z) (b : option Z) : option Z :=
  match a with
  | Some n => if Z.eqb n 0 then b else a
  | None => b
  end.

(** [payload.hint_depth or payload.hint_level or 1] *)
Definition requested_hint_level (payload : models.AnalyzeRequest) : Z :=
  match
    or_else (or_else (models.hint_depth payload) (models.hint_level payload))
      (Some 1%Z)
  with
  | Some n => n
  | None => 0%Z
  end.


(** [len] of a string: the number of its code points. *)
Variable len : string → Z.


End response.

(** ** Notions the properties below are stated with *)

(** *** Findings of the undefined-name check

    The name a finding of the undefined-name check is about, read back from
    its [why] text: what stands between ["Variable '"] and
    ["' might not be defined before it is used."]. *)
Definition name_in_why (w : string) : string :=
  substring 10 (String.length w - 10 - 41) w.

Definition reported_name (issue : RuntimeIssue) : string :=
  name_in_why (why issue).

(** The [(name, line)] pair of a finding, and of its dictionary. *)
Definition finding_key (issue : RuntimeIssue) : string * option Z :=
  (reported_name issue, line issue).


(** [_seen] knows the key of every issue reported so far, and no key was
    reported twice. *)
Definition deduplicated (self : UndefinedNameVisitor.t) : Prop :=
  NoDup (map finding_key (UndefinedNameVisitor.issues self)) ∧
  ∀ issue, issue ∈ UndefinedNameVisitor.issues self →
    ∃ l, line issue = Some l ∧
         (reported_name issue, l) ∈ UndefinedNameVisitor._seen self.

(** Every issue of the visitor was built by [_report_undefined] from a name
    node, and the issues are deduplicated. *)
Definition well_reported
  (get_source_segment : string → ast.location → option string)
  (self : UndefinedNameVisitor.t) : Prop :=
  deduplicated self ∧
  Forall
    (λ issue,
       ∃ id loc,
         issue =
         UndefinedNameVisitor.undefined_issue get_source_segment
           (UndefinedNameVisitor.source self) id loc)
    (UndefinedNameVisitor.issues self).

(** The names of the parameters [visit_FunctionDef] defines. *)
Definition parameter_names (a : ast.arguments) : list string :=
  map ast.arg_arg (ast.posonlyargs a ++ ast.args a ++ ast.kwonlyargs a) ++
  from_option (λ x, [ast.arg_arg x]) [] (ast.vararg a) ++
  from_option (λ x, [ast.arg_arg x]) [] (ast.kwarg a).

(** The same parameters without annotations and default values. *)
Definition bare_arg (a : ast.arg) : ast.arg := ast.mk_arg (ast.arg_arg a) None.

Definition bare_arguments (a : ast.arguments) : ast.arguments :=
  ast.mk_arguments (map bare_arg (ast.posonlyargs a))
    (map bare_arg (ast.args a)) (bare_arg <$> ast.vararg a)
    (map bare_arg (ast.kwonlyargs a)) [] (bare_arg <$> ast.kwarg a) [].

(** *** Shape of a parsed tree

    In a tree built by the parser every comparison has as many operators as
    comparators, and at least one. *)
Definition well_formed (n : node) : bool :=
  match n with
  | N_expr (ast.Compare _ ops comparators _) =>
      Nat.eqb (length ops) (length comparators) && negb (Nat.eqb (length ops) 0)
  | _ => true
  end.

Definition parser_shape (tree : ast.py_module) : bool :=
  forallb well_formed (walk.module tree).

(** *** What each matcher of the pattern visitor says about one node *)

Section node_findings.
Import ast.

Variable get_source_segment : string → location → option string.
Variable source : string.

Definition division_finding (n : node) : list RuntimeIssue :=
  match n with
  | N_expr (BinOp _ (Div | FloorDiv | Mod) right_ loc) =>
      if RuntimePatternVisitor._is_constant_zero right_
      then [RuntimePatternVisitor.ZeroDivisionError_issue get_source_segment
              loc source]
      else []
  | _ => []
  end.

Definition loop_finding (n : node) : list RuntimeIssue :=
  match n with
  | N_stmt (For _ (Constant value iter_loc) _ _) =>
      if RuntimePatternVisitor.isinstance_int value
      then [RuntimePatternVisitor.TypeError_issue get_source_segment iter_loc
              source]
      else []
  | _ => []
  end.

Definition comparison_finding (n : node) : list RuntimeIssue :=
  match n with
  | N_expr (Compare _ [Eq] (Constant CNone _ :: _) loc)
  | N_expr (Compare _ [NotEq] (Constant CNone _ :: _) loc) =>
      [RuntimePatternVisitor.BestPractice_issue get_source_segment loc source]
  | _ => []
  end.

Definition node_findings (n : node) : list RuntimeIssue :=
  division_finding n ++ loop_finding n ++ comparison_finding n.

End node_findings.

(** A literal number equal to zero, whatever its numeric type ([bool], [int],
    [float] or [complex]). *)
Definition numeric_zero_literal (e : ast.expr) : bool :=
  match e with
  | ast.Constant value _ =>
      match value with
      | ast.CBool _ | ast.CInt _ | ast.CFloat _ | ast.CComplex _ _ =>
          RuntimePatternVisitor.eq_zero value
      | _ => false
      end
  | _ => false
  end.

(** *** Recursion and loop nesting, read off the tree *)

(** A function definition whose subtree holds a call of a bare name equal to
    the function's own name. *)
Definition self_recursive (n : node) : bool :=
  match n with
  | N_stmt (ast.FunctionDef name _ _ _ _ as f)
  | N_stmt (ast.AsyncFunctionDef name _ _ _ _ as f) =>
      existsb (ComplexityVisitor.is_call_to (Some name)) (walk.stmt f)
  | _ => false
  end.

Definition max_of {A} (f : A → Z) (xs : list A) : Z :=
  fold_right (λ x m, Z.max (f x) m) 0 xs.

(** The largest number of [for]/[while] statements around any point of a
    statement, the statement itself included. *)
Fixpoint loop_nesting (s : ast.stmt) : Z :=
  match s with
  | ast.For _ _ body orelse | ast.While _ body orelse =>
      1 + Z.max (max_of loop_nesting body) (max_of loop_nesting orelse)
  | ast.FunctionDef _ _ body _ _ | ast.AsyncFunctionDef _ _ body _ _
  | ast.ClassDef _ _ _ body _ | ast.With _ body =>
      max_of loop_nesting body
  | ast.AsyncFor _ _ body orelse | ast.If _ body orelse =>
      Z.max (max_of loop_nesting body) (max_of loop_nesting orelse)
  | ast.Try body handlers orelse finalbody =>
      Z.max (max_of loop_nesting body)
        (Z.max (max_of handler_nesting handlers)
           (Z.max (max_of loop_nesting orelse)
              (max_of loop_nesting finalbody)))
  | ast.OtherStmt children => max_of child_nesting children
  | _ => 0
  end
with handler_nesting (h : ast.excepthandler) : Z :=
  match h with
  | ast.ExceptHandler _ _ body => max_of loop_nesting body
  end
with child_nesting (c : ast.child) : Z :=
  match c with
  | ast.ChildExpr _ => 0
  | ast.ChildStmt s => loop_nesting s
  | ast.ChildHandler h => handler_nesting h
  end.

Definition module_loop_nesting (tree : ast.py_module) : Z :=
  match tree with
  | ast.Module_ body => max_of loop_nesting body
  end.

(** ** Reasoning about actions *)

(** [a] run from [self] returns, in a state that satisfies [Q]. *)
Definition wp {S} (a : action S) (Q : S → Prop) (self : S) : Prop :=
  ∃ self', a self = Some self' ∧ Q self'.

(** From a state in [P], [a] returns in a state in [P] that is [R]-related to
    where it started. *)
Definition ensures {S} (P : S → Prop) (R : relation S) (a : action S) : Prop :=
  ∀ self, P self → wp a (λ self', P self' ∧ R self self') self.

(** The pattern visitor's action [a] never raises and appends exactly the
    issues [d source]. *)
Definition emits (a : action RuntimePatternVisitor.t)
  (d : string → list RuntimeIssue) : Prop :=
  ∀ self,
    a self =
    Some (RuntimePatternVisitor.mk (RuntimePatternVisitor.source self)
            (RuntimePatternVisitor.issues self ++
             d (RuntimePatternVisitor.source self))).

(** [a] leaves the state as it found it. *)
Definition neutral {S} (a : action S) : Prop := ∀ self, a self = Some self.

(** The state of the complexity visitor after it went through code whose
    loops nest [d] deep and in which a self-recursive function was seen iff
    [r]. *)
Definition after (self : ComplexityVisitor.t) (d : Z) (r : bool)
  : ComplexityVisitor.t :=
  ComplexityVisitor.mk (ComplexityVisitor.loop_depth self)
    (Z.max (ComplexityVisitor.max_loop_depth self)
       (ComplexityVisitor.loop_depth self + d))
    (ComplexityVisitor.has_nested_data self)
    (ComplexityVisitor.has_recursion self || r)
    (ComplexityVisitor.function_name self).

Definition tracks (a : action ComplexityVisitor.t) (d : Z) (r : bool) : Prop :=
  ∀ self,
    (ComplexityVisitor.loop_depth self ≤
     ComplexityVisitor.max_loop_depth self)%Z →
    a self = Some (after self d r).

(** [a] keeps [P]: from a state in [P] it returns in a state in [P]. *)
Definition preserves {S} (P : S → Prop) (a : action S) : Prop :=
  ∀ self, P self → wp a P self.

(** The scope stack holds [n] frames, and [P] holds. *)
Definition stack_ok (P : UndefinedNameVisitor.t → Prop) (n : nat)
  (self : UndefinedNameVisitor.t) : Prop :=
  length (UndefinedNameVisitor.scopes self) = n ∧ P self.

(** [P] does not look at the scope stack. *)
Definition frame_blind (P : UndefinedNameVisitor.t → Prop) : Prop :=
  ∀ self scopes', P self → P (UndefinedNameVisitor.set_scopes self scopes').

(** What walking an expression may do to the undefined-name visitor: the
    scope stack stays as it is, and every issue added is about a name that
    is neither predeclared nor visible in the stack. *)
Definition reads_only (self self' : UndefinedNameVisitor.t) : Prop :=
  UndefinedNameVisitor.source self' = UndefinedNameVisitor.source self ∧
  UndefinedNameVisitor.scopes self' = UndefinedNameVisitor.scopes self ∧
  UndefinedNameVisitor.builtins self' = UndefinedNameVisitor.builtins self ∧
  ∃ new,
    UndefinedNameVisitor.issues self' =
      (UndefinedNameVisitor.issues self ++ new)%list ∧
    Forall
      (λ issue,
         UndefinedNameVisitor._is_defined self (reported_name issue) = false ∧
         reported_name issue ∉ UndefinedNameVisitor.builtins self)
      new.

(** The names [_define] really adds: it skips the empty string. *)
Definition names_defined (names : list string) : gset string :=
  list_to_set (filter (λ name, UndefinedNameVisitor.truthy name = true) names).

(** The names an assignment target binds. *)
Definition target_names (target : ast.expr) : gset string :=
  _add_target_names target ∅.

(** [a] adds exactly [names] to the top frame and changes nothing else. *)
Definition adds (names : gset string) (a : action UndefinedNameVisitor.t)
  : Prop :=
  ∀ self below top,
    UndefinedNameVisitor.scopes self = (below ++ [top])%list →
    a self =
    Some (UndefinedNameVisitor.set_scopes self (below ++ [top ∪ names])%list).

(** *** What a statement may do to the undefined-name visitor *)

(** The three names [_report_undefined] never reports, next to the
    predeclared ones. *)
Definition constant_names : gset string := {["None"; "True"; "False"]}.

(** [name] is one [_report_undefined] would report in the state [self]. *)
Definition unknown_in (self : UndefinedNameVisitor.t) (name : string) : Prop :=
  (UndefinedNameVisitor._is_defined self name = false) ∧
  (name ∉ UndefinedNameVisitor.builtins self) ∧
  (name ∉ constant_names).

(** The frames under the top one stay as they are and every frame keeps its
    names; findings are only appended, each built by [_report_undefined] from
    a name that was unknown when the step began; [_seen] only gains pairs. *)
Definition grows
  (get_source_segment : string → ast.location → option string)
  (self self' : UndefinedNameVisitor.t) : Prop :=
  UndefinedNameVisitor.source self' = UndefinedNameVisitor.source self ∧
  UndefinedNameVisitor.builtins self' = UndefinedNameVisitor.builtins self ∧
  removelast (UndefinedNameVisitor.scopes self') =
    removelast (UndefinedNameVisitor.scopes self) ∧
  Forall2 (⊆) (UndefinedNameVisitor.scopes self)
    (UndefinedNameVisitor.scopes self') ∧
  UndefinedNameVisitor._seen self ⊆ UndefinedNameVisitor._seen self' ∧
  ∃ new,
    UndefinedNameVisitor.issues self' =
      (UndefinedNameVisitor.issues self ++ new)%list ∧
    Forall
      (λ issue,
         ∃ id loc,
           issue =
           UndefinedNameVisitor.undefined_issue get_source_segment
             (UndefinedNameVisitor.source self) id loc ∧
           unknown_in self id)
      new.

(** The scope stack is not empty. *)
Definition in_scope (self : UndefinedNameVisitor.t) : Prop :=
  UndefinedNameVisitor.scopes self ≠ [].

(** Where the visitor is while it walks the body of a definition or of a
    handler entered from [self]: the frames of [self] are below, untouched,
    and the body's own frame is on top. *)
Definition inside
  (get_source_segment : string → ast.location → option string)
  (self now : UndefinedNameVisitor.t) : Prop :=
  in_scope now ∧
  grows get_source_segment
    (UndefinedNameVisitor.set_scopes self
       (UndefinedNameVisitor.scopes self ++ [∅])%list)
    now.

(** Every pair in [_seen] has its finding. *)
Definition seen_reported (self : UndefinedNameVisitor.t) : Prop :=
  ∀ id l,
    (id, l) ∈ UndefinedNameVisitor._seen self →
    ∃ issue,
      issue ∈ UndefinedNameVisitor.issues self ∧
      finding_key issue = (id, Some l).

(** The reads of names among [nodes] that are unknown in [self]. *)
Definition unknown_read (self : UndefinedNameVisitor.t) (nodes : list node)
  (id : string) (loc : ast.location) : Prop :=
  N_expr (ast.Name id ast.Load loc) ∈ nodes ∧ unknown_in self id.

(** [a] is a walk over [nodes] that reports every unknown name it reads: it
    returns, keeps the scope stack, and afterwards [_seen] holds the pair of
    every unknown read among [nodes]. *)
Definition covers (nodes : list node) (a : action UndefinedNameVisitor.t)
  : Prop :=
  ∀ self,
    seen_reported self →
    ∃ self',
      a self = Some self' ∧
      seen_reported self' ∧
      UndefinedNameVisitor.scopes self' = UndefinedNameVisitor.scopes self ∧
      UndefinedNameVisitor.builtins self' =
        UndefinedNameVisitor.builtins self ∧
      UndefinedNameVisitor._seen self ⊆ UndefinedNameVisitor._seen self' ∧
      ∀ id loc,
        unknown_read self nodes id loc →
        (id, ast.lineno loc) ∈ UndefinedNameVisitor._seen self'.

(** The name an [import] statement binds for one of its aliases, and the one
    a [from ... import] statement binds. *)
Definition import_binding (alias : ast.alias) : string :=
  UndefinedNameVisitor.asname_or (ast.alias_asname alias)
    (UndefinedNameVisitor.before_dot (ast.alias_name alias)).

Definition import_from_binding (alias : ast.alias) : string :=
  UndefinedNameVisitor.asname_or (ast.alias_asname alias)
    (ast.alias_name alias).

(** *** The findings of the static layer

    The type and severity pairs the static layer gives its findings. *)
Definition static_kinds : list (string * string) :=
  [("SyntaxError", "error"); ("Potential issue", "warning");
   ("ZeroDivisionError", "warning"); ("TypeError", "warning");
   ("BestPractice", "info")].

Definition static_kind (d : IssueDict) : Prop :=
  (d_type d, d_severity d) ∈ static_kinds ∧ is_Some (d_line d).

(** The keys of the dictionary [generate_feedback] returns: five always, two
    on request. *)
Definition feedback_keys : list string :=
  ["summary"; "error_clusters"; "hints"; "key_concepts"; "best_practices"].

Definition optional_feedback_keys : list string :=
  ["complexity"; "full_solution"].

(** ** Sample inputs *)

Module examples.
Import ast.

(** A source-segment function that never finds the text. *)
Definition no_segment : string → location → option string := λ _ _, None.

Definition builtins : gset string := {["print"; "len"; "range"]}.

Definition at_line (n : Z) : location := mk_location n 0 None None.

Definition name (id : string) (n : Z) : expr := Name id Load (at_line n).

Definition zero : spec_float := S754_zero false.

(** [@p] / [def f(p): pass] *)
Definition decorated_by_parameter : py_module :=
  Module_
    [FunctionDef "f" (mk_arguments [] [mk_arg "p" None] None [] [] None [])
       [Pass] [name "p" 1] None].

(** [def f(a: b) -> c: pass] *)
Definition annotated : py_module :=
  Module_
    [FunctionDef "f"
       (mk_arguments [] [mk_arg "a" (Some (name "b" 1))] None [] [] None [])
       [Pass] [] (Some (name "c" 1))].

(** [None == x] *)
Definition none_on_the_left : expr :=
  Compare (Constant CNone (at_line 1)) [Eq] [name "x" 1] (at_line 1).

(** [x == None] *)
Definition none_on_the_right : expr :=
  Compare (name "x" 1) [Eq] [Constant CNone (at_line 1)] (at_line 1).

(** [x / 0j] *)
Definition divided_by_complex_zero : expr :=
  BinOp (name "x" 1) Div (Constant (CComplex zero zero) (at_line 1))
    (at_line 1).

(** [for i in 5: pass] *)
Definition loop_over_five : stmt :=
  For (Name "i" Store (at_line 1)) (Constant (CInt 5) (at_line 1)) [Pass] [].

(** [x = x + 1] *)
Definition increment : stmt :=
  Assign [Name "x" Store (at_line 1)]
    (BinOp (name "x" 1) Add (Constant (CInt 1) (at_line 1)) (at_line 1)).

(** [y = x / 0] *)
Definition quotient : py_module :=
  Module_
    [Assign [Name "y" Store (at_line 1)]
       (BinOp (name "x" 1) Div (Constant (CInt 0) (at_line 1)) (at_line 1))].

(** [y] / [print(y)] on line 1, [y] again on line 2 *)
Definition read_thrice : py_module :=
  Module_
    [Expr (name "y" 1);
     Expr (Call (name "print" 1) [name "y" 1] [] (at_line 1));
     Expr (name "y" 2)].

(** [def fact(n): return n * fact(n - 1)] *)
Definition recursive : py_module :=
  Module_
    [FunctionDef "fact"
       (mk_arguments [] [mk_arg "n" None] None [] [] None [])
       [Return
          (Some
             (BinOp (name "n" 1) Mult
                (Call (name "fact" 1)
                   [BinOp (name "n" 1) Sub (Constant (CInt 1) (at_line 1))
                      (at_line 1)]
                   [] (at_line 1))
                (at_line 1)))]
       [] None].

(** [for i in xs:] / [    while c: pass] *)
Definition nested_loops : py_module :=
  Module_
    [For (Name "i" Store (at_line 1)) (name "xs" 1)
       [While (name "c" 2) [Pass] []] []].

(** [[i for i in 5]], a comprehension: the element, then the target and the
    iterable of its generator. *)
Definition comprehension_over_five : py_module :=
  Module_
    [Expr
       (OtherExpr
          [name "i" 1; Name "i" Store (at_line 1);
           Constant (CInt 5) (at_line 1)]
          (at_line 1))].

(** A parser that knows one program. *)
Definition parse (source : string) : parse_outcome :=
  if String.eqb source "y = x / 0" then Parsed quotient
  else Raised (mk_SyntaxError (Some 1) (Some source) "invalid syntax").



Definition strip (s : string) : string := s.

End examples.

(** ** More sample inputs *)

Module samples.
Import ast.

(** A visitor that has already bound [x] at module level. *)
Definition knows_x : UndefinedNameVisitor.t :=
  UndefinedNameVisitor.mk "" [{["x"]}] [] examples.builtins ∅.

(** [x] / [y] *)
Definition reads_x_then_y : list stmt :=
  [Expr (examples.name "x" 1); Expr (examples.name "y" 2)].

(** [def f(p):] / [    q = p] *)
Definition binds_locally : stmt :=
  FunctionDef "f" (mk_arguments [] [mk_arg "p" None] None [] [] None [])
    [Assign [Name "q" Store (examples.at_line 2)] (examples.name "p" 2)]
    [] None.

(** [i + len(j)] *)
Definition sum_of_unknowns : expr :=
  BinOp (examples.name "i" 1) Add
    (Call (examples.name "len" 1) [examples.name "j" 1] [] (examples.at_line 1))
    (examples.at_line 1).

(** [for x in x: x] *)
Definition loop_over_itself : stmt :=
  For (Name "x" Store (examples.at_line 1)) (examples.name "x" 1)
    [Expr (examples.name "x" 1)] [].

(** [import os.path], [import numpy as np] *)
Definition imported : list alias :=
  [mk_alias "os.path" None; mk_alias "numpy" (Some "np")].

(** No markdown fence in any reply. *)
Definition no_fence : string → option string := λ _, None.

(** A JSON parser that knows one text: an object with a summary, one
    cluster of type [NameError], and [null] for the complexity and for the
    solution. *)
Definition reply : gmap string json :=
  <["summary" := JStr "Fine."]>
    (<["error_clusters" :=
         JList [JDict (<["type" := JStr "NameError"]>
                         (<["why" := JStr "x is unknown"]> ∅))]]>
       (<["complexity" := JNull]> (<["full_solution" := JNull]> ∅))).

Definition loads (text : string) : loads_outcome :=
  if String.eqb text "{reply}" then Loaded (JDict reply) else JSONDecodeError.

(** An environment with a key for the tutor, and one without any setting. *)
Definition environ : gmap string string := {["GEMINI_API_KEY" := "secret"]}.


(** [int] on the two defaults of the settings. *)
Definition int (s : string) : option Z :=
  if String.eqb s "20" then Some 20
  else if String.eqb s "20000" then Some 20000
  else None.

(** A prompt that is the code alone. *)
Definition prompt : string → list IssueDict → Z → bool → bool → string :=
  λ code _ _ _ _, code.

(** A tutor that always sends the text above with some chatter around it. *)
Definition tutor : string → string → Z → option string :=
  λ _ _ _, Some "Here you are: {reply} Good luck!".

(** A validation that accepts every response and dumps its seven fields. *)
Definition dump (response : models.AnalyzeResponse)
  : option (gmap string json) :=
  Some
    (<["summary" := models.summary response]>
       (<["error_clusters" := models.error_clusters response]>
          (<["hints" := models.hints response]>
             (<["full_solution" := models.full_solution response]>
                (<["key_concepts" := models.key_concepts response]>
                   (<["complexity" := models.complexity response]>
                      (<["best_practices" :=
                           models.best_practices response]> ∅))))))).

(** What the static layer finds in [y = x / 0], and its complexity. *)
Definition found : list IssueDict :=
  [mk_IssueDict "Potential issue" (Some 1) None
     "Variable 'x' might not be defined before it is used." "warning";
   mk_IssueDict "ZeroDivisionError" (Some 1) None
     "This expression can divide by zero." "warning"].

Definition linear : ComplexityDict :=
  mk_ComplexityDict "Roughly O(n)" "O(1) to O(n) typical for this file".

(** A parser that reads every text as [pass]. *)
Definition parse_pass (source : string) : parse_outcome :=
  Parsed (Module_ [Pass]).

(** A request for the deepest hints on [y = x / 0]. *)
Definition request : models.AnalyzeRequest :=
  models.mk_AnalyzeRequest "y = x / 0" "guided" (Some 3%Z) (Some 1%Z) true
    true.

(** [for i in xs:] / [    for j in ys: pass], and [while c: pass] *)
Definition two_deep : stmt :=
  For (Name "i" Store (examples.at_line 1)) (examples.name "xs" 1)
    [For (Name "j" Store (examples.at_line 2)) (examples.name "ys" 2)
       [Pass] []]
    [].

Definition one_deep : stmt := While (examples.name "c" 3) [Pass] [].

(** [x / 0] and [x == None] as statements. *)
Definition divides : stmt :=
  Expr (BinOp (examples.name "x" 1) Div (Constant (CInt 0) (examples.at_line 1))
          (examples.at_line 1)).

Definition compares : stmt := Expr examples.none_on_the_right.

End samples.

(** ** Lemmas on actions *)

Open Scope list_scope.
Open Scope Z_scope.

Section action_lemmas.
Context {S : Type}.
Implicit Types (a b : action S) (Q : S → Prop).

Lemma seq_Some a b self self'' :
  (a;; b) self = Some self'' ↔
  ∃ self', a self = Some self' ∧ b self' = Some self''.
Proof.
  unfold seq. destruct (a self) as [self'|]; simpl.
  - split; [eauto | by intros (? & [= ->] & ?)].
  - split; [done | by intros (? & ? & ?)].
Qed.

Lemma seq_step a b self self' :
  a self = Some self' → (a;; b) self = b self'.
Proof. unfold seq. by intros ->. Qed.

Lemma wp_skip Q self : Q self → wp skip Q self.
Proof. intros. by exists self. Qed.

Lemma wp_seq a b Q self : wp a (wp b Q) self → wp (a;; b) Q self.
Proof.
  intros (self' & Ha & self'' & Hb & HQ). exists self''. split; [|done].
  apply seq_Some. eauto.
Qed.

Lemma wp_mono a Q Q' self :
  wp a Q self → (∀ self', Q self' → Q' self') → wp a Q' self.
Proof. intros (self' & ? & ?) HQ. exists self'. auto. Qed.

Lemma wp_for_each {A} (f : A → action S) (I : S → Prop) xs self :
  I self →
  Forall (λ x, ∀ self, I self → wp (f x) I self) xs →
  wp (for_each f xs) I self.
Proof.
  intros HI Hxs. revert self HI.
  induction Hxs as [|x xs Hx _ IH]; intros self HI; simpl.
  - by apply wp_skip.
  - apply wp_seq. eapply wp_mono; [by apply Hx|]. apply IH.
Qed.

Lemma wp_if_some {A} (f : A → action S) Q (x : option A) self :
  Q self → (∀ y, x = Some y → wp (f y) Q self) → wp (if_some f x) Q self.
Proof. destruct x; simpl; intros; [auto | by apply wp_skip]. Qed.

Section ensures.
Context (P : S → Prop) (R : relation S) `{!PreOrder R}.

Lemma ensures_skip : ensures P R skip.
Proof. intros self ?. apply wp_skip. split; [done | reflexivity]. Qed.

Lemma ensures_seq a b : ensures P R a → ensures P R b → ensures P R (a;; b).
Proof.
  intros Ha Hb self HP. apply wp_seq.
  eapply wp_mono; [by apply Ha|]. intros self' [HP' HR].
  eapply wp_mono; [by apply Hb|]. intros self'' [HP'' HR'].
  split; [done | by etrans].
Qed.

Lemma ensures_for_each {A} (f : A → action S) xs :
  Forall (λ x, ensures P R (f x)) xs → ensures P R (for_each f xs).
Proof.
  induction 1; simpl; [apply ensures_skip | by apply ensures_seq].
Qed.

Lemma ensures_if_some {A} (f : A → action S) (x : option A) :
  (∀ y, x = Some y → ensures P R (f y)) → ensures P R (if_some f x).
Proof. destruct x; simpl; [auto | intros; apply ensures_skip]. Qed.

End ensures.
End action_lemmas.

(** The induction hypotheses the generated principles hand out for a list or
    an optional child. *)
Lemma list_all_Forall {A} (P : A → Prop) xs : list_all A P xs → Forall P xs.
Proof. induction 1; by constructor. Qed.

Lemma option_all_Some {A} (P : A → Prop) x y :
  option_all A P x → x = Some y → P y.
Proof. by intros [|] [= ->]. Qed.

Lemma bind_bind {A B C} (f : A → list B) (g : B → list C) (xs : list A) :
  (xs ≫= f) ≫= g = xs ≫= (λ x, f x ≫= g).
Proof.
  induction xs as [|x xs IH]; [done|].
  by rewrite !bind_cons, bind_app, IH.
Qed.

Lemma forallb_Forall {A} (f : A → bool) xs :
  forallb f xs = true ↔ Forall (λ x, f x = true) xs.
Proof.
  rewrite forallb_forall, Forall_forall. by setoid_rewrite list_elem_of_In.
Qed.

Lemma preserves_skip {S} (P : S → Prop) : preserves P skip.
Proof. intros self ?. by apply wp_skip. Qed.

Lemma preserves_seq {S} (P : S → Prop) a b :
  preserves P a → preserves P b → preserves P (a;; b).
Proof.
  intros Ha Hb self HP. apply wp_seq. eapply wp_mono; [by apply Ha|].
  apply Hb.
Qed.

Lemma preserves_for_each {S A} (P : S → Prop) (f : A → action S) xs :
  Forall (λ x, preserves P (f x)) xs → preserves P (for_each f xs).
Proof. intros Hxs self HP. by apply wp_for_each. Qed.

Lemma preserves_if_some {S A} (P : S → Prop) (f : A → action S) x :
  (∀ y, preserves P (f y)) → preserves P (if_some f x).
Proof. destruct x; simpl; [auto | intros; apply preserves_skip]. Qed.

Lemma wp_then {S} (P Q : S → Prop) a b self :
  preserves P a → P self → (∀ self', P self' → wp b Q self') →
  wp (a;; b) Q self.
Proof.
  intros Ha HP Hb. apply wp_seq. eapply wp_mono; [by apply Ha|]. apply Hb.
Qed.

Lemma length_removelast {A} (xs : list A) :
  length (removelast xs) = pred (length xs).
Proof.
  induction xs as [|x [|y xs] IH]; [done..|].
  change (S (length (removelast (y :: xs))) = S (length xs)). by rewrite IH.
Qed.

Lemma Forall_all {A} (P : A → Prop) xs : (∀ x, P x) → Forall P xs.
Proof. intros. by apply Forall_forall. Qed.



(** ** The pattern visitor, node by node *)

Section pattern_lemmas.
Import ast RuntimePatternVisitor.

Variable get_source_segment : string → location → option string.

Abbreviation findings := (node_findings get_source_segment).
Abbreviation wf_nodes := (Forall (λ n, well_formed n = true)).

Lemma emits_ext a d d' : emits a d → (∀ src, d src = d' src) → emits a d'.
Proof. intros Ha Hd self. by rewrite Ha, Hd. Qed.

Lemma emits_skip : emits skip (λ _, []).
Proof. intros [src iss]; simpl. by rewrite app_nil_r. Qed.

Lemma emits_seq a b d1 d2 :
  emits a d1 → emits b d2 → emits (a;; b) (λ src, d1 src ++ d2 src).
Proof.
  intros Ha Hb self. unfold seq. rewrite Ha; simpl. rewrite Hb; simpl.
  by rewrite app_assoc.
Qed.

Lemma emits_for_each {A} (f : A → action t) d xs :
  Forall (λ x, emits (f x) (d x)) xs →
  emits (for_each f xs) (λ src, xs ≫= λ x, d x src).
Proof.
  induction 1 as [|x xs Hx _ IH]; simpl; [apply emits_skip|].
  eapply emits_ext; [by apply emits_seq|]. done.
Qed.

Lemma emits_if_some {A} (f : A → action t) d (x : option A) :
  (∀ y, x = Some y → emits (f y) (d y)) →
  emits (if_some f x) (λ src, from_option (λ y, d y src) [] x).
Proof. destruct x; simpl; [auto | intros; apply emits_skip]. Qed.

Lemma emits_append issue : emits (append issue) (λ src, [issue src]).
Proof. by intros self. Qed.

Lemma Forall_mp {A} (P Q : A → Prop) xs :
  Forall (λ x, P x → Q x) xs → Forall P xs → Forall Q xs.
Proof. rewrite !Forall_forall. eauto. Qed.

Lemma opt_bind {A B} (w : A → list node) (g : node → list B) (x : option A) :
  walk.opt w x ≫= g = from_option (λ y, w y ≫= g) [] x.
Proof. by destruct x. Qed.

(** Brings the induction hypotheses of a node's children into the form the
    combinator lemmas consume. *)
Ltac use_children :=
  repeat match goal with
  | H : _ ∧ _ |- _ => destruct H
  | H : list_all _ _ _ |- _ => apply list_all_Forall in H
  | H : Forall (λ x, _ → _) ?xs, Hw : Forall _ ?xs |- _ =>
      apply (λ H, Forall_mp _ _ _ H Hw) in H
  | H : option_all _ _ _ |- _ =>
      pose proof (option_all_Some _ _ _ H) as ?H; clear H
  | H : ?P → emits _ _, Hw : ?P |- _ => specialize (H Hw)
  end.

Ltac emits_steps :=
  repeat first
    [ eassumption
    | match goal with H : Forall _ ?xs |- Forall _ ?xs => refine H end
    | apply emits_skip
    | apply emits_append
    | apply emits_seq
    | apply emits_for_each
    | apply emits_if_some ].

Ltac emits_by_parts :=
  eapply emits_ext;
  [ emits_steps
  | intros src; cbn beta;
    rewrite ?bind_cons, ?bind_app, ?bind_bind, ?opt_bind;
    cbn [node_findings division_finding loop_finding comparison_finding app];
    rewrite ?app_nil_r, <- ?app_assoc;
    try done ].

Lemma emits_Some d :
  (∀ src, d src = []) → emits Some d.
Proof. intros Hd [src iss]; simpl. by rewrite Hd, app_nil_r. Qed.

Lemma compare_check_emits left_ ops comparators loc visit :
  well_formed (N_expr (Compare left_ ops comparators loc)) = true →
  ∃ check,
    visit_Compare get_source_segment visit left_ ops comparators loc =
    (check;; visit left_;; for_each visit comparators) ∧
    emits check
      (λ src, comparison_finding get_source_segment src
                (N_expr (Compare left_ ops comparators loc))).
Proof.
  intros Hn. unfold visit_Compare. eexists. split; [done|].
  destruct ops as [|op [|]]; try destruct op; try by apply emits_Some.
  all: destruct comparators as [|comp_rhs rest]; [done|].
  all: destruct comp_rhs as [| | | | | | |[] ?| | | | | | |];
    by (apply emits_Some || apply emits_append).
Qed.

Lemma visit_expr_emits e :
  wf_nodes (walk.expr e) →
  emits (visit_expr get_source_segment e) (λ src, walk.expr e ≫= findings src).
Proof.
  induction e using expr_keyword_ind with
    (P0 := λ k, wf_nodes (walk.keyword k) →
                emits (visit_keyword get_source_segment k)
                  (λ src, walk.keyword k ≫= findings src)).
  all: simpl walk.expr; simpl walk.keyword; intros Hwf.
  all: apply Forall_cons in Hwf as [Hn Hwf].
  all: rewrite ?Forall_app, ?Forall_bind in Hwf.
  all: use_children.
  all: try (timeout 5 (simpl visit_expr; simpl visit_keyword;
                      emits_by_parts; fail)).
  - unfold visit_expr; fold (visit_expr get_source_segment).
    unfold visit_BinOp.
    destruct op; try destruct (_is_constant_zero e2) eqn:Hz.
    all: eapply emits_ext; [emits_steps|].
    all: intros src; cbn beta; rewrite bind_cons, bind_app.
    all: unfold node_findings, division_finding; rewrite ?Hz; done.
  - unfold visit_expr; fold (visit_expr get_source_segment).
    destruct (compare_check_emits e ops comparators loc
                (visit_expr get_source_segment) Hn) as (check & -> & Hcheck).
    eapply emits_ext; [emits_steps|].
    intros src; cbn beta. rewrite bind_cons, bind_app, bind_bind.
    unfold node_findings, division_finding, loop_finding. done.
Qed.

Lemma visit_keyword_emits k :
  wf_nodes (walk.keyword k) →
  emits (visit_keyword get_source_segment k)
    (λ src, walk.keyword k ≫= findings src).
Proof.
  destruct k as [? value]. simpl. intros [_ Hwf]%Forall_cons.
  by apply visit_expr_emits in Hwf.
Qed.

Lemma for_each_expr_emits es :
  Forall (wf_nodes ∘ walk.expr) es →
  Forall (λ e, emits (visit_expr get_source_segment e)
                 (λ src, walk.expr e ≫= findings src)) es.
Proof.
  intros H. eapply Forall_impl; [done|]. intros e. apply visit_expr_emits.
Qed.

Lemma for_each_keyword_emits ks :
  Forall (wf_nodes ∘ walk.keyword) ks →
  Forall (λ k, emits (visit_keyword get_source_segment k)
                 (λ src, walk.keyword k ≫= findings src)) ks.
Proof.
  intros H. eapply Forall_impl; [done|]. intros k. apply visit_keyword_emits.
Qed.

Lemma if_some_expr_emits (x : option expr) :
  wf_nodes (walk.opt walk.expr x) →
  emits (if_some (visit_expr get_source_segment) x)
    (λ src, walk.opt walk.expr x ≫= findings src).
Proof.
  destruct x; simpl; [apply visit_expr_emits | intros; apply emits_skip].
Qed.

Lemma visit_arg_emits a :
  wf_nodes (walk.arg a) →
  emits (visit_arg get_source_segment a) (λ src, walk.arg a ≫= findings src).
Proof.
  unfold walk.arg, visit_arg. intros [_ Hwf]%Forall_cons.
  apply if_some_expr_emits in Hwf. emits_by_parts.
Qed.

Lemma for_each_arg_emits xs :
  Forall (wf_nodes ∘ walk.arg) xs →
  Forall (λ a, emits (visit_arg get_source_segment a)
                 (λ src, walk.arg a ≫= findings src)) xs.
Proof.
  intros H. eapply Forall_impl; [done|]. intros a. apply visit_arg_emits.
Qed.

Lemma if_some_arg_emits (x : option arg) :
  wf_nodes (walk.opt walk.arg x) →
  emits (if_some (visit_arg get_source_segment) x)
    (λ src, walk.opt walk.arg x ≫= findings src).
Proof.
  destruct x; simpl; [apply visit_arg_emits | intros; apply emits_skip].
Qed.

Lemma visit_arguments_emits a :
  wf_nodes (walk.arguments a) →
  emits (visit_arguments get_source_segment a)
    (λ src, walk.arguments a ≫= findings src).
Proof.
  unfold walk.arguments, visit_arguments. intros [_ Hwf]%Forall_cons.
  rewrite ?Forall_app, ?Forall_bind in Hwf.
  destruct Hwf as (H1 & H2 & H3 & H4 & H5 & H6 & H7).
  apply for_each_arg_emits in H1, H2, H4. apply for_each_expr_emits in H7.
  apply if_some_arg_emits in H3, H6.
  assert (Forall (λ d, emits (if_some (visit_expr get_source_segment) d)
                         (λ src, walk.opt walk.expr d ≫= findings src))
            (kw_defaults a)) as H5'.
  { eapply Forall_impl; [exact H5|]. intros d Hd.
    by apply if_some_expr_emits. }
  emits_by_parts.
Qed.

Lemma visit_withitem_emits w :
  wf_nodes (walk.withitem w) →
  emits (visit_withitem get_source_segment w)
    (λ src, walk.withitem w ≫= findings src).
Proof.
  unfold walk.withitem, visit_withitem. intros [_ Hwf]%Forall_cons.
  rewrite Forall_app in Hwf. destruct Hwf as [H1 H2].
  apply visit_expr_emits in H1. apply if_some_expr_emits in H2.
  emits_by_parts.
Qed.

Lemma for_each_withitem_emits xs :
  Forall (wf_nodes ∘ walk.withitem) xs →
  Forall (λ w, emits (visit_withitem get_source_segment w)
                 (λ src, walk.withitem w ≫= findings src)) xs.
Proof.
  intros H. eapply Forall_impl; [done|]. intros w. apply visit_withitem_emits.
Qed.

Lemma alias_findings names src : map N_alias names ≫= findings src = [].
Proof.
  induction names as [|a names IH]; [done|].
  change (findings src (N_alias a) ++ (map N_alias names ≫= findings src)
          = []).
  by rewrite IH.
Qed.

Ltac use_expr_children :=
  repeat match goal with
  | H : wf_nodes (walk.expr _) |- _ => apply visit_expr_emits in H
  | H : wf_nodes (walk.arguments _) |- _ => apply visit_arguments_emits in H
  | H : wf_nodes (walk.opt walk.expr _) |- _ => apply if_some_expr_emits in H
  | H : Forall (wf_nodes ∘ walk.expr) _ |- _ => apply for_each_expr_emits in H
  | H : Forall (wf_nodes ∘ walk.keyword) _ |- _ =>
      apply for_each_keyword_emits in H
  | H : Forall (wf_nodes ∘ walk.withitem) _ |- _ =>
      apply for_each_withitem_emits in H
  end.

Lemma visit_stmt_emits s :
  wf_nodes (walk.stmt s) →
  emits (visit_stmt get_source_segment s) (λ src, walk.stmt s ≫= findings src).
Proof.
  induction s using stmt_handler_ind with
    (P0 := λ h, wf_nodes (walk.excepthandler h) →
                emits (visit_excepthandler get_source_segment h)
                  (λ src, walk.excepthandler h ≫= findings src))
    (P1 := λ c, wf_nodes (walk.child c) →
                emits (visit_child get_source_segment c)
                  (λ src, walk.child c ≫= findings src)).
  all: try match goal with
       | |- Forall _ (walk.child _) → _ =>
           simpl; solve [auto using visit_expr_emits]
       end.
  all: cbn [walk.stmt walk.excepthandler]; intros Hwf.
  all: apply Forall_cons in Hwf as [Hn Hwf].
  all: rewrite ?Forall_app, ?Forall_bind in Hwf.
  all: use_children; use_expr_children.
  all: try (timeout 5 (cbn [visit_stmt visit_excepthandler];
                       emits_by_parts; fail)).
  - cbn [visit_stmt]. unfold visit_For.
    assert (emits
              match iter with
              | Constant value _ =>
                  if isinstance_int value
                  then append (TypeError_issue get_source_segment
                                 (expr_loc iter))
                  else skip
              | _ => skip
              end
              (λ src, loop_finding get_source_segment src
                        (N_stmt (For target iter body orelse)))) as Hcheck.
    { destruct iter as [| | | | | | |value ?| | | | | | |];
        try by apply emits_Some.
      simpl. destruct (isinstance_int value);
        by (apply emits_Some || apply emits_append). }
    eapply emits_ext; [emits_steps|].
    intros src; cbn beta. rewrite bind_cons, !bind_app, !bind_bind.
    unfold node_findings, division_finding, comparison_finding.
    by rewrite app_nil_r, <- !app_assoc.
  - apply emits_Some. intros src. by rewrite bind_cons, alias_findings.
  - apply emits_Some. intros src. by rewrite bind_cons, alias_findings.
Qed.

Lemma visit_emits tree :
  parser_shape tree = true →
  emits (visit get_source_segment tree)
    (λ src, walk.module tree ≫= findings src).
Proof.
  unfold parser_shape. rewrite forallb_Forall. destruct tree as [body].
  simpl. intros [_ Hwf]%Forall_cons. rewrite Forall_bind in Hwf.
  eapply emits_ext.
  - apply emits_for_each. eapply Forall_impl; [exact Hwf|].
    intros s. apply visit_stmt_emits.
  - intros src; cbn beta. by rewrite bind_bind.
Qed.

(** On a parsed tree the visitor returns, and its issues are the findings of
    the nodes in document order. *)
Lemma visit_findings tree src :
  parser_shape tree = true →
  ∃ checker,
    visit get_source_segment tree (__init__ src) = Some checker ∧
    source checker = src ∧
    issues checker = walk.module tree ≫= node_findings get_source_segment src.
Proof.
  intros Hshape. eexists. split; [by apply visit_emits|]. by split.
Qed.

Lemma finding_reported tree src checker n finding :
  issues checker = walk.module tree ≫= node_findings get_source_segment src →
  n ∈ walk.module tree →
  node_findings get_source_segment src n = [finding] →
  finding ∈ issues checker.
Proof.
  intros -> Hn Hf. apply list_elem_of_bind. exists n. split; [|done].
  rewrite Hf. apply list_elem_of_here.
Qed.



End pattern_lemmas.

(** ** The complexity visitor against the shape of the tree *)

Section complexity_lemmas.
Import ast ComplexityVisitor.

Lemma neutral_skip {S} : neutral (@skip S).
Proof. done. Qed.

Lemma neutral_seq {S} (a b : action S) :
  neutral a → neutral b → neutral (a;; b).
Proof. intros Ha Hb self. unfold seq. by rewrite Ha; simpl. Qed.

Lemma neutral_for_each {S A} (f : A → action S) xs :
  Forall (λ x, neutral (f x)) xs → neutral (for_each f xs).
Proof. induction 1; simpl; [apply neutral_skip | by apply neutral_seq]. Qed.

Lemma neutral_if_some {S A} (f : A → action S) (x : option A) :
  (∀ y, neutral (f y)) → neutral (if_some f x).
Proof. destruct x; simpl; [auto | intros; apply neutral_skip]. Qed.

Lemma visit_expr_neutral e : neutral (visit_expr e).
Proof.
  induction e using expr_keyword_ind with
    (P0 := λ k, neutral (visit_keyword k)).
  all: repeat match goal with
       | H : list_all _ _ _ |- _ => apply list_all_Forall in H
       end.
  all: simpl;
    repeat first [ assumption | apply neutral_skip | apply neutral_seq
                 | apply neutral_for_each ].
Qed.

Lemma visit_keyword_neutral k : neutral (visit_keyword k).
Proof. destruct k. apply visit_expr_neutral. Qed.

Lemma visit_arg_neutral a : neutral (visit_arg a).
Proof. apply neutral_if_some, visit_expr_neutral. Qed.

Lemma visit_arguments_neutral a : neutral (visit_arguments a).
Proof.
  unfold visit_arguments.
  repeat first
    [ apply neutral_seq
    | apply neutral_for_each, Forall_all; intros ?
    | apply neutral_if_some
    | apply visit_arg_neutral
    | apply visit_expr_neutral ].
Qed.

Lemma visit_withitem_neutral w : neutral (visit_withitem w).
Proof.
  apply neutral_seq; [|apply neutral_if_some]; apply visit_expr_neutral.
Qed.

Lemma max_of_nonneg {A} (f : A → Z) xs : 0 ≤ max_of f xs.
Proof. induction xs; simpl; lia. Qed.

Lemma tracks_ext a d r d' r' : tracks a d r → d = d' → r = r' → tracks a d' r'.
Proof. by intros ? <- <-. Qed.

Lemma tracks_neutral a : neutral a → tracks a 0 false.
Proof.
  intros Ha [ld m nd h fn] Hle; simpl in *. rewrite Ha. unfold after; simpl.
  do 2 f_equal; [lia | by rewrite orb_false_r].
Qed.

Lemma tracks_seq a b d1 r1 d2 r2 :
  tracks a d1 r1 → tracks b d2 r2 → tracks (a;; b) (Z.max d1 d2) (r1 || r2).
Proof.
  intros Ha Hb [ld m nd h fn] Hle; simpl in *. unfold seq.
  rewrite Ha by done; simpl. rewrite Hb by (simpl; lia).
  unfold after; simpl. do 2 f_equal; [lia | by rewrite orb_assoc].
Qed.

Lemma tracks_for_each {A} (f : A → action t) d r xs :
  Forall (λ x, tracks (f x) (d x) (r x)) xs →
  tracks (for_each f xs) (max_of d xs) (existsb r xs).
Proof.
  induction 1; simpl; [apply tracks_neutral, neutral_skip|].
  by apply tracks_seq.
Qed.

Lemma _check_recursion_spec nodes self :
  _check_recursion nodes self =
  Some (mk (loop_depth self) (max_loop_depth self) (has_nested_data self)
          (has_recursion self ||
           existsb (is_call_to (function_name self)) nodes)
          (function_name self)).
Proof.
  unfold _check_recursion. generalize (eq_refl (function_name self)).
  generalize (function_name self) at 1 3 4 as fn.
  intros fn Hfn. revert self Hfn.
  induction nodes as [|n nodes IH]; intros [ld m nd h fn'] Hfn; simpl in *.
  - by rewrite orb_false_r.
  - unfold seq. destruct (is_call_to fn n); simpl.
    + rewrite IH by done. simpl. by rewrite orb_true_r.
    + rewrite IH by done. done.
Qed.

Lemma existsb_bind {A B} (f : B → bool) (g : A → list B) xs :
  existsb f (xs ≫= g) = existsb (λ x, existsb f (g x)) xs.
Proof.
  induction xs as [|x xs IH]; [done|].
  rewrite bind_cons, existsb_app, IH. done.
Qed.

Lemma existsb_never {A} (f : A → bool) xs :
  Forall (λ x, f x = false) xs → existsb f xs = false.
Proof. induction 1 as [|x xs Hx _ IH]; simpl; [done | by rewrite Hx, IH]. Qed.

Lemma existsb_opt {A} (f : node → bool) (w : A → list node) x :
  (∀ y, existsb f (w y) = false) → existsb f (walk.opt w x) = false.
Proof. destruct x; simpl; auto. Qed.

(** No statement sits below an expression. *)
Lemma no_function_in_expr e : existsb self_recursive (walk.expr e) = false.
Proof.
  induction e using expr_keyword_ind with
    (P0 := λ k, existsb self_recursive (walk.keyword k) = false).
  all: repeat match goal with
       | H : list_all _ _ _ |- _ => apply list_all_Forall, existsb_never in H
       end.
  all: cbn [walk.expr walk.keyword existsb self_recursive].
  all: rewrite ?existsb_app, ?existsb_bind.
  all: repeat match goal with H : _ = false |- _ => rewrite H; clear H end.
  all: done.
Qed.

Lemma no_function_in_keyword k :
  existsb self_recursive (walk.keyword k) = false.
Proof. destruct k. apply no_function_in_expr. Qed.

Lemma no_function_in_arg a : existsb self_recursive (walk.arg a) = false.
Proof. apply existsb_opt, no_function_in_expr. Qed.

Lemma no_function_in_arguments a :
  existsb self_recursive (walk.arguments a) = false.
Proof.
  unfold walk.arguments. cbn [existsb self_recursive].
  rewrite ?existsb_app, ?existsb_bind.
  rewrite !(existsb_never (λ x, existsb _ (walk.arg x)))
    by apply Forall_all, no_function_in_arg.
  rewrite !(existsb_never (λ x, existsb _ (walk.expr x)))
    by apply Forall_all, no_function_in_expr.
  rewrite !(existsb_never (λ x, existsb _ (walk.opt walk.expr x)))
    by (apply Forall_all; intros; apply existsb_opt, no_function_in_expr).
  by rewrite !(existsb_opt _ walk.arg) by apply no_function_in_arg.
Qed.

Lemma no_function_in_withitem w :
  existsb self_recursive (walk.withitem w) = false.
Proof.
  unfold walk.withitem. cbn [existsb self_recursive].
  rewrite existsb_app, no_function_in_expr.
  by rewrite existsb_opt by apply no_function_in_expr.
Qed.

Lemma no_function_in_aliases names :
  existsb self_recursive (map N_alias names) = false.
Proof. by induction names. Qed.

Ltac neutral_steps :=
  repeat first
    [ apply neutral_skip
    | apply neutral_seq
    | apply neutral_for_each, Forall_all; intros ?
    | apply neutral_if_some; intros ?
    | apply visit_expr_neutral
    | apply visit_keyword_neutral
    | apply visit_arguments_neutral
    | apply visit_withitem_neutral ].

Ltac tracks_steps :=
  repeat first
    [ eassumption
    | match goal with H : Forall _ ?xs |- Forall _ ?xs => refine H end
    | apply tracks_neutral; solve [neutral_steps]
    | apply tracks_seq
    | apply tracks_for_each ].

Ltac no_functions :=
  rewrite ?existsb_app, ?existsb_bind;
  rewrite ?(existsb_never (λ x, existsb self_recursive (walk.expr x)))
    by apply Forall_all, no_function_in_expr;
  rewrite ?(existsb_never (λ x, existsb self_recursive (walk.keyword x)))
    by apply Forall_all, no_function_in_keyword;
  rewrite ?(existsb_never (λ x, existsb self_recursive (walk.withitem x)))
    by apply Forall_all, no_function_in_withitem;
  rewrite ?no_function_in_expr, ?no_function_in_arguments,
    ?no_function_in_aliases;
  rewrite ?(existsb_opt self_recursive walk.expr) by apply no_function_in_expr;
  rewrite ?orb_false_r; cbn [orb].

Ltac nonneg_facts :=
  repeat match goal with
  | |- context [max_of ?f ?xs] =>
      lazymatch goal with
      | H : 0 ≤ max_of f xs |- _ => fail
      | _ => pose proof (max_of_nonneg f xs)
      end
  end.

Lemma visit_loop_tracks g d r :
  0 ≤ d → tracks g d r → tracks (visit_loop g) (1 + d) r.
Proof.
  intros Hd Hg [ld m nd h fn] Hle; simpl in *.
  unfold visit_loop, seq; simpl. rewrite Hg by (simpl; lia).
  unfold after, set_loop_depth; simpl. do 2 f_equal; lia.
Qed.

Lemma visit_FunctionDef_tracks visit walk_node name args body decorator_list
    returns d r :
  0 ≤ d →
  tracks (for_each visit body) d r →
  tracks
    (visit_FunctionDef visit walk_node name args body decorator_list returns)
    d (existsb (is_call_to (Some name)) walk_node || r).
Proof.
  intros Hd Hbody.
  assert (tracks (visit_arguments args;; for_each visit body;;
                  for_each visit_expr decorator_list;;
                  if_some visit_expr returns) d r) as Hgen.
  { eapply tracks_ext; [tracks_steps| |].
    - lia.
    - by rewrite orb_false_r. }
  intros [ld m nd h fn] Hle; simpl in *. unfold visit_FunctionDef.
  erewrite seq_step by done.
  erewrite seq_step by apply _check_recursion_spec.
  erewrite seq_step by by apply Hgen.
  unfold after; simpl. by rewrite orb_assoc.
Qed.

Lemma visit_stmt_tracks s :
  tracks (visit_stmt s) (loop_nesting s)
    (existsb self_recursive (walk.stmt s)).
Proof.
  induction s using stmt_handler_ind with
    (P0 := λ h, tracks (visit_excepthandler h) (handler_nesting h)
                  (existsb self_recursive (walk.excepthandler h)))
    (P1 := λ c, tracks (visit_child c) (child_nesting c)
                  (existsb self_recursive (walk.child c))).
  all: repeat match goal with
       | H : list_all _ _ _ |- _ => apply list_all_Forall in H
       end.
  all: try match goal with
       | |- tracks (visit_child (ChildExpr ?e)) _ _ =>
           simpl; eapply tracks_ext;
           [ apply tracks_neutral, visit_expr_neutral
           | done
           | by rewrite no_function_in_expr ]
       | |- tracks (visit_child _) _ _ => assumption
       end.
  all: try (timeout 10
         (cbn [visit_stmt visit_excepthandler];
          eapply tracks_ext; [tracks_steps| |];
          [ cbn [loop_nesting handler_nesting]; nonneg_facts; lia
          | cbn [walk.stmt walk.excepthandler existsb self_recursive];
            no_functions; done ])).
  - cbn [visit_stmt]. eapply tracks_ext.
    + apply visit_FunctionDef_tracks; [|solve [tracks_steps]].
      apply max_of_nonneg.
    + done.
    + cbn [walk.stmt existsb self_recursive]. no_functions. done.
  - cbn [visit_stmt]. eapply tracks_ext.
    + apply visit_FunctionDef_tracks; [|solve [tracks_steps]].
      apply max_of_nonneg.
    + done.
    + cbn [walk.stmt existsb self_recursive]. no_functions. done.
  - cbn [visit_stmt]. eapply tracks_ext.
    + apply visit_loop_tracks; [|solve [tracks_steps]].
      nonneg_facts. lia.
    + cbn [loop_nesting]. nonneg_facts. lia.
    + cbn [walk.stmt existsb self_recursive]. no_functions. done.
  - cbn [visit_stmt]. eapply tracks_ext.
    + apply visit_loop_tracks; [|solve [tracks_steps]].
      nonneg_facts. lia.
    + cbn [loop_nesting]. nonneg_facts. lia.
    + cbn [walk.stmt existsb self_recursive]. no_functions. done.
Qed.

Lemma visit_tracks tree :
  tracks (visit tree) (module_loop_nesting tree)
    (existsb self_recursive (walk.module tree)).
Proof.
  destruct tree as [body]. simpl. eapply tracks_ext.
  - apply tracks_for_each, Forall_all, visit_stmt_tracks.
  - done.
  - by rewrite existsb_bind.
Qed.

End complexity_lemmas.

(** ** The undefined-name visitor: stack shape and deduplication *)

Section undefined_lemmas.
Import ast UndefinedNameVisitor.

Variable get_source_segment : string → location → option string.

Abbreviation issue_of := (undefined_issue get_source_segment).

Lemma substring_prefix (s t : string) :
  substring 0 (String.length s) (s ++ t)%string = s.
Proof. induction s as [|c s IH]; simpl; [by destruct t | by rewrite IH]. Qed.

Lemma length_append (s t : string) :
  String.length (s ++ t)%string = (String.length s + String.length t)%nat.
Proof. induction s as [|c s IH]; simpl; [done | by rewrite IH]. Qed.

Lemma substring_middle (p s t : string) :
  substring (String.length p)
    (String.length (p ++ s ++ t)%string - String.length p - String.length t)
    (p ++ s ++ t)%string = s.
Proof.
  induction p as [|c p IH].
  - change (substring 0 (String.length (s ++ t)%string - 0 - String.length t)
              (s ++ t)%string = s).
    rewrite length_append.
    replace (String.length s + String.length t - 0 - String.length t)%nat
      with (String.length s) by lia.
    apply substring_prefix.
  - exact IH.
Qed.

Lemma reported_name_why id :
  substring 10 (String.length (undefined_why id) - 10 - 41) (undefined_why id)
  = id.
Proof.
  apply (substring_middle "Variable '" id
           "' might not be defined before it is used.").
Qed.

Lemma reported_name_issue src id loc : reported_name (issue_of src id loc) = id.
Proof. apply reported_name_why. Qed.

Lemma finding_key_issue src id loc :
  finding_key (issue_of src id loc) = (id, Some (lineno loc)).
Proof. unfold finding_key. by rewrite reported_name_issue. Qed.

#[local] Instance reads_only_preorder : PreOrder reads_only.
Proof.
  split.
  - intros self. repeat split; try done. exists []. by rewrite app_nil_r.
  - intros s1 s2 s3 (Hsrc & Hsc & Hb & new & Hnew & Hall)
      (Hsrc' & Hsc' & Hb' & new' & Hnew' & Hall').
    repeat split; try congruence. exists (new ++ new'). split.
    + by rewrite Hnew', Hnew, app_assoc.
    + apply Forall_app. split; [done|].
      eapply Forall_impl; [exact Hall'|]. intros issue.
      unfold _is_defined. by rewrite Hsc, Hb.
Qed.

Lemma report_reads_only id loc :
  ensures (well_reported get_source_segment) reads_only
    (_report_undefined get_source_segment id loc).
Proof.
  intros self [[Hnodup Hseen] Hall]. unfold _report_undefined, wp. cbn beta.
  destruct (bool_decide (id ∈ builtins self) || _) eqn:Hb.
  { exists self. split; [done|]. split; [by repeat split | reflexivity]. }
  apply orb_false_elim in Hb as [Hb _].
  destruct (_is_defined self id) eqn:Hdef.
  { exists self. split; [done|]. split; [by repeat split | reflexivity]. }
  destruct (bool_decide ((id, lineno loc) ∈ _seen self)) eqn:Hs.
  { exists self. split; [done|]. split; [by repeat split | reflexivity]. }
  apply bool_decide_eq_false in Hb, Hs.
  eexists. split; [done|].
  split; [split; [split|]|]; cbn [issues _seen source scopes builtins].
  - rewrite map_app. apply NoDup_app. split; [done|]. split.
    + intros key Hkey [->|[]%elem_of_nil]%elem_of_cons.
      apply list_elem_of_fmap in Hkey as (issue & Hkey & Hin).
      destruct (Hseen issue Hin) as (l & Hl & Hmem).
      rewrite finding_key_issue in Hkey. unfold finding_key in Hkey.
      rewrite Hl in Hkey. injection Hkey as Hid Hline.
      by rewrite <- Hid, <- Hline in Hmem.
    + apply NoDup_singleton.
  - intros issue [Hin| ->%list_elem_of_singleton]%elem_of_app.
    + destruct (Hseen issue Hin) as (l & Hl & Hmem).
      exists l. split; [done|]. set_solver.
    + exists (lineno loc). split; [done|].
      rewrite reported_name_issue. set_solver.
  - apply Forall_app. split; [done|]. apply Forall_singleton. eauto.
  - repeat split; try done. eexists. split; [done|].
    apply Forall_singleton. by rewrite reported_name_issue.
Qed.

Lemma report_reads_only_any id loc :
  ensures (λ _, True) reads_only (_report_undefined get_source_segment id loc).
Proof.
  intros self _. unfold _report_undefined, wp. cbn beta.
  destruct (bool_decide (id ∈ builtins self) || _) eqn:Hb.
  { exists self. split; [done|]. split; [done | reflexivity]. }
  apply orb_false_elim in Hb as [Hb%bool_decide_eq_false _].
  destruct (_is_defined self id) eqn:Hdef.
  { exists self. split; [done|]. split; [done | reflexivity]. }
  destruct (bool_decide ((id, lineno loc) ∈ _seen self)).
  { exists self. split; [done|]. split; [done | reflexivity]. }
  eexists. split; [done|]. split; [done|].
  repeat split; try done. eexists. split; [done|].
  apply Forall_singleton. by rewrite reported_name_issue.
Qed.

Lemma well_reported_frame_blind :
  frame_blind (well_reported get_source_segment).
Proof. by intros self scopes'. Qed.

Lemma True_frame_blind : frame_blind (λ _, True).
Proof. done. Qed.

(** The lemmas of this section hold for the deduplication invariant and for
    no invariant at all. *)
Section invariant.

Variable P : t → Prop.
Hypothesis report_P :
  ∀ id loc, ensures P reads_only (_report_undefined get_source_segment id loc).
Hypothesis blind_P : frame_blind P.

Lemma visit_expr_reads e :
  ensures P reads_only (visit_expr get_source_segment e).
Proof.
  induction e using expr_keyword_ind with
    (P0 := λ k, ensures P reads_only (visit_keyword get_source_segment k)).
  all: repeat match goal with
       | H : list_all _ _ _ |- _ => apply list_all_Forall in H
       end.
  all: simpl;
    repeat first
      [ assumption
      | apply ensures_skip; apply _
      | apply ensures_seq; [apply _| |]
      | apply ensures_for_each; [apply _|] ].
  destruct ctx; (apply report_P || (apply ensures_skip; apply _)).
Qed.

Lemma visit_expr_ok n e :
  preserves (stack_ok P n) (visit_expr get_source_segment e).
Proof.
  intros self [Hlen Hd].
  destruct (visit_expr_reads e self Hd) as (self' & Hv & Hd' & Hr).
  exists self'. split; [done|]. split; [|done].
  destruct Hr as (_ & -> & _). done.
Qed.

Lemma on_top_ok f n : (1 ≤ n)%nat → preserves (stack_ok P n) (on_top_scope f).
Proof.
  intros Hn self [Hlen Hd]. unfold on_top_scope, wp.
  destruct (last (scopes self)) as [top|] eqn:Htop.
  - eexists. split; [done|]. split; [|by apply blind_P].
    simpl. by rewrite length_insert.
  - apply last_None in Htop. rewrite Htop in Hlen. simpl in Hlen. lia.
Qed.

Lemma define_ok name n : (1 ≤ n)%nat → preserves (stack_ok P n) (_define name).
Proof.
  intros Hn. unfold _define.
  destruct (truthy name && negb (String.prefix "_" name));
    [by apply on_top_ok|].
  destruct (truthy name); [by apply on_top_ok | apply preserves_skip].
Qed.

Lemma push_ok n self :
  stack_ok P n self → wp _push_scope (stack_ok P (S n)) self.
Proof.
  intros [Hlen Hd]. eexists. split; [done|]. split; [|by apply blind_P].
  simpl. rewrite length_app. simpl. lia.
Qed.

Lemma pop_ok n self :
  (1 ≤ n)%nat → stack_ok P (S n) self → wp _pop_scope (stack_ok P n) self.
Proof.
  intros Hn [Hlen Hd]. unfold _pop_scope, wp.
  destruct (decide (1 < length (scopes self))%nat); [|lia].
  eexists. split; [done|]. split; [|by apply blind_P]. simpl.
  rewrite length_removelast. lia.
Qed.

(** A block run in a frame of its own. *)
Lemma scoped_ok n a b self :
  (1 ≤ n)%nat → stack_ok P n self →
  preserves (stack_ok P (S n)) a →
  (∀ self', stack_ok P (S n) self' → wp b (stack_ok P (S n)) self') →
  wp (_push_scope;; a;; b;; _pop_scope) (stack_ok P n) self.
Proof.
  intros Hn Hok Ha Hb. apply wp_seq. eapply wp_mono; [by apply push_ok|].
  intros self1 H1. eapply wp_then; [exact Ha|done|]. intros self2 H2.
  apply wp_seq. eapply wp_mono; [by apply Hb|]. intros self3 H3.
  by apply pop_ok.
Qed.

Ltac preserves_steps :=
  repeat first
    [ apply preserves_skip
    | apply preserves_seq
    | apply visit_expr_ok
    | apply on_top_ok; lia
    | apply define_ok; lia
    | apply preserves_if_some; intros ?
    | match goal with
      | H : Forall _ ?xs |- preserves _ (for_each _ ?xs) =>
          apply preserves_for_each;
          eapply Forall_impl; [exact H|];
          let Hs := fresh in intros ? Hs; apply Hs; lia
      end
    | apply preserves_for_each, Forall_all; intros ?
    | match goal with
      | |- preserves _ (if ?b then _ else _) => destruct b
      | |- preserves _ (match ?x with _ => _ end) => destruct x
      end ].

(** Opens a frame, runs the steps of the block one by one, closes it. *)
Ltac scoped_steps :=
  apply wp_seq; eapply wp_mono; [by apply push_ok|]; intros ? ?;
  repeat (eapply wp_then; only 2: eassumption;
          [solve [preserves_steps] | intros ? ?]);
  apply pop_ok; [lia | assumption].

Lemma visit_stmt_ok s n :
  (1 ≤ n)%nat → preserves (stack_ok P n) (visit_stmt get_source_segment s).
Proof.
  revert n.
  induction s using stmt_handler_ind with
    (P0 := λ h, ∀ n, (1 ≤ n)%nat →
                  preserves (stack_ok P n)
                    (visit_excepthandler get_source_segment h))
    (P1 := λ c, ∀ n, (1 ≤ n)%nat →
                  preserves (stack_ok P n)
                    (visit_child get_source_segment c)).
  all: repeat match goal with
       | H : list_all _ _ _ |- _ => apply list_all_Forall in H
       end.
  all: intros n Hn; cbn [visit_stmt visit_excepthandler visit_child].
  all: try match goal with
       | IH : ∀ n, _ → preserves _ ?a |- preserves _ ?a => by apply IH
       end.
  all: unfold visit_AsyncFunctionDef, visit_FunctionDef, visit_ClassDef,
         visit_ExceptHandler, visit_For, visit_While, visit_With, visit_Assign,
         visit_AnnAssign, visit_AugAssign, visit_Import, visit_ImportFrom,
         _add_function_body, define_optional_arg.
  all: try (timeout 10 (solve [preserves_steps])).
  - intros self Hok.
    eapply (wp_then (stack_ok P n)); [by apply define_ok|done|].
    intros self1 H1. scoped_steps.
  - intros self Hok.
    eapply (wp_then (stack_ok P n)); [by apply define_ok|done|].
    intros self1 H1. scoped_steps.
  - intros self Hok.
    eapply (wp_then (stack_ok P n)); [by apply define_ok|done|].
    intros self1 H1. scoped_steps.
  - intros self Hok. scoped_steps.
Qed.

Lemma visit_ok tree :
  preserves (stack_ok P 1) (visit get_source_segment tree).
Proof.
  destruct tree as [body]. simpl. apply preserves_for_each, Forall_all.
  intros s. by apply visit_stmt_ok.
Qed.

End invariant.

Lemma init_well_reported runtime_builtins src :
  well_reported get_source_segment (__init__ runtime_builtins src).
Proof.
  split; [split|]; simpl;
    [apply NoDup_nil_2 | by intros ? ?%elem_of_nil | done].
Qed.

End undefined_lemmas.

(** ** The undefined-name visitor: what is visible where *)

Section scope_lemmas.
Import ast UndefinedNameVisitor.

Lemma is_defined_iff self x :
  _is_defined self x = true ↔ ∃ frame, frame ∈ scopes self ∧ x ∈ frame.
Proof.
  unfold _is_defined. rewrite existsb_exists.
  setoid_rewrite <- list_elem_of_In. setoid_rewrite elem_of_reverse.
  by setoid_rewrite bool_decide_eq_true.
Qed.

Lemma nonempty_snoc {A} (xs : list A) :
  xs ≠ [] → ∃ below top, xs = below ++ [top].
Proof.
  intros Hne. destruct (last xs) as [top|] eqn:Hlast.
  - apply last_Some in Hlast as [below ->]. eauto.
  - by apply last_None in Hlast.
Qed.

Lemma set_scopes_id self : set_scopes self (scopes self) = self.
Proof. by destruct self. Qed.

Lemma on_top_scope_snoc f self below top :
  scopes self = below ++ [top] →
  on_top_scope f self = Some (set_scopes self (below ++ [f top])).
Proof.
  intros Hsc. unfold on_top_scope. rewrite Hsc, last_snoc.
  do 2 f_equal. rewrite length_app. simpl.
  replace (pred (length below + 1)) with (length below + 0)%nat by lia.
  by rewrite insert_app_r.
Qed.

Lemma adds_skip : adds ∅ skip.
Proof.
  intros self below top Hsc. rewrite (right_id_L ∅ (∪)), <- Hsc.
  by rewrite set_scopes_id.
Qed.

Lemma adds_seq a b names1 names2 :
  adds names1 a → adds names2 b → adds (names1 ∪ names2) (a;; b).
Proof.
  intros Ha Hb self below top Hsc.
  erewrite seq_step by by apply Ha. erewrite Hb by done.
  by rewrite (assoc_L (∪)).
Qed.

Lemma adds_ext a names names' : adds names a → names = names' → adds names' a.
Proof. by intros ? <-. Qed.

Lemma adds_on_top names f :
  (∀ top, f top = top ∪ names) → adds names (on_top_scope f).
Proof.
  intros Hf self below top Hsc. erewrite on_top_scope_snoc by done.
  by rewrite Hf.
Qed.

Lemma names_defined_cons name names :
  names_defined (name :: names) =
  (if truthy name then {[name]} else ∅) ∪ names_defined names.
Proof.
  unfold names_defined. destruct (truthy name) eqn:Hn.
  - by rewrite filter_cons_True.
  - rewrite filter_cons_False by by rewrite Hn. by rewrite (left_id_L ∅ (∪)).
Qed.

Lemma names_defined_app names1 names2 :
  names_defined (names1 ++ names2) =
  names_defined names1 ∪ names_defined names2.
Proof. unfold names_defined. by rewrite filter_app, list_to_set_app_L. Qed.

Lemma elem_of_names_defined x names :
  x ∈ names_defined names ↔ x ∈ names ∧ x ≠ "".
Proof.
  unfold names_defined. rewrite elem_of_list_to_set, list_elem_of_filter.
  unfold truthy. rewrite negb_true_iff, String.eqb_neq. tauto.
Qed.

Lemma adds_define name : adds (names_defined [name]) (_define name).
Proof.
  rewrite names_defined_cons. unfold _define, names_defined.
  rewrite filter_nil, list_to_set_nil, (right_id_L ∅ (∪)).
  destruct (truthy name); simpl; [|apply adds_skip].
  destruct (negb _); by apply adds_on_top.
Qed.

Lemma adds_define_args (xs : list arg) :
  adds (names_defined (map arg_arg xs))
    (for_each (λ a, if truthy (arg_arg a) then _define (arg_arg a) else skip)
       xs).
Proof.
  induction xs as [|a xs IH]; simpl; [apply adds_skip|].
  eapply adds_ext; [apply adds_seq; [|exact IH]|].
  - instantiate (1 := names_defined [arg_arg a]).
    destruct (truthy (arg_arg a)) eqn:Ha; [apply adds_define|].
    rewrite names_defined_cons, Ha. unfold names_defined.
    rewrite filter_nil, list_to_set_nil, (right_id_L ∅ (∪)). apply adds_skip.
  - by rewrite <- names_defined_app.
Qed.

Lemma adds_define_optional_arg (x : option arg) :
  adds (names_defined (from_option (λ a, [arg_arg a]) [] x))
    (define_optional_arg x).
Proof.
  destruct x as [a|]; simpl; [|apply adds_skip].
  destruct (truthy (arg_arg a)) eqn:Ha; [apply adds_define|].
  rewrite names_defined_cons, Ha. unfold names_defined.
  rewrite filter_nil, list_to_set_nil, (right_id_L ∅ (∪)). apply adds_skip.
Qed.

Lemma adds_parameters (args : arguments) :
  adds (names_defined (parameter_names args))
    (for_each (λ a, if truthy (arg_arg a) then _define (arg_arg a) else skip)
       (posonlyargs args ++ ast.args args ++ kwonlyargs args);;
     define_optional_arg (vararg args);;
     define_optional_arg (kwarg args)).
Proof.
  eapply adds_ext.
  - apply adds_seq; [apply adds_define_args|].
    apply adds_seq; apply adds_define_optional_arg.
  - unfold parameter_names. by rewrite !names_defined_app.
Qed.

Lemma fold_add_target_names (elts : list expr) names :
  Forall (λ e, ∀ names, _add_target_names e names = names ∪ target_names e)
    elts →
  fold_left (λ names elt, _add_target_names elt names) elts names =
  names ∪ fold_left (λ names elt, _add_target_names elt names) elts ∅.
Proof.
  intros Helts. revert names.
  induction Helts as [|e elts He _ IH]; intros names; simpl.
  - by rewrite (right_id_L ∅ (∪)).
  - rewrite IH, (IH (_add_target_names e ∅)), He.
    unfold target_names. by rewrite (assoc_L (∪)).
Qed.

Lemma add_target_names_union target names :
  _add_target_names target names = names ∪ target_names target.
Proof.
  revert names.
  induction target using expr_keyword_ind with (P0 := λ _, True).
  all: try done.
  all: repeat match goal with
       | H : list_all _ _ _ |- _ => apply list_all_Forall in H
       end.
  all: intros names; unfold target_names; simpl.
  all: try by rewrite (right_id_L ∅ (∪)).
  all: try by apply fold_add_target_names.
  by rewrite (left_id_L ∅ (∪)).
Qed.

Lemma adds_target target :
  adds (target_names target) (on_top_scope (_add_target_names target)).
Proof. apply adds_on_top, add_target_names_union. Qed.

Lemma adds_targets (targets : list expr) :
  adds (⋃ (target_names <$> targets))
    (for_each (λ target, on_top_scope (_add_target_names target)) targets).
Proof.
  induction targets as [|target targets IH]; simpl; [apply adds_skip|].
  apply adds_seq; [apply adds_target | exact IH].
Qed.

Lemma is_defined_top self below top x :
  scopes self = below ++ [top] → x ∈ top → _is_defined self x = true.
Proof.
  intros Hsc Hx. apply is_defined_iff. exists top. split; [|done].
  rewrite Hsc. set_solver.
Qed.

End scope_lemmas.

(** ** The claims about the undefined-name visitor *)

Section undefined_claims.
Import ast UndefinedNameVisitor.

Variable runtime_builtins : gset string.
Variable get_source_segment : string → location → option string.

Lemma visit_stmt_any n s :
  (1 ≤ n)%nat →
  preserves (stack_ok (λ _, True) n) (visit_stmt get_source_segment s).
Proof.
  apply visit_stmt_ok; [apply report_reads_only_any | apply True_frame_blind].
Qed.

Lemma visit_well_reported tree src :
  wp (visit get_source_segment tree)
    (stack_ok
       (λ self, well_reported get_source_segment self ∧ source self = src) 1)
    (__init__ runtime_builtins src).
Proof.
  apply visit_ok.
  - intros id loc self [Hw Hsrc].
    destruct (report_reads_only get_source_segment id loc self Hw)
      as (self' & ? & ? & Hr).
    exists self'. split; [done|]. split; [|done]. split; [done|].
    destruct Hr as (Hs & _). congruence.
  - intros self scopes' [Hw Hsrc]. split; [|done].
    by apply well_reported_frame_blind.
  - split; [done|]. split; [apply init_well_reported | done].
Qed.

Lemma visit_expr_any e :
  ensures (λ _, True) reads_only (visit_expr get_source_segment e).
Proof.
  apply visit_expr_reads. apply report_reads_only_any.
Qed.

(** An action that puts [x] into the top frame, then the walk of [value]:
    the walk reports nothing about [x]. *)
Lemma value_after_adds names a value self x :
  adds names a → scopes self ≠ [] → x ∈ names →
  ∃ below top self1 self2 new,
    scopes self = below ++ [top] ∧
    a self = Some self1 ∧
    scopes self1 = below ++ [top ∪ names] ∧
    _is_defined self1 x = true ∧
    issues self1 = issues self ∧
    visit_expr get_source_segment value self1 = Some self2 ∧
    (a;; visit_expr get_source_segment value) self = Some self2 ∧
    issues self2 = issues self ++ new ∧
    Forall (λ issue, reported_name issue ≠ x) new.
Proof.
  intros Ha [below [top Hsc]]%nonempty_snoc Hx.
  specialize (Ha self below top Hsc).
  destruct (visit_expr_any value
              (set_scopes self (below ++ [top ∪ names])) I)
    as (self2 & Hv & _ & Hr).
  destruct Hr as (_ & _ & _ & new & Hnew & Hall).
  eexists below, top, _, self2, new. split; [done|]. split; [exact Ha|].
  assert (_is_defined (set_scopes self (below ++ [top ∪ names])) x = true)
    as Hdef.
  { apply (is_defined_top _ below (top ∪ names)); [done|].
    apply elem_of_union. by right. }
  repeat split; try done.
  - by erewrite seq_step.
  - eapply Forall_impl; [exact Hall|]. intros issue [Hundef _] Heq.
    rewrite Heq in Hundef. by rewrite Hdef in Hundef.
Qed.

Lemma for_each_bare (f : arg → action t) xs :
  (∀ a, f (bare_arg a) = f a) →
  for_each f (map bare_arg xs) = for_each f xs.
Proof.
  intros Hf. induction xs as [|a xs IH]; simpl; [done|]. by rewrite Hf, IH.
Qed.

Lemma visit_FunctionDef_bare visit name args body decorator_list :
  visit_FunctionDef get_source_segment visit name (bare_arguments args) body
    decorator_list =
  visit_FunctionDef get_source_segment visit name args body decorator_list.
Proof.
  unfold visit_FunctionDef, bare_arguments. simpl.
  rewrite <- !map_app, for_each_bare by done.
  by destruct (vararg args), (kwarg args).
Qed.

Lemma visit_FunctionDef_header visit name args body decorator_list self below
    top :
  scopes self = below ++ [top] →
  visit_FunctionDef get_source_segment visit name args body decorator_list self
  = (for_each (visit_expr get_source_segment) decorator_list;;
     for_each visit body;; _pop_scope)
      (set_scopes self
         (below ++ [top ∪ names_defined [name];
                    names_defined (parameter_names args)])).
Proof.
  intros Hsc. unfold visit_FunctionDef, _add_function_body.
  erewrite seq_step by by apply adds_define.
  erewrite seq_step by done.
  erewrite seq_step by (by eapply (adds_define_args _ _ (below ++ [_]) ∅)).
  erewrite seq_step
    by (by eapply (adds_define_optional_arg _ _ (below ++ [_]))).
  erewrite seq_step
    by (by eapply (adds_define_optional_arg _ _ (below ++ [_]))).
  f_equal. unfold set_scopes; simpl. f_equal.
  rewrite <- app_assoc. simpl. do 3 f_equal.
  unfold parameter_names.
  by rewrite !names_defined_app, (left_id_L ∅ (∪)), <- !(assoc_L (∪)).
Qed.

Lemma visit_ClassDef_header visit name bases body decorator_list self below
    top :
  scopes self = below ++ [top] →
  visit_ClassDef get_source_segment visit name bases body decorator_list self
  = (for_each (visit_expr get_source_segment) bases;;
     for_each (visit_expr get_source_segment) decorator_list;;
     for_each visit body;; _pop_scope)
      (set_scopes self (below ++ [top ∪ names_defined [name]; ∅])).
Proof.
  intros Hsc. unfold visit_ClassDef, _add_function_body.
  erewrite seq_step by by apply adds_define.
  erewrite seq_step by done.
  simpl. by rewrite <- app_assoc.
Qed.

End undefined_claims.

(** C9: the scope stack starts with one frame and never becomes empty: push
    appends one empty frame; pop removes the last frame unless it is the only
    one, when it does nothing; push, pop and define return (they never raise)
    and leave a non-empty stack; every statement visited from a non-empty
    stack returns with the stack as deep as it found it, and a whole run ends
    on the single global frame. The lookup [_is_defined] is a total function
    of the stack: it answers [true] exactly for a name held by some frame. *)
Theorem C9_scope_stack_never_empty
    (runtime_builtins : gset string)
    (get_source_segment : string → ast.location → option string)
    (src : string) (tree : ast.py_module) (s : ast.stmt) (name : string)
    (self : UndefinedNameVisitor.t) :
  UndefinedNameVisitor.scopes self ≠ [] →
  UndefinedNameVisitor.scopes
    (UndefinedNameVisitor.__init__ runtime_builtins src) = [∅]
  ∧ UndefinedNameVisitor._push_scope self =
    Some (UndefinedNameVisitor.set_scopes self
            (UndefinedNameVisitor.scopes self ++ [∅]))
  ∧ UndefinedNameVisitor._pop_scope self =
    Some (if decide (length (UndefinedNameVisitor.scopes self) = 1%nat)
          then self
          else UndefinedNameVisitor.set_scopes self
                 (removelast (UndefinedNameVisitor.scopes self)))
  ∧ (∃ self', UndefinedNameVisitor._pop_scope self = Some self' ∧
              UndefinedNameVisitor.scopes self' ≠ [])
  ∧ (∃ self', UndefinedNameVisitor._define name self = Some self' ∧
              length (UndefinedNameVisitor.scopes self') =
              length (UndefinedNameVisitor.scopes self))
  ∧ (UndefinedNameVisitor._is_defined self name = true ↔
     ∃ frame, frame ∈ UndefinedNameVisitor.scopes self ∧ name ∈ frame)
  ∧ (∃ self', UndefinedNameVisitor.visit_stmt get_source_segment s self
              = Some self' ∧
              length (UndefinedNameVisitor.scopes self') =
              length (UndefinedNameVisitor.scopes self))
  ∧ (∃ final, UndefinedNameVisitor.visit get_source_segment tree
                (UndefinedNameVisitor.__init__ runtime_builtins src)
              = Some final ∧
              length (UndefinedNameVisitor.scopes final) = 1%nat).
Proof.
  intros Hne.
  assert (1 ≤ length (UndefinedNameVisitor.scopes self))%nat as Hlen.
  { destruct (UndefinedNameVisitor.scopes self); [done | simpl; lia]. }
  assert (stack_ok (λ _, True) (length (UndefinedNameVisitor.scopes self)) self)
    as Hok by done.
  split; [done|]. split; [done|].
  split; [|split; [|split; [|split; [apply is_defined_iff|split]]]].
  - unfold UndefinedNameVisitor._pop_scope.
    destruct (decide (1 < _)%nat), (decide (_ = 1%nat)); try done; lia.
  - unfold UndefinedNameVisitor._pop_scope.
    destruct (decide (1 < _)%nat) as [Hlt|]; [|by eexists].
    eexists. split; [done|]. simpl. intros Hnil.
    apply (f_equal length) in Hnil. rewrite length_removelast in Hnil.
    simpl in Hnil. lia.
  - destruct (define_ok (λ _, True) True_frame_blind name _ Hlen self Hok)
      as (self' & ? & ? & _). eauto.
  - destruct (visit_stmt_any get_source_segment _ s Hlen self Hok)
      as (self' & ? & ? & _). eauto.
  - destruct (visit_well_reported runtime_builtins get_source_segment tree src)
      as (final & ? & ? & _). eauto.
Qed.

(** Witness for C9: the fresh visitor, and [x = x + 1] as the statement. *)
Lemma C9_witness :
  UndefinedNameVisitor.scopes
    (UndefinedNameVisitor.__init__ examples.builtins "") ≠ [] ∧
  (∃ self',
     UndefinedNameVisitor.visit_stmt examples.no_segment examples.increment
       (UndefinedNameVisitor.__init__ examples.builtins "") = Some self' ∧
     length (UndefinedNameVisitor.scopes self') = 1%nat) ∧
  (∃ final,
     UndefinedNameVisitor.visit examples.no_segment examples.quotient
       (UndefinedNameVisitor.__init__ examples.builtins "") = Some final ∧
     length (UndefinedNameVisitor.scopes final) = 1%nat).
Proof.
  assert (UndefinedNameVisitor.scopes
            (UndefinedNameVisitor.__init__ examples.builtins "") ≠ [])
    as H1 by discriminate.
  split; [exact H1|].
  destruct (C9_scope_stack_never_empty examples.builtins examples.no_segment
              "" examples.quotient examples.increment "f"
              (UndefinedNameVisitor.__init__ examples.builtins "") H1)
    as (_ & _ & _ & _ & _ & _ & Hstmt & Hrun).
  split; [exact Hstmt | exact Hrun].
Defined.


(** C10: a plain assignment adds the names of all its targets to the top
    frame before it walks the value, and an augmented assignment does the
    same with its target; so a name [x] bound by a target is visible while the
    value is walked, and the walk adds no issue about [x] (as in [x = x + 1]
    and [x += 1] for an [x] never defined before). *)
Theorem C10_targets_defined_before_value
    (get_source_segment : string → ast.location → option string)
    (self : UndefinedNameVisitor.t) (targets : list ast.expr)
    (target value : ast.expr) (op : ast.operator) (x : string) :
  UndefinedNameVisitor.scopes self ≠ [] →
  target ∈ targets →
  x ∈ target_names target →
  (∃ below top self1 self2 new,
     UndefinedNameVisitor.scopes self = below ++ [top] ∧
     for_each
       (λ target,
          UndefinedNameVisitor.on_top_scope (_add_target_names target))
       targets self = Some self1 ∧
     UndefinedNameVisitor.scopes self1 =
       below ++ [top ∪ ⋃ (target_names <$> targets)] ∧
     UndefinedNameVisitor._is_defined self1 x = true ∧
     UndefinedNameVisitor.issues self1 = UndefinedNameVisitor.issues self ∧
     UndefinedNameVisitor.visit_expr get_source_segment value self1
       = Some self2 ∧
     UndefinedNameVisitor.visit_stmt get_source_segment
       (ast.Assign targets value) self = Some self2 ∧
     UndefinedNameVisitor.issues self2 =
       UndefinedNameVisitor.issues self ++ new ∧
     Forall (λ issue, reported_name issue ≠ x) new)
  ∧
  (∃ below top self1 self2 new,
     UndefinedNameVisitor.scopes self = below ++ [top] ∧
     UndefinedNameVisitor.on_top_scope (_add_target_names target) self
       = Some self1 ∧
     UndefinedNameVisitor.scopes self1 = below ++ [top ∪ target_names target] ∧
     UndefinedNameVisitor._is_defined self1 x = true ∧
     UndefinedNameVisitor.issues self1 = UndefinedNameVisitor.issues self ∧
     UndefinedNameVisitor.visit_expr get_source_segment value self1
       = Some self2 ∧
     UndefinedNameVisitor.visit_stmt get_source_segment
       (ast.AugAssign target op value) self = Some self2 ∧
     UndefinedNameVisitor.issues self2 =
       UndefinedNameVisitor.issues self ++ new ∧
     Forall (λ issue, reported_name issue ≠ x) new).
Proof.
  intros Hne Hin Hx. split.
  - apply (value_after_adds get_source_segment _ _ value self x
             (adds_targets targets) Hne).
    apply elem_of_union_list. exists (target_names target). split; [|done].
    apply list_elem_of_fmap. eauto.
  - apply (value_after_adds get_source_segment _ _ value self x
             (adds_target target) Hne Hx).
Qed.

(** Witness for C10: [x = x + 1] at module level, [x] never defined. *)
Lemma C10_witness :
  UndefinedNameVisitor.scopes (UndefinedNameVisitor.__init__ ∅ "") ≠ [] ∧
  ast.Name "x" ast.Store (examples.at_line 1)
    ∈ [ast.Name "x" ast.Store (examples.at_line 1)] ∧
  "x" ∈ target_names (ast.Name "x" ast.Store (examples.at_line 1)) ∧
  ∃ self2 new,
    UndefinedNameVisitor.visit_stmt examples.no_segment examples.increment
      (UndefinedNameVisitor.__init__ ∅ "") = Some self2 ∧
    UndefinedNameVisitor.issues self2 = [] ++ new ∧
    Forall (λ issue, reported_name issue ≠ "x") new.
Proof.
  assert (UndefinedNameVisitor.scopes (UndefinedNameVisitor.__init__ ∅ "")
          ≠ []) as H1 by discriminate.
  assert (ast.Name "x" ast.Store (examples.at_line 1)
          ∈ [ast.Name "x" ast.Store (examples.at_line 1)]) as H2
    by apply list_elem_of_here.
  assert ("x" ∈ target_names (ast.Name "x" ast.Store (examples.at_line 1)))
    as H3 by (refine (bool_decide_unpack _ _); vm_compute; exact I).
  split; [exact H1|]. split; [exact H2|]. split; [exact H3|].
  destruct (C10_targets_defined_before_value examples.no_segment
              (UndefinedNameVisitor.__init__ ∅ "")
              [ast.Name "x" ast.Store (examples.at_line 1)]
              (ast.Name "x" ast.Store (examples.at_line 1))
              (ast.BinOp (examples.name "x" 1) ast.Add
                 (ast.Constant (ast.CInt 1) (examples.at_line 1))
                 (examples.at_line 1))
              ast.Add "x" H1 H2 H3)
    as [(below & top & self1 & self2 & new & _ & _ & _ & _ & _ & _ & Hrun
         & Hnew & Hall) _].
  exists self2, new. split; [exact Hrun|]. split; [exact Hnew | exact Hall].
Defined.

(** C4 (amended): a function or class definition registers its name in the
    enclosing frame and pushes its own frame (which for a function holds the
    parameters, for a class nothing), and only then walks the decorators
    (and, for a class, first the base classes) as read expressions. The
    state they are walked in is exactly the state before the definition with
    these two frames in place of the top one, so to them a name is visible
    exactly when it is visible in the enclosing stack, or is the
    definition's own name, or (for a function) is one of its parameters. The
    annotations and default values of parameters, the return annotation and
    the keywords of a class are not walked: the visit is the same without
    them. *)
Theorem C4_definition_headers_amended
    (get_source_segment : string → ast.location → option string)
    (self : UndefinedNameVisitor.t) (name : string) (args : ast.arguments)
    (body : list ast.stmt) (decorator_list bases : list ast.expr)
    (returns : option ast.expr) (keywords : list ast.keyword) :
  UndefinedNameVisitor.scopes self ≠ [] →
  ∃ below top,
    UndefinedNameVisitor.scopes self = below ++ [top] ∧
    (∃ header,
       header =
         UndefinedNameVisitor.set_scopes self
           (below ++ [top ∪ names_defined [name];
                      names_defined (parameter_names args)]) ∧
       UndefinedNameVisitor.visit_stmt get_source_segment
         (ast.FunctionDef name args body decorator_list returns) self
       = (for_each (UndefinedNameVisitor.visit_expr get_source_segment)
            decorator_list;;
          for_each (UndefinedNameVisitor.visit_stmt get_source_segment) body;;
          UndefinedNameVisitor._pop_scope) header ∧
       UndefinedNameVisitor.visit_stmt get_source_segment
         (ast.AsyncFunctionDef name args body decorator_list returns) self
       = UndefinedNameVisitor.visit_stmt get_source_segment
           (ast.FunctionDef name args body decorator_list returns) self ∧
       length (UndefinedNameVisitor.scopes header) =
         S (length (UndefinedNameVisitor.scopes self)) ∧
       UndefinedNameVisitor.issues header = UndefinedNameVisitor.issues self ∧
       UndefinedNameVisitor._seen header = UndefinedNameVisitor._seen self ∧
       (∀ x, UndefinedNameVisitor._is_defined header x = true ↔
             UndefinedNameVisitor._is_defined self x = true ∨
             (x = name ∧ x ≠ "") ∨
             (x ∈ parameter_names args ∧ x ≠ "")))
    ∧ UndefinedNameVisitor.visit_stmt get_source_segment
        (ast.FunctionDef name args body decorator_list returns) self
      = UndefinedNameVisitor.visit_stmt get_source_segment
          (ast.FunctionDef name (bare_arguments args) body decorator_list None)
          self
    ∧ (∃ header,
         header =
           UndefinedNameVisitor.set_scopes self
             (below ++ [top ∪ names_defined [name]; ∅]) ∧
         UndefinedNameVisitor.visit_stmt get_source_segment
           (ast.ClassDef name bases keywords body decorator_list) self
         = (for_each (UndefinedNameVisitor.visit_expr get_source_segment)
              bases;;
            for_each (UndefinedNameVisitor.visit_expr get_source_segment)
              decorator_list;;
            for_each (UndefinedNameVisitor.visit_stmt get_source_segment) body;;
            UndefinedNameVisitor._pop_scope) header ∧
         length (UndefinedNameVisitor.scopes header) =
           S (length (UndefinedNameVisitor.scopes self)) ∧
         UndefinedNameVisitor.issues header = UndefinedNameVisitor.issues self ∧
         UndefinedNameVisitor._seen header = UndefinedNameVisitor._seen self ∧
         (∀ x, UndefinedNameVisitor._is_defined header x = true ↔
               UndefinedNameVisitor._is_defined self x = true ∨
               (x = name ∧ x ≠ "")))
    ∧ UndefinedNameVisitor.visit_stmt get_source_segment
        (ast.ClassDef name bases keywords body decorator_list) self
      = UndefinedNameVisitor.visit_stmt get_source_segment
          (ast.ClassDef name bases [] body decorator_list) self.
Proof.
  intros [below [top Hsc]]%nonempty_snoc. exists below, top.
  split; [exact Hsc|].
  assert (∀ own x,
            UndefinedNameVisitor._is_defined
              (UndefinedNameVisitor.set_scopes self
                 (below ++ [top ∪ names_defined [name]; own])) x = true ↔
            UndefinedNameVisitor._is_defined self x = true ∨
            (x = name ∧ x ≠ "") ∨ x ∈ own) as Hvisible.
  { intros own x. rewrite !is_defined_iff. simpl. rewrite Hsc. split.
    - intros (frame & Hin & Hx).
      apply elem_of_app in Hin as [Hin|Hin].
      + left. exists frame. split; [|done]. apply elem_of_app. by left.
      + apply elem_of_cons in Hin as [->|Hin].
        * apply elem_of_union in Hx as [Hx|Hx].
          -- left. exists top. split; [|done].
             apply elem_of_app. right. apply list_elem_of_here.
          -- right. left. apply elem_of_names_defined in Hx as [Hx ?].
             by apply list_elem_of_singleton in Hx.
        * apply list_elem_of_singleton in Hin as ->. by right; right.
    - intros [(frame & Hin & Hx)|[[-> Hname]|Hx]].
      + apply elem_of_app in Hin as [Hin| ->%list_elem_of_singleton].
        * exists frame. split; [|done]. apply elem_of_app. by left.
        * exists (top ∪ names_defined [name]). split.
          -- apply elem_of_app. right. apply list_elem_of_here.
          -- apply elem_of_union. by left.
      + exists (top ∪ names_defined [name]). split.
        * apply elem_of_app. right. apply list_elem_of_here.
        * apply elem_of_union. right. apply elem_of_names_defined.
          split; [apply list_elem_of_here | done].
      + exists own. split; [|done].
        apply elem_of_app. right. apply list_elem_of_further.
        apply list_elem_of_here. }
  split; [|split; [|split; [|done]]].
  - eexists. split; [reflexivity|]. split.
    { cbn [UndefinedNameVisitor.visit_stmt].
      by apply visit_FunctionDef_header. }
    split; [done|]. split.
    { simpl. rewrite Hsc, !length_app. simpl. lia. }
    split; [done|]. split; [done|].
    intros x. rewrite Hvisible. by rewrite elem_of_names_defined.
  - cbn [UndefinedNameVisitor.visit_stmt].
    by rewrite visit_FunctionDef_bare.
  - eexists. split; [reflexivity|]. split.
    { cbn [UndefinedNameVisitor.visit_stmt].
      by apply visit_ClassDef_header. }
    split.
    { simpl. rewrite Hsc, !length_app. simpl. lia. }
    split; [done|]. split; [done|].
    intros x. rewrite Hvisible. split.
    + intros [?|[?|Hx]]; [by left | by right |].
      by apply not_elem_of_empty in Hx.
    + intros [?|?]; [by left | by right; left].
Qed.

(** Witness for C4 (amended): [@p] / [def f(p): pass] at module level. The
    decorator is walked with the parameter [p] and the name [f] visible. *)
Lemma C4_witness :
  UndefinedNameVisitor.scopes
    (UndefinedNameVisitor.__init__ examples.builtins "") ≠ [] ∧
  ∃ header,
    UndefinedNameVisitor.visit_stmt examples.no_segment
      (ast.FunctionDef "f"
         (ast.mk_arguments [] [ast.mk_arg "p" None] None [] [] None [])
         [ast.Pass] [examples.name "p" 1] None)
      (UndefinedNameVisitor.__init__ examples.builtins "")
    = (for_each (UndefinedNameVisitor.visit_expr examples.no_segment)
         [examples.name "p" 1];;
       for_each (UndefinedNameVisitor.visit_stmt examples.no_segment)
         [ast.Pass];;
       UndefinedNameVisitor._pop_scope) header ∧
    length (UndefinedNameVisitor.scopes header) = 2%nat ∧
    UndefinedNameVisitor._is_defined header "p" = true ∧
    UndefinedNameVisitor._is_defined header "f" = true.
Proof.
  assert (UndefinedNameVisitor.scopes
            (UndefinedNameVisitor.__init__ examples.builtins "") ≠ [])
    as H1 by discriminate.
  split; [exact H1|].
  destruct (C4_definition_headers_amended examples.no_segment
              (UndefinedNameVisitor.__init__ examples.builtins "") "f"
              (ast.mk_arguments [] [ast.mk_arg "p" None] None [] [] None [])
              [ast.Pass] [examples.name "p" 1] [] None [] H1)
    as (below & top & _ & (header & _ & Hrun & _ & Hlen & _ & _ & Hvisible)
        & _).
  exists header. split; [exact Hrun|]. split; [exact Hlen|]. split.
  - apply Hvisible. right. right. split; [|discriminate].
    apply list_elem_of_here.
  - apply Hvisible. right. left. split; [reflexivity | discriminate].
Defined.

(** Counterexample to C4 as stated: in [@p] / [def f(p): pass] the name [p]
    is no builtin and is not visible at module level, yet its read in the
    decorator is not reported; and in [def f(a: b) -> c: pass] the
    annotations [b] and [c] are never read, so nothing is reported. *)
Lemma C4_counterexample :
  ("p" ∉ examples.builtins) ∧
  UndefinedNameVisitor._is_defined
    (UndefinedNameVisitor.__init__ examples.builtins "") "p" = false ∧
  (UndefinedNameVisitor.issues <$>
     UndefinedNameVisitor.visit examples.no_segment
       examples.decorated_by_parameter
       (UndefinedNameVisitor.__init__ examples.builtins "")) = Some [] ∧
  (UndefinedNameVisitor.issues <$>
     UndefinedNameVisitor.visit examples.no_segment examples.annotated
       (UndefinedNameVisitor.__init__ examples.builtins "")) = Some [].
Proof.
  split; [|split; [|split]].
  - refine (bool_decide_unpack _ _). vm_compute. exact I.
  - vm_compute. reflexivity.
  - vm_compute. reflexivity.
  - vm_compute. reflexivity.
Qed.

(** ** The claims about the pattern visitor *)

(** C5 (amended): a comparison node with exactly one operator, [==] or [!=],
    whose first comparator (the right-hand operand) is the literal [None]
    gets exactly one finding, of type [BestPractice] and severity [info], at
    the node's line; every other comparison node gets none, in particular
    one whose [None] stands on the left only, and a chained comparison. *)
Theorem C5_none_comparison_amended
    (get_source_segment : string → ast.location → option string)
    (src : string) (tree : ast.py_module) (left_ : ast.expr)
    (ops : list ast.cmpop) (comparators : list ast.expr)
    (loc : ast.location) :
  parser_shape tree = true →
  N_expr (ast.Compare left_ ops comparators loc) ∈ walk.module tree →
  ∃ checker finding,
    RuntimePatternVisitor.visit get_source_segment tree
      (RuntimePatternVisitor.__init__ src) = Some checker ∧
    RuntimePatternVisitor.issues checker =
      walk.module tree ≫= node_findings get_source_segment src ∧
    finding =
      RuntimePatternVisitor.BestPractice_issue get_source_segment loc src ∧
    type finding = "BestPractice" ∧
    severity finding = "info" ∧
    line finding = Some (ast.lineno loc) ∧
    ((∃ op rhs_loc rest,
        (op = ast.Eq ∨ op = ast.NotEq) ∧ ops = [op] ∧
        comparators = ast.Constant ast.CNone rhs_loc :: rest) →
     node_findings get_source_segment src
       (N_expr (ast.Compare left_ ops comparators loc)) = [finding] ∧
     finding ∈ RuntimePatternVisitor.issues checker) ∧
    (¬ (∃ op rhs_loc rest,
          (op = ast.Eq ∨ op = ast.NotEq) ∧ ops = [op] ∧
          comparators = ast.Constant ast.CNone rhs_loc :: rest) →
     node_findings get_source_segment src
       (N_expr (ast.Compare left_ ops comparators loc)) = []).
Proof.
  intros Hshape Hin.
  destruct (visit_findings get_source_segment tree src Hshape)
    as (checker & Hrun & _ & Hissues).
  exists checker, (RuntimePatternVisitor.BestPractice_issue
                     get_source_segment loc src).
  split; [done|]. split; [done|]. do 4 (split; [done|]). split.
  - intros (op & rhs_loc & rest & Hop & -> & ->).
    assert (node_findings get_source_segment src
              (N_expr (ast.Compare left_ [op]
                         (ast.Constant ast.CNone rhs_loc :: rest) loc))
            = [RuntimePatternVisitor.BestPractice_issue get_source_segment
                 loc src]) as Hf by by destruct Hop as [-> | ->].
    split; [done|]. by eapply finding_reported.
  - intros Hnot. unfold node_findings. simpl.
    destruct ops as [|op [|]]; try done; destruct op; try done.
    all: destruct comparators as [|[] rest]; try done.
    all: destruct value; try done.
    all: exfalso; apply Hnot; eauto 10.
Qed.

(** Witness for C5 (amended): [x == None]. *)
Lemma C5_witness :
  parser_shape (ast.Module_ [ast.Expr examples.none_on_the_right]) = true ∧
  N_expr examples.none_on_the_right
    ∈ walk.module (ast.Module_ [ast.Expr examples.none_on_the_right]) ∧
  ∃ checker,
    RuntimePatternVisitor.visit examples.no_segment
      (ast.Module_ [ast.Expr examples.none_on_the_right])
      (RuntimePatternVisitor.__init__ "") = Some checker.
Proof.
  assert (parser_shape (ast.Module_ [ast.Expr examples.none_on_the_right])
          = true) as H1 by (vm_compute; reflexivity).
  assert (N_expr examples.none_on_the_right
            ∈ walk.module (ast.Module_ [ast.Expr examples.none_on_the_right]))
    as H2.
  { apply list_elem_of_In. simpl. right. right. left. reflexivity. }
  split; [exact H1|]. split; [exact H2|].
  destruct (C5_none_comparison_amended examples.no_segment "" _ _ _ _ _ H1 H2)
    as (checker & _ & Hrun & _).
  exists checker. exact Hrun.
Defined.

(** Counterexample to C5 as stated: [None == x] is an equality comparison
    with [None] as one operand, and the visitor reports nothing. *)
Lemma C5_counterexample :
  parser_shape (ast.Module_ [ast.Expr examples.none_on_the_left]) = true ∧
  (RuntimePatternVisitor.issues <$>
     RuntimePatternVisitor.visit examples.no_segment
       (ast.Module_ [ast.Expr examples.none_on_the_left])
       (RuntimePatternVisitor.__init__ "")) = Some [].
Proof. split; vm_compute; reflexivity. Qed.

(** C6 (amended): a division, floor division or modulo node whose right
    operand is a literal [int], [bool] or [float] equal to zero gets one
    finding, of type [ZeroDivisionError] and severity [warning], at the
    node's line; a node whose right operand is the literal [1], a name, or a
    complex literal (also [0j]) gets none. *)
Theorem C6_division_by_zero_amended
    (get_source_segment : string → ast.location → option string)
    (src : string) (tree : ast.py_module) (left_ right_ : ast.expr)
    (op : ast.operator) (loc : ast.location) :
  parser_shape tree = true →
  N_expr (ast.BinOp left_ op right_ loc) ∈ walk.module tree →
  ∃ checker finding,
    RuntimePatternVisitor.visit get_source_segment tree
      (RuntimePatternVisitor.__init__ src) = Some checker ∧
    RuntimePatternVisitor.issues checker =
      walk.module tree ≫= node_findings get_source_segment src ∧
    finding =
      RuntimePatternVisitor.ZeroDivisionError_issue get_source_segment loc
        src ∧
    type finding = "ZeroDivisionError" ∧
    severity finding = "warning" ∧
    line finding = Some (ast.lineno loc) ∧
    (op = ast.Div ∨ op = ast.FloorDiv ∨ op = ast.Mod →
     ∀ value value_loc,
       right_ = ast.Constant value value_loc →
       RuntimePatternVisitor.isinstance_int_float value = true →
       RuntimePatternVisitor.eq_zero value = true →
       node_findings get_source_segment src
         (N_expr (ast.BinOp left_ op right_ loc)) = [finding] ∧
       finding ∈ RuntimePatternVisitor.issues checker) ∧
    ((∃ one_loc, right_ = ast.Constant (ast.CInt 1) one_loc) ∨
     (∃ id ctx name_loc, right_ = ast.Name id ctx name_loc) ∨
     (∃ re im value_loc, right_ = ast.Constant (ast.CComplex re im) value_loc)
     →
     node_findings get_source_segment src
       (N_expr (ast.BinOp left_ op right_ loc)) = []).
Proof.
  intros Hshape Hin.
  destruct (visit_findings get_source_segment tree src Hshape)
    as (checker & Hrun & _ & Hissues).
  exists checker, (RuntimePatternVisitor.ZeroDivisionError_issue
                     get_source_segment loc src).
  split; [done|]. split; [done|]. do 4 (split; [done|]). split.
  - intros Hop value value_loc -> Hnum Hzero.
    assert (node_findings get_source_segment src
              (N_expr (ast.BinOp left_ op (ast.Constant value value_loc) loc))
            = [RuntimePatternVisitor.ZeroDivisionError_issue
                 get_source_segment loc src]) as Hf.
    { unfold node_findings. simpl.
      destruct Hop as [-> | [-> | ->]]; by rewrite Hnum, Hzero. }
    split; [done|]. by eapply finding_reported.
  - intros [[one_loc ->] | [(id & ctx & name_loc & ->)
                           | (re & im & value_loc & ->)]];
      by destruct op.
Qed.

(** Witness for C6 (amended): [y = x / 0]. *)
Lemma C6_witness :
  parser_shape examples.quotient = true ∧
  N_expr (ast.BinOp (examples.name "x" 1) ast.Div
            (ast.Constant (ast.CInt 0) (examples.at_line 1))
            (examples.at_line 1))
    ∈ walk.module examples.quotient ∧
  ∃ checker,
    RuntimePatternVisitor.visit examples.no_segment examples.quotient
      (RuntimePatternVisitor.__init__ "") = Some checker ∧
    RuntimePatternVisitor.ZeroDivisionError_issue examples.no_segment
      (examples.at_line 1) ""
      ∈ RuntimePatternVisitor.issues checker.
Proof.
  assert (parser_shape examples.quotient = true) as H1
    by (vm_compute; reflexivity).
  assert (N_expr (ast.BinOp (examples.name "x" 1) ast.Div
                    (ast.Constant (ast.CInt 0) (examples.at_line 1))
                    (examples.at_line 1))
            ∈ walk.module examples.quotient) as H2.
  { apply list_elem_of_In. simpl. do 3 right. left. reflexivity. }
  split; [exact H1|]. split; [exact H2|].
  destruct (C6_division_by_zero_amended examples.no_segment "" _ _ _ _ _
              H1 H2)
    as (checker & finding & Hrun & _ & -> & _ & _ & _ & Hflag & _).
  exists checker. split; [exact Hrun|].
  apply (Hflag (or_introl eq_refl) (ast.CInt 0) (examples.at_line 1) eq_refl
           eq_refl eq_refl).
Defined.

(** Counterexample to C6 as stated: in [x / 0j] the right operand is a
    literal number equal to zero, and the visitor reports nothing. *)
Lemma C6_counterexample :
  numeric_zero_literal
    (ast.Constant (ast.CComplex examples.zero examples.zero)
       (examples.at_line 1)) = true ∧
  parser_shape (ast.Module_ [ast.Expr examples.divided_by_complex_zero])
    = true ∧
  (RuntimePatternVisitor.issues <$>
     RuntimePatternVisitor.visit examples.no_segment
       (ast.Module_ [ast.Expr examples.divided_by_complex_zero])
       (RuntimePatternVisitor.__init__ "")) = Some [].
Proof. repeat split; vm_compute; reflexivity. Qed.

(** C7: a [for] statement whose [iter] is a literal integer gets a finding of
    type [TypeError] and severity [warning] at the line of the [iter]
    expression; a [for] statement over a list display gets no finding. *)
Theorem C7_loop_over_integer_literal
    (get_source_segment : string → ast.location → option string)
    (src : string) (tree : ast.py_module) (target iter : ast.expr)
    (body orelse : list ast.stmt) :
  parser_shape tree = true →
  N_stmt (ast.For target iter body orelse) ∈ walk.module tree →
  ∃ checker,
    RuntimePatternVisitor.visit get_source_segment tree
      (RuntimePatternVisitor.__init__ src) = Some checker ∧
    RuntimePatternVisitor.issues checker =
      walk.module tree ≫= node_findings get_source_segment src ∧
    (∀ n iter_loc,
       iter = ast.Constant (ast.CInt n) iter_loc →
       ∃ finding,
         finding =
           RuntimePatternVisitor.TypeError_issue get_source_segment iter_loc
             src ∧
         node_findings get_source_segment src
           (N_stmt (ast.For target iter body orelse)) = [finding] ∧
         finding ∈ RuntimePatternVisitor.issues checker ∧
         type finding = "TypeError" ∧
         severity finding = "warning" ∧
         line finding = Some (ast.lineno (ast.expr_loc iter))) ∧
    (∀ elts ctx list_loc,
       iter = ast.List elts ctx list_loc →
       node_findings get_source_segment src
         (N_stmt (ast.For target iter body orelse)) = []).
Proof.
  intros Hshape Hin.
  destruct (visit_findings get_source_segment tree src Hshape)
    as (checker & Hrun & _ & Hissues).
  exists checker. split; [done|]. split; [done|]. split.
  - intros n iter_loc ->. eexists. split; [done|].
    split; [done|]. split; [by eapply finding_reported | done].
  - by intros elts ctx list_loc ->.
Qed.

(** Witness for C7: [for i in 5: pass]. *)
Lemma C7_witness :
  parser_shape (ast.Module_ [examples.loop_over_five]) = true ∧
  N_stmt examples.loop_over_five
    ∈ walk.module (ast.Module_ [examples.loop_over_five]) ∧
  ∃ checker,
    RuntimePatternVisitor.visit examples.no_segment
      (ast.Module_ [examples.loop_over_five])
      (RuntimePatternVisitor.__init__ "") = Some checker ∧
    RuntimePatternVisitor.TypeError_issue examples.no_segment
      (examples.at_line 1) ""
      ∈ RuntimePatternVisitor.issues checker.
Proof.
  assert (parser_shape (ast.Module_ [examples.loop_over_five]) = true) as H1
    by (vm_compute; reflexivity).
  assert (N_stmt examples.loop_over_five
            ∈ walk.module (ast.Module_ [examples.loop_over_five])) as H2.
  { apply list_elem_of_In. simpl. right. left. reflexivity. }
  split; [exact H1|]. split; [exact H2|].
  destruct (C7_loop_over_integer_literal examples.no_segment "" _ _ _ _ _
              H1 H2) as (checker & Hrun & _ & Hflag & _).
  exists checker. split; [exact Hrun|].
  destruct (Hflag 5 (examples.at_line 1) eq_refl)
    as (finding & -> & _ & Hmem & _).
  exact Hmem.
Defined.

(** ** The claim about the complexity estimate *)

Lemma self_recursive_iff n :
  self_recursive n = true ↔
  ∃ f name args body decorator_list returns,
    n = N_stmt f ∧
    (f = ast.FunctionDef name args body decorator_list returns ∨
     f = ast.AsyncFunctionDef name args body decorator_list returns) ∧
    ∃ ctx name_loc call_args keywords loc,
      N_expr (ast.Call (ast.Name name ctx name_loc) call_args keywords loc)
        ∈ walk.stmt f.
Proof.
  assert (∀ name nodes,
            existsb (ComplexityVisitor.is_call_to (Some name)) nodes = true ↔
            ∃ ctx name_loc call_args keywords loc,
              N_expr (ast.Call (ast.Name name ctx name_loc) call_args keywords
                        loc) ∈ nodes) as Hcall.
  { intros name nodes. rewrite existsb_exists. split.
    - intros (child & Hin%list_elem_of_In & Hc).
      destruct child as [[]| | | | | | | |]; try done.
      destruct func; try done. simpl in Hc.
      apply bool_decide_eq_true in Hc as [= ->]. eauto 10.
    - intros (ctx & name_loc & call_args & keywords & loc & Hin).
      eexists. split; [by apply list_elem_of_In|].
      simpl. by apply bool_decide_eq_true. }
  split.
  - destruct n as [| | | | | |f| |]; try done.
    destruct f; try done; intros Hr%Hcall; eauto 15.
  - intros (f & name & args & body & decorator_list & returns & -> & Hf & Hc).
    apply Hcall in Hc. by destruct Hf as [-> | ->].
Qed.

(** C2: the run of the complexity visitor over a tree never fails; it sets
    the recursion flag exactly when some function definition of the tree
    holds, anywhere in its subtree, a call whose callee is a bare name equal
    to the function's own name, and its maximal loop depth is the deepest
    nesting of [for]/[while] statements. With the flag set, the time class is
    the recursion label and the space class the recursion-depth label,
    whatever the loop depth; otherwise depth 0 or 1 gives the linear label,
    depth 2 the quadratic label and depth 3 or more the polynomial label. *)
Theorem C2_complexity_classification (tree : ast.py_module) :
  ∃ checker,
    ComplexityVisitor.visit tree ComplexityVisitor.__init__ = Some checker ∧
    ComplexityVisitor.max_loop_depth checker = module_loop_nesting tree ∧
    0 ≤ ComplexityVisitor.max_loop_depth checker ∧
    (ComplexityVisitor.has_recursion checker = true ↔
     ∃ f name args body decorator_list returns,
       N_stmt f ∈ walk.module tree ∧
       (f = ast.FunctionDef name args body decorator_list returns ∨
        f = ast.AsyncFunctionDef name args body decorator_list returns) ∧
       ∃ ctx name_loc call_args keywords loc,
         N_expr (ast.Call (ast.Name name ctx name_loc) call_args keywords loc)
           ∈ walk.stmt f) ∧
    (ComplexityVisitor.has_recursion checker = true →
     _derive_time_complexity checker =
       "Depends on recursion depth; often O(2^n) for naive recursion" ∧
     _derive_space_complexity checker = "O(recursion depth)") ∧
    (ComplexityVisitor.has_recursion checker = false →
     (ComplexityVisitor.max_loop_depth checker = 0 ∨
      ComplexityVisitor.max_loop_depth checker = 1 →
      _derive_time_complexity checker = "Roughly O(n)") ∧
     (ComplexityVisitor.max_loop_depth checker = 2 →
      _derive_time_complexity checker = "Approximately O(n^2)") ∧
     (3 ≤ ComplexityVisitor.max_loop_depth checker →
      _derive_time_complexity checker = "Approximately O(n^k), k > 2") ∧
     _derive_space_complexity checker = "O(1) to O(n) typical for this file").
Proof.
  pose proof (visit_tracks tree ComplexityVisitor.__init__) as Hrun.
  specialize (Hrun ltac:(done)).
  pose proof (max_of_nonneg loop_nesting
                match tree with ast.Module_ body => body end) as Hd.
  eexists. split; [exact Hrun|].
  assert (Z.max 0 (0 + module_loop_nesting tree) = module_loop_nesting tree)
    as Hmax by (destruct tree; simpl in *; lia).
  unfold after, _derive_time_complexity, _derive_space_complexity.
  cbn [ComplexityVisitor.max_loop_depth ComplexityVisitor.has_recursion
       ComplexityVisitor.loop_depth ComplexityVisitor.__init__ orb].
  rewrite Hmax. split; [done|]. split; [by destruct tree|]. split.
  - rewrite existsb_exists. split.
    + intros (n & Hin%list_elem_of_In & Hr%self_recursive_iff).
      destruct Hr as (f & name & args & body & decorator_list & returns
                      & -> & Hf & Hc).
      eauto 15.
    + intros (f & name & args & body & decorator_list & returns & Hin & Hf
              & Hc).
      exists (N_stmt f). split; [by apply list_elem_of_In|].
      apply self_recursive_iff. eauto 15.
  - split; [by intros ->|]. intros ->. repeat split.
    + by intros [-> | ->].
    + by intros ->.
    + intros Hge.
      destruct (Z.eqb_spec (module_loop_nesting tree) 0); [lia|].
      destruct (Z.eqb_spec (module_loop_nesting tree) 1); [lia|].
      destruct (Z.eqb_spec (module_loop_nesting tree) 2); [lia|]. done.
Qed.

(** ** The claims about the aggregation *)

Section aggregation.

Variable runtime_builtins : gset string.
Variable get_source_segment : string → ast.location → option string.
Variable ast_parse : string → parse_outcome.
Variable strip : string → string.

(** What [run_static_checks] returns for a source that parses. *)
Lemma run_static_checks_parsed source tree :
  ast_parse source = Parsed tree →
  parser_shape tree = true →
  ∃ undefined_checker runtime_checker complexity_checker,
    UndefinedNameVisitor.visit get_source_segment tree
      (UndefinedNameVisitor.__init__ runtime_builtins source)
      = Some undefined_checker ∧
    RuntimePatternVisitor.visit get_source_segment tree
      (RuntimePatternVisitor.__init__ source) = Some runtime_checker ∧
    RuntimePatternVisitor.issues runtime_checker =
      walk.module tree ≫= node_findings get_source_segment source ∧
    ComplexityVisitor.visit tree ComplexityVisitor.__init__
      = Some complexity_checker ∧
    run_static_checks runtime_builtins get_source_segment ast_parse source =
    Some (mk_StaticContext
            (map issue_to_dict
               (UndefinedNameVisitor.issues undefined_checker ++
                RuntimePatternVisitor.issues runtime_checker))
            (Some (mk_ComplexityDict
                     (_derive_time_complexity complexity_checker)
                     (_derive_space_complexity complexity_checker)))
            (Some (ComplexityVisitor.has_recursion complexity_checker))
            (Some (ComplexityVisitor.max_loop_depth complexity_checker))).
Proof.
  intros Hparse Hshape.
  destruct (visit_well_reported runtime_builtins get_source_segment tree
              source) as (u & Hu & _).
  destruct (visit_findings get_source_segment tree source Hshape)
    as (p & Hp & _ & Hissues).
  pose proof (visit_tracks tree ComplexityVisitor.__init__ ltac:(done)) as Hc.
  eexists u, p, _. do 3 (split; [done|]). split; [exact Hc|].
  unfold run_static_checks. rewrite Hparse, Hu. simpl. rewrite Hp. simpl.
  by rewrite Hc.
Qed.

End aggregation.

(** C8: for a source that parses, the list of issues [run_static_checks]
    returns has one dictionary for each issue of the undefined-name visitor,
    in the order in which the visitor reported them, followed by one for each
    issue of the pattern visitor (the findings of the nodes in document
    order), and nothing else: the complexity visitor contributes only the
    complexity. Each dictionary has the type, line, snippet, explanation and
    severity of its issue. These are the issues [analyze_python_code] holds
    after its line 59, and they depend on the parser only through the tree:
    a parser that returns the same tree gives the same context. *)
Theorem C8_findings_in_detector_order
    (runtime_builtins : gset string)
    (get_source_segment : string → ast.location → option string)
    (ast_parse ast_parse' : string → parse_outcome) (strip : string → string)
    (source : string) (tree : ast.py_module) :
  ast_parse source = Parsed tree →
  parser_shape tree = true →
  ∃ undefined_checker runtime_checker complexity_checker context,
    UndefinedNameVisitor.visit get_source_segment tree
      (UndefinedNameVisitor.__init__ runtime_builtins source)
      = Some undefined_checker ∧
    RuntimePatternVisitor.visit get_source_segment tree
      (RuntimePatternVisitor.__init__ source) = Some runtime_checker ∧
    RuntimePatternVisitor.issues runtime_checker =
      walk.module tree ≫= node_findings get_source_segment source ∧
    ComplexityVisitor.visit tree ComplexityVisitor.__init__
      = Some complexity_checker ∧
    run_static_checks runtime_builtins get_source_segment ast_parse source
      = Some context ∧
    Forall2
      (λ (issue : RuntimeIssue) (d : IssueDict),
         d_type d = type issue ∧
         d_line d = line issue ∧
         d_snippet d = snippet issue ∧
         d_why d = why issue ∧
         d_severity d = severity issue)
      (UndefinedNameVisitor.issues undefined_checker ++
       RuntimePatternVisitor.issues runtime_checker)
      (sc_issues context) ∧
    length (sc_issues context) =
      (length (UndefinedNameVisitor.issues undefined_checker) +
       length (RuntimePatternVisitor.issues runtime_checker))%nat ∧
    sc_complexity context =
      Some (mk_ComplexityDict (_derive_time_complexity complexity_checker)
              (_derive_space_complexity complexity_checker)) ∧
    static_report runtime_builtins get_source_segment ast_parse strip source
      = Some (sc_issues context, context) ∧
    (ast_parse' source = Parsed tree →
     run_static_checks runtime_builtins get_source_segment ast_parse' source
       = Some context).
Proof.
  intros Hparse Hshape.
  destruct (run_static_checks_parsed runtime_builtins get_source_segment
              ast_parse source tree Hparse Hshape)
    as (u & p & c & Hu & Hp & Hissues & Hc & Hrun).
  eexists u, p, c, _. do 4 (split; [done|]). split; [exact Hrun|].
  cbn [sc_issues sc_complexity]. split; [|split; [|split; [done|split]]].
  - apply Forall2_fmap_r, Forall_Forall2_diag, Forall_forall.
    intros issue _. by unfold issue_to_dict.
  - by rewrite length_map, length_app.
  - unfold static_report. by rewrite Hparse, Hrun.
  - intros Hparse'.
    destruct (run_static_checks_parsed runtime_builtins get_source_segment
                ast_parse' source tree Hparse' Hshape)
      as (u' & p' & c' & Hu' & Hp' & _ & Hc' & Hrun').
    rewrite Hu in Hu'. rewrite Hp in Hp'. rewrite Hc in Hc'.
    injection Hu' as <-. injection Hp' as <-. injection Hc' as <-.
    exact Hrun'.
Qed.

(** Witness for C8: [y = x / 0], where [x] is undefined. There are two
    issues, the undefined name before the division by zero. *)
Lemma C8_witness :
  examples.parse "y = x / 0" = Parsed examples.quotient ∧
  parser_shape examples.quotient = true ∧
  ∃ context first second,
    run_static_checks examples.builtins examples.no_segment examples.parse
      "y = x / 0" = Some context ∧
    sc_issues context = [first; second] ∧
    d_type first = "Potential issue" ∧
    d_type second = "ZeroDivisionError".
Proof.
  assert (examples.parse "y = x / 0" = Parsed examples.quotient) as H1
    by reflexivity.
  assert (parser_shape examples.quotient = true) as H2
    by (vm_compute; reflexivity).
  split; [exact H1|]. split; [exact H2|].
  destruct (C8_findings_in_detector_order examples.builtins
              examples.no_segment examples.parse examples.parse
              examples.strip "y = x / 0" examples.quotient H1 H2)
    as (u & p & c & context & Hu & Hp & _ & _ & Hrun & Hfields & _).
  vm_compute in Hu. injection Hu as <-.
  vm_compute in Hp. injection Hp as <-.
  cbn [UndefinedNameVisitor.issues RuntimePatternVisitor.issues app]
    in Hfields.
  destruct (sc_issues context) as [|first [|second [|third rest]]] eqn:Hissues.
  - exfalso. inversion Hfields.
  - exfalso. inversion Hfields as [|? ? ? ? _ Hrest]. inversion Hrest.
  - exists context, first, second. split; [exact Hrun|].
    split; [exact Hissues|].
    inversion Hfields as [|? ? ? ? (Hfirst & _) Hrest].
    inversion Hrest as [|? ? ? ? (Hsecond & _) _].
    split; [exact Hfirst | exact Hsecond].
  - exfalso. inversion Hfields as [|? ? ? ? _ Hrest].
    inversion Hrest as [|? ? ? ? _ Hrest']. inversion Hrest'.
Defined.




(** ** Sample runs *)

(** [y] is reported once for line 1 and once for line 2; [print] is
    predeclared. *)
Example read_thrice_run :
  (UndefinedNameVisitor.issues <$>
     UndefinedNameVisitor.visit examples.no_segment examples.read_thrice
       (UndefinedNameVisitor.__init__ examples.builtins "")) =
  Some
    [UndefinedNameVisitor.undefined_issue examples.no_segment "" "y"
       (examples.at_line 1);
     UndefinedNameVisitor.undefined_issue examples.no_segment "" "y"
       (examples.at_line 2)].
Proof. vm_compute. reflexivity. Qed.

(** The division of [y = x / 0] is flagged, and [x] is undefined. *)
Example quotient_run :
  (sc_issues <$>
     run_static_checks examples.builtins examples.no_segment examples.parse
       "y = x / 0") =
  Some
    [mk_IssueDict "Potential issue" (Some 1) None
       "Variable 'x' might not be defined before it is used." "warning";
     mk_IssueDict "ZeroDivisionError" (Some 1) None
       "This expression can divide by zero." "warning"].
Proof. vm_compute. reflexivity. Qed.

(** A source that does not parse. *)
Example syntax_error_run :
  analyze_python_code examples.builtins examples.no_segment examples.parse
    examples.strip "y = = 0" true =
  Some
    (Analysed "y = = 0"
       [mk_IssueDict "SyntaxError" (Some 1) (Some "y = = 0") "invalid syntax"
          "error"]
       None).
Proof. vm_compute. reflexivity. Qed.

Example recursive_run :
  ((λ checker,
      (ComplexityVisitor.has_recursion checker,
       _derive_time_complexity checker, _derive_space_complexity checker)) <$>
     ComplexityVisitor.visit examples.recursive ComplexityVisitor.__init__) =
  Some
    (true, "Depends on recursion depth; often O(2^n) for naive recursion",
     "O(recursion depth)").
Proof. vm_compute. reflexivity. Qed.

Example nested_loops_run :
  ((λ checker,
      (ComplexityVisitor.max_loop_depth checker,
       _derive_time_complexity checker)) <$>
     ComplexityVisitor.visit examples.nested_loops ComplexityVisitor.__init__)
  = Some (2, "Approximately O(n^2)").
Proof. vm_compute. reflexivity. Qed.

(** A comprehension over an integer literal is no [for] statement: the
    pattern visitor says nothing, and the undefined-name visitor reports the
    element's read of [i]. *)
Example comprehension_run :
  (RuntimePatternVisitor.issues <$>
     RuntimePatternVisitor.visit examples.no_segment
       examples.comprehension_over_five (RuntimePatternVisitor.__init__ ""))
  = Some [] ∧
  (UndefinedNameVisitor.issues <$>
     UndefinedNameVisitor.visit examples.no_segment
       examples.comprehension_over_five
       (UndefinedNameVisitor.__init__ examples.builtins "")) =
  Some
    [UndefinedNameVisitor.undefined_issue examples.no_segment "" "i"
       (examples.at_line 1)].
Proof. split; vm_compute; reflexivity. Qed.

(** ** The undefined-name visitor: what a statement leaves behind *)

Section growth_lemmas.
Import ast UndefinedNameVisitor.

Variable get_source_segment : string → location → option string.

Lemma is_defined_mono self self' x :
  Forall2 (⊆) (scopes self) (scopes self') →
  _is_defined self x = true → _is_defined self' x = true.
Proof.
  intros Hsub. rewrite !is_defined_iff. intros (frame & Hin & Hx).
  apply list_elem_of_lookup in Hin as [i Hi].
  destruct (Forall2_lookup_l _ _ _ _ _ Hsub Hi) as (frame' & Hi' & Hle).
  exists frame'. split; [by eapply list_elem_of_lookup_2 | set_solver].
Qed.

Lemma unknown_in_mono self self' x :
  Forall2 (⊆) (scopes self) (scopes self') →
  builtins self' = builtins self →
  unknown_in self' x → unknown_in self x.
Proof.
  intros Hsub Hb (Hdef & Hnb & Hc). repeat split; [|congruence|done].
  destruct (_is_defined self x) eqn:Hx; [|done].
  by rewrite (is_defined_mono _ _ _ Hsub Hx) in Hdef.
Qed.

Abbreviation grown := (grows get_source_segment).
Abbreviation within := (inside get_source_segment).

#[local] Instance grows_preorder : PreOrder grown.
Proof.
  split.
  - intros self. repeat split; try done.
    exists []. by rewrite app_nil_r.
  - intros s1 s2 s3 (Hsrc & Hb & Hrl & Hsub & Hseen & new & Hnew & Hall)
      (Hsrc' & Hb' & Hrl' & Hsub' & Hseen' & new' & Hnew' & Hall').
    repeat split; try congruence.
    + by etrans.
    + by etrans.
    + exists (new ++ new'). split.
      * by rewrite Hnew', Hnew, app_assoc.
      * apply Forall_app. split; [done|].
        eapply Forall_impl; [exact Hall'|].
        intros issue (id & loc & -> & Hun). exists id, loc.
        split; [by rewrite Hsrc | by eapply unknown_in_mono].
Qed.

Lemma grows_in_scope self self' : grown self self' → in_scope self → in_scope self'.
Proof.
  intros (_ & _ & _ & Hsub & _) Hne Hnil. apply Hne.
  apply Forall2_length in Hsub. rewrite Hnil in Hsub.
  by apply length_zero_iff_nil.
Qed.

Lemma ensures_in_scope a :
  ensures (λ _, True) grown a → ensures in_scope grown a.
Proof.
  intros Ha self Hne. destruct (Ha self I) as (self' & Hv & _ & Hg).
  exists self'. split; [done|]. split; [by eapply grows_in_scope | done].
Qed.

Lemma report_grows id loc :
  ensures (λ _, True) grown (_report_undefined get_source_segment id loc).
Proof.
  intros self _. unfold _report_undefined, wp. cbn beta.
  destruct (bool_decide (id ∈ builtins self) || _) eqn:Hb.
  { exists self. split; [done|]. split; [done | reflexivity]. }
  apply orb_false_elim in Hb as [Hb%bool_decide_eq_false Hc%bool_decide_eq_false].
  destruct (_is_defined self id) eqn:Hdef.
  { exists self. split; [done|]. split; [done | reflexivity]. }
  destruct (bool_decide ((id, lineno loc) ∈ _seen self)).
  { exists self. split; [done|]. split; [done | reflexivity]. }
  eexists. split; [done|]. split; [done|].
  repeat split; cbn [source builtins scopes _seen issues]; try done.
  - set_solver.
  - eexists. split; [done|]. apply Forall_singleton. by exists id, loc.
Qed.

Lemma visit_expr_grows e :
  ensures (λ _, True) grown (visit_expr get_source_segment e).
Proof.
  induction e using expr_keyword_ind with
    (P0 := λ k, ensures (λ _, True) grown
                  (visit_keyword get_source_segment k)).
  all: repeat match goal with
       | H : list_all _ _ _ |- _ => apply list_all_Forall in H
       end.
  all: simpl;
    repeat first
      [ assumption
      | apply ensures_skip; apply _
      | apply ensures_seq; [apply _| |]
      | apply ensures_for_each; [apply _|] ].
  destruct ctx; (apply report_grows || (apply ensures_skip; apply _)).
Qed.


Lemma removelast_snoc {A} (xs : list A) x : removelast (xs ++ [x]) = xs.
Proof. apply removelast_last. Qed.

Lemma on_top_grows f :
  (∀ top, top ⊆ f top) → ensures in_scope grown (on_top_scope f).
Proof.
  intros Hf self Hne.
  destruct (nonempty_snoc _ Hne) as (below & top & Hsc).
  exists (set_scopes self (below ++ [f top])).
  split; [by apply on_top_scope_snoc|].
  split; [unfold in_scope; simpl; by destruct below|].
  repeat split; simpl; try done.
  - by rewrite Hsc, !removelast_snoc.
  - rewrite Hsc. apply Forall2_app; [done|]. by repeat constructor.
  - exists []. by rewrite app_nil_r.
Qed.

Lemma define_grows name : ensures in_scope grown (_define name).
Proof.
  unfold _define.
  destruct (truthy name && negb (String.prefix "_" name));
    [apply on_top_grows; set_solver|].
  destruct (truthy name);
    [apply on_top_grows; set_solver | apply ensures_skip; apply _].
Qed.

Lemma target_grows target :
  ensures in_scope grown (on_top_scope (_add_target_names target)).
Proof.
  apply on_top_grows. intros top. rewrite add_target_names_union. set_solver.
Qed.

Lemma is_defined_pushed self x :
  _is_defined (set_scopes self (scopes self ++ [∅])) x = _is_defined self x.
Proof.
  apply eq_true_iff_eq. rewrite !is_defined_iff. simpl.
  setoid_rewrite elem_of_app. setoid_rewrite list_elem_of_singleton.
  split.
  - intros (frame & [Hin| ->] & Hx); [eauto|].
    by apply not_elem_of_empty in Hx.
  - intros (frame & Hin & Hx). eauto.
Qed.

Lemma push_inside self : in_scope self → wp _push_scope (within self) self.
Proof.
  intros Hne. eexists. split; [done|]. split; [|reflexivity].
  unfold in_scope. simpl. by destruct (scopes self).
Qed.

Lemma step_inside self a :
  ensures in_scope grown a → preserves (within self) a.
Proof.
  intros Ha now [Hne Hg]. destruct (Ha now Hne) as (now' & Hv & Hne' & Hg').
  exists now'. split; [done|]. split; [done | by etrans].
Qed.

(** Leaving the body: the stack is the one the definition was entered with. *)
Lemma pop_inside self now :
  in_scope self → within self now →
  wp _pop_scope
    (λ self', in_scope self' ∧ grown self self' ∧ scopes self' = scopes self)
    now.
Proof.
  intros Hne [_ (Hsrc & Hb & Hrl & Hsub & Hseen & new & Hnew & Hall)].
  simpl in *. rewrite removelast_snoc in Hrl.
  unfold _pop_scope, wp.
  apply Forall2_length in Hsub. rewrite length_app in Hsub. simpl in Hsub.
  destruct (decide (1 < length (scopes now))%nat) as [_|Hlen].
  2: { unfold in_scope in Hne.
       destruct (scopes self); [done | simpl in *; lia]. }
  eexists. split; [done|]. rewrite Hrl.
  split; [exact Hne|]. split; [|done].
  repeat split; simpl; try done.
  exists new. split; [done|]. eapply Forall_impl; [exact Hall|].
  intros issue (id & loc & -> & Hdef & ? & ?).
  rewrite is_defined_pushed in Hdef. by exists id, loc.
Qed.

Ltac ensures_steps_with tac :=
  repeat first
    [ assumption
    | apply ensures_skip; apply _
    | apply ensures_seq; [apply _| |]
    | apply ensures_in_scope, visit_expr_grows
    | apply target_grows
    | apply define_grows
    | apply ensures_if_some; [apply _|]; intros ? _
    | match goal with
      | H : Forall _ ?xs |- ensures _ _ (for_each _ ?xs) =>
          apply ensures_for_each; [apply _|]; exact H
      end
    | apply ensures_for_each; [apply _|]; apply Forall_all; intros ?
    | match goal with
      | |- ensures _ _ (if ?b then _ else _) => destruct b
      | |- ensures _ _ (match ?x with _ => _ end) => destruct x
      end
    | tac ].

Ltac ensures_steps := ensures_steps_with fail.

(** Opens a frame, runs the steps of the block one by one, closes it. *)
Ltac block_steps_with tac :=
  apply wp_seq; eapply wp_mono; [by apply push_inside|]; intros ? ?;
  repeat (eapply wp_then; only 2: eassumption;
          [apply step_inside; solve [ensures_steps_with tac] | intros ? ?]);
  by apply pop_inside.

Ltac block_grows :=
  let self := fresh "self" in
  let Hne := fresh "Hne" in
  intros self Hne;
  eapply wp_mono; [block_steps_with fail|]; cbn beta;
  intros ? (? & ? & ?); by split.

Lemma visit_stmt_grows s :
  ensures in_scope grown (visit_stmt get_source_segment s).
Proof.
  induction s using stmt_handler_ind with
    (P0 := λ h, ensures in_scope grown
                  (visit_excepthandler get_source_segment h))
    (P1 := λ c, ensures in_scope grown (visit_child get_source_segment c)).
  all: repeat match goal with
       | H : list_all _ _ _ |- _ => apply list_all_Forall in H
       end.
  all: cbn [visit_stmt visit_excepthandler visit_child].
  all: unfold visit_AsyncFunctionDef, visit_FunctionDef, visit_ClassDef,
         visit_ExceptHandler, visit_For, visit_While, visit_With, visit_Assign,
         visit_AnnAssign, visit_AugAssign, visit_Import, visit_ImportFrom,
         _add_function_body, define_optional_arg.
  all: try (timeout 10 (solve [ensures_steps])).
  - apply ensures_seq; [apply _|apply define_grows|]. block_grows.
  - apply ensures_seq; [apply _|apply define_grows|]. block_grows.
  - apply ensures_seq; [apply _|apply define_grows|]. block_grows.
  - block_grows.
Qed.


Lemma for_each_app {S A} (f : A → action S) xs ys self :
  for_each f (xs ++ ys) self = (for_each f xs;; for_each f ys) self.
Proof.
  revert self. induction xs as [|x xs IH]; intros self; simpl; [done|].
  unfold seq. destruct (f x self) as [self'|]; simpl; [|done].
  specialize (IH self'). unfold seq in IH. exact IH.
Qed.

Lemma visit_block_grows body :
  ensures in_scope grown (for_each (visit_stmt get_source_segment) body).
Proof.
  apply ensures_for_each; [apply _|]. apply Forall_all.
  intros s. apply visit_stmt_grows.
Qed.

Lemma visit_value_block_grows value body :
  ensures in_scope grown
    (visit_expr get_source_segment value;;
     for_each (visit_stmt get_source_segment) body).
Proof.
  apply ensures_seq; [apply _| |apply visit_block_grows].
  apply ensures_in_scope, visit_expr_grows.
Qed.

Lemma grows_snoc self self' below top :
  grown self self' → scopes self = below ++ [top] →
  ∃ top', scopes self' = below ++ [top'] ∧ top ⊆ top'.
Proof.
  intros (_ & _ & Hrl & Hsub & _) Hsc. rewrite Hsc in Hrl, Hsub.
  rewrite removelast_snoc in Hrl.
  destruct (nonempty_snoc (scopes self')) as (below' & top' & Hsc').
  { intros Hnil. rewrite Hnil in Hsub. apply Forall2_length in Hsub.
    rewrite length_app in Hsub. simpl in Hsub. lia. }
  rewrite Hsc', removelast_snoc in Hrl. subst below'. rewrite Hsc' in Hsub.
  exists top'. split; [done|].
  apply Forall2_app_inv in Hsub as [_ Htop]; [|done].
  by apply Forall2_cons_1 in Htop as [? _].
Qed.

(** A definition's own frame: the visit leaves the stack it was entered
    with, whatever the steps between push and pop define. *)
Lemma visit_FunctionDef_scopes name args body decorator_list self below top :
  scopes self = below ++ [top] →
  ∃ self',
    visit_FunctionDef get_source_segment (visit_stmt get_source_segment) name
      args body decorator_list self = Some self' ∧
    scopes self' = below ++ [top ∪ names_defined [name]].
Proof.
  intros Hsc. unfold visit_FunctionDef, _add_function_body,
    define_optional_arg.
  erewrite seq_step by by apply adds_define.
  set (self1 := set_scopes self (below ++ [top ∪ names_defined [name]])).
  assert (in_scope self1) as Hne by (unfold in_scope; simpl; by destruct below).
  assert (wp (_push_scope;;
       for_each
         (λ a : arg, if truthy (arg_arg a) then _define (arg_arg a) else skip)
         (posonlyargs args ++ ast.args args ++ kwonlyargs args);;
       match vararg args with
       | Some a => if truthy (arg_arg a) then _define (arg_arg a) else skip
       | None => skip
       end;;
       match kwarg args with
       | Some a => if truthy (arg_arg a) then _define (arg_arg a) else skip
       | None => skip
       end;;
       for_each (visit_expr get_source_segment) decorator_list;;
       for_each (visit_stmt get_source_segment) body;; _pop_scope)
      (λ self', in_scope self' ∧ grown self1 self' ∧
                scopes self' = scopes self1) self1) as (self' & Hv & _ & _ & Hs).
  { block_steps_with ltac:(apply visit_stmt_grows). }
  by exists self'.
Qed.

Lemma visit_ClassDef_scopes name bases body decorator_list self below top :
  scopes self = below ++ [top] →
  ∃ self',
    visit_ClassDef get_source_segment (visit_stmt get_source_segment) name
      bases body decorator_list self = Some self' ∧
    scopes self' = below ++ [top ∪ names_defined [name]].
Proof.
  intros Hsc. unfold visit_ClassDef, _add_function_body.
  erewrite seq_step by by apply adds_define.
  set (self1 := set_scopes self (below ++ [top ∪ names_defined [name]])).
  assert (in_scope self1) as Hne by (unfold in_scope; simpl; by destruct below).
  assert (wp (_push_scope;;
       for_each (visit_expr get_source_segment) bases;;
       for_each (visit_expr get_source_segment) decorator_list;;
       for_each (visit_stmt get_source_segment) body;; _pop_scope)
      (λ self', in_scope self' ∧ grown self1 self' ∧
                scopes self' = scopes self1) self1) as (self' & Hv & _ & _ & Hs).
  { block_steps_with ltac:(apply visit_stmt_grows). }
  by exists self'.
Qed.

Lemma visit_ExceptHandler_scopes name body self :
  in_scope self →
  ∃ self',
    visit_ExceptHandler (visit_stmt get_source_segment) name body self
    = Some self' ∧
    scopes self' = scopes self.
Proof.
  intros Hne. unfold visit_ExceptHandler.
  assert (wp (_push_scope;;
       match name with
       | Some n => if truthy n then _define n else skip
       | None => skip
       end;;
       for_each (visit_stmt get_source_segment) body;; _pop_scope)
      (λ self', in_scope self' ∧ grown self self' ∧
                scopes self' = scopes self) self) as (self' & Hv & _ & _ & Hs).
  { block_steps_with ltac:(apply visit_stmt_grows). }
  by exists self'.
Qed.

End growth_lemmas.

(** X1: a block of statements visited from a non-empty scope stack returns,
    and every finding it adds is the one [_report_undefined] builds for a
    name that, when the block began, was held by no frame of the stack, was
    not predeclared and was none of [None], [True], [False]. A name that is
    visible where a block starts is therefore never reported inside it,
    however deep the functions, classes and handlers of the block nest. *)
Theorem X1_visible_names_are_never_reported
    (get_source_segment : string → ast.location → option string)
    (body : list ast.stmt) (self : UndefinedNameVisitor.t) :
  UndefinedNameVisitor.scopes self ≠ [] →
  ∃ self' new,
    for_each (UndefinedNameVisitor.visit_stmt get_source_segment) body self
    = Some self' ∧
    UndefinedNameVisitor.issues self' =
      UndefinedNameVisitor.issues self ++ new ∧
    Forall
      (λ issue,
         ∃ id loc,
           issue =
           UndefinedNameVisitor.undefined_issue get_source_segment
             (UndefinedNameVisitor.source self) id loc ∧
           UndefinedNameVisitor._is_defined self id = false ∧
           (id ∉ UndefinedNameVisitor.builtins self) ∧
           (id ∉ constant_names))
      new.
Proof.
  intros Hne.
  destruct (visit_block_grows get_source_segment body self Hne)
    as (self' & Hv & _ & _ & _ & _ & _ & _ & new & Hnew & Hall).
  by exists self', new.
Qed.

(** Witness for X1: [x] bound at module level, then [x] and [y] read. *)
Lemma X1_witness :
  UndefinedNameVisitor.scopes samples.knows_x ≠ [] ∧
  ∃ self' new,
    for_each (UndefinedNameVisitor.visit_stmt examples.no_segment)
      samples.reads_x_then_y samples.knows_x = Some self' ∧
    UndefinedNameVisitor.issues self' =
      UndefinedNameVisitor.issues samples.knows_x ++ new ∧
    Forall
      (λ issue,
         ∃ id loc,
           issue =
           UndefinedNameVisitor.undefined_issue examples.no_segment
             (UndefinedNameVisitor.source samples.knows_x) id loc ∧
           UndefinedNameVisitor._is_defined samples.knows_x id = false ∧
           (id ∉ UndefinedNameVisitor.builtins samples.knows_x) ∧
           (id ∉ constant_names))
      new.
Proof.
  assert (UndefinedNameVisitor.scopes samples.knows_x ≠ []) as H1
    by discriminate.
  split; [exact H1|].
  exact (X1_visible_names_are_never_reported examples.no_segment
           samples.reads_x_then_y samples.knows_x H1).
Defined.

(** X2: visiting a statement never touches the frames under the top one and
    never takes a name out of the top frame: from the stack [below ++ [top]]
    the visit returns on a stack [below ++ [top']] with [top ⊆ top']. *)
Theorem X2_enclosing_frames_are_kept
    (get_source_segment : string → ast.location → option string)
    (s : ast.stmt) (self : UndefinedNameVisitor.t)
    (below : list (gset string)) (top : gset string) :
  UndefinedNameVisitor.scopes self = below ++ [top] →
  ∃ self' top',
    UndefinedNameVisitor.visit_stmt get_source_segment s self = Some self' ∧
    UndefinedNameVisitor.scopes self' = below ++ [top'] ∧
    top ⊆ top'.
Proof.
  intros Hsc.
  destruct (visit_stmt_grows get_source_segment s self)
    as (self' & Hv & _ & Hg).
  { unfold in_scope. rewrite Hsc. by destruct below. }
  destruct (grows_snoc _ _ _ _ _ Hg Hsc) as (top' & ? & ?).
  by exists self', top'.
Qed.

(** Witness for X2: a function definition visited below a frame that binds
    [x]. *)
Lemma X2_witness :
  UndefinedNameVisitor.scopes samples.knows_x = [] ++ [{["x"]}] ∧
  ∃ self' top',
    UndefinedNameVisitor.visit_stmt examples.no_segment samples.binds_locally
      samples.knows_x = Some self' ∧
    UndefinedNameVisitor.scopes self' = [] ++ [top'] ∧
    {["x"]} ⊆ top'.
Proof.
  assert (UndefinedNameVisitor.scopes samples.knows_x = [] ++ [{["x"]}])
    as H1 by reflexivity.
  split; [exact H1|].
  exact (X2_enclosing_frames_are_kept examples.no_segment
           samples.binds_locally samples.knows_x [] {["x"]} H1).
Defined.

(** X3: what a function, a class or an exception handler binds in its own
    frame does not outlive it. After a function or class definition the
    stack is the one before it with the definition's name added to the top
    frame (nothing else: no parameter, no local name); after an exception
    handler the stack is exactly the one before it, so the name bound by
    [except ... as name] is gone. *)
Theorem X3_local_names_do_not_leak
    (get_source_segment : string → ast.location → option string)
    (self : UndefinedNameVisitor.t) (below : list (gset string))
    (top : gset string) (name : string) (args : ast.arguments)
    (body : list ast.stmt) (decorator_list bases : list ast.expr)
    (returns type : option ast.expr) (keywords : list ast.keyword)
    (bound : option string) :
  UndefinedNameVisitor.scopes self = below ++ [top] →
  (∃ self',
     UndefinedNameVisitor.visit_stmt get_source_segment
       (ast.FunctionDef name args body decorator_list returns) self
     = Some self' ∧
     UndefinedNameVisitor.scopes self' =
       below ++ [top ∪ names_defined [name]]) ∧
  (∃ self',
     UndefinedNameVisitor.visit_stmt get_source_segment
       (ast.AsyncFunctionDef name args body decorator_list returns) self
     = Some self' ∧
     UndefinedNameVisitor.scopes self' =
       below ++ [top ∪ names_defined [name]]) ∧
  (∃ self',
     UndefinedNameVisitor.visit_stmt get_source_segment
       (ast.ClassDef name bases keywords body decorator_list) self
     = Some self' ∧
     UndefinedNameVisitor.scopes self' =
       below ++ [top ∪ names_defined [name]]) ∧
  (∃ self',
     UndefinedNameVisitor.visit_excepthandler get_source_segment
       (ast.ExceptHandler type bound body) self
     = Some self' ∧
     UndefinedNameVisitor.scopes self' = below ++ [top]).
Proof.
  intros Hsc. repeat split.
  - by apply visit_FunctionDef_scopes.
  - by apply visit_FunctionDef_scopes.
  - by apply visit_ClassDef_scopes.
  - rewrite <- Hsc. apply visit_ExceptHandler_scopes.
    unfold in_scope. rewrite Hsc. by destruct below.
Qed.

(** Witness for X3: [def f(p): q = p] below a frame that binds [x]; neither
    [p] nor [q] is left behind. *)
Lemma X3_witness :
  UndefinedNameVisitor.scopes samples.knows_x = [] ++ [{["x"]}] ∧
  ∃ self',
    UndefinedNameVisitor.visit_stmt examples.no_segment samples.binds_locally
      samples.knows_x = Some self' ∧
    UndefinedNameVisitor.scopes self' =
      [] ++ [{["x"]} ∪ names_defined ["f"]].
Proof.
  assert (UndefinedNameVisitor.scopes samples.knows_x = [] ++ [{["x"]}])
    as H1 by reflexivity.
  split; [exact H1|].
  exact (proj1
           (X3_local_names_do_not_leak examples.no_segment samples.knows_x []
              {["x"]} "f"
              (ast.mk_arguments [] [ast.mk_arg "p" None] None [] [] None [])
              [ast.Assign [ast.Name "q" ast.Store (examples.at_line 2)]
                 (examples.name "p" 2)]
              [] [] None None [] None H1)).
Defined.

(** X4: once a module-level assignment has bound a name, nothing that
    follows reports it. In a run over [pre], then an assignment with [x]
    among its target names, then [post], every finding made from the
    assignment on (its own value included, and every function, class and
    handler of [post]) is about a name other than [x]: all findings about
    [x] are among those of [pre]. *)
Theorem X4_assigned_names_stay_defined
    (runtime_builtins : gset string)
    (get_source_segment : string → ast.location → option string)
    (src : string) (pre post : list ast.stmt) (targets : list ast.expr)
    (value : ast.expr) (x : string) :
  x ∈ ⋃ (target_names <$> targets) →
  ∃ mid final new,
    UndefinedNameVisitor.visit get_source_segment (ast.Module_ pre)
      (UndefinedNameVisitor.__init__ runtime_builtins src) = Some mid ∧
    UndefinedNameVisitor.visit get_source_segment
      (ast.Module_ (pre ++ ast.Assign targets value :: post))
      (UndefinedNameVisitor.__init__ runtime_builtins src) = Some final ∧
    UndefinedNameVisitor.issues final =
      UndefinedNameVisitor.issues mid ++ new ∧
    Forall
      (λ issue,
         ∃ id loc,
           issue =
           UndefinedNameVisitor.undefined_issue get_source_segment src id loc ∧
           id ≠ x)
      new.
Proof.
  intros Hx. cbn [UndefinedNameVisitor.visit].
  set (init := UndefinedNameVisitor.__init__ runtime_builtins src).
  destruct (visit_block_grows get_source_segment pre init)
    as (mid & Hmid & Hne & Hg); [done|].
  destruct (nonempty_snoc _ Hne) as (below & top & Hsc).
  pose proof (adds_targets targets mid below top Hsc) as Htargets.
  set (mid1 := UndefinedNameVisitor.set_scopes mid
                 (below ++ [top ∪ ⋃ (target_names <$> targets)]))
    in Htargets.
  assert (in_scope mid1) as Hne1
    by (unfold in_scope; simpl; by destruct below).
  destruct (visit_value_block_grows get_source_segment value post mid1 Hne1)
    as (final & Hfinal & _ & Hg1).
  destruct Hg1 as (_ & _ & _ & _ & _ & new & Hnew & Hall).
  exists mid, final, new. split; [done|]. split; [|split; [done|]].
  - rewrite for_each_app. erewrite seq_step by exact Hmid.
    cbn [for_each UndefinedNameVisitor.visit_stmt].
    unfold UndefinedNameVisitor.visit_Assign.
    apply seq_Some in Hfinal as (mid2 & Hvalue & Hpost).
    apply seq_Some. exists mid2. split; [|done].
    apply seq_Some. by exists mid1.
  - destruct Hg as (Hsrc & _). eapply Forall_impl; [exact Hall|].
    intros issue (id & loc & -> & Hdef & _). exists id, loc.
    split.
    { change (UndefinedNameVisitor.source mid1)
        with (UndefinedNameVisitor.source mid).
      by rewrite Hsrc. }
    intros ->.
    rewrite (is_defined_top mid1 below
               (top ∪ ⋃ (target_names <$> targets)) x) in Hdef;
      [done | done | set_solver].
Qed.

(** Witness for X4: [x = x + 1] as the only statement. *)
Lemma X4_witness :
  ("x" ∈ ⋃ (target_names <$> [ast.Name "x" ast.Store (examples.at_line 1)])) ∧
  ∃ mid final new,
    UndefinedNameVisitor.visit examples.no_segment (ast.Module_ [])
      (UndefinedNameVisitor.__init__ examples.builtins "") = Some mid ∧
    UndefinedNameVisitor.visit examples.no_segment
      (ast.Module_ ([] ++ [examples.increment]))
      (UndefinedNameVisitor.__init__ examples.builtins "") = Some final ∧
    UndefinedNameVisitor.issues final =
      UndefinedNameVisitor.issues mid ++ new ∧
    Forall
      (λ issue,
         ∃ id loc,
           issue =
           UndefinedNameVisitor.undefined_issue examples.no_segment "" id loc ∧
           id ≠ "x")
      new.
Proof.
  assert ("x" ∈
          ⋃ (target_names <$> [ast.Name "x" ast.Store (examples.at_line 1)]))
    as H1 by (refine (bool_decide_unpack _ _); vm_compute; exact I).
  split; [exact H1|].
  exact (X4_assigned_names_stay_defined examples.builtins examples.no_segment
           "" [] [] [ast.Name "x" ast.Store (examples.at_line 1)]
           (ast.BinOp (examples.name "x" 1) ast.Add
              (ast.Constant (ast.CInt 1) (examples.at_line 1))
              (examples.at_line 1))
           "x" H1).
Defined.

(** X5: a run of the undefined-name visitor over any module returns, and no
    finding of it is about a predeclared name or about [None], [True] or
    [False]: each finding is the one [_report_undefined] builds for a name
    outside both sets. *)
Theorem X5_predeclared_names_are_never_reported
    (runtime_builtins : gset string)
    (get_source_segment : string → ast.location → option string)
    (src : string) (tree : ast.py_module) :
  ∃ checker,
    UndefinedNameVisitor.visit get_source_segment tree
      (UndefinedNameVisitor.__init__ runtime_builtins src) = Some checker ∧
    Forall
      (λ issue,
         ∃ id loc,
           issue =
           UndefinedNameVisitor.undefined_issue get_source_segment src id loc ∧
           (id ∉ runtime_builtins) ∧
           (id ∉ constant_names))
      (UndefinedNameVisitor.issues checker).
Proof.
  destruct tree as [body]. cbn [UndefinedNameVisitor.visit].
  destruct (visit_block_grows get_source_segment body
              (UndefinedNameVisitor.__init__ runtime_builtins src))
    as (checker & Hv & _ & _ & _ & _ & _ & _ & new & Hnew & Hall); [done|].
  exists checker. split; [done|]. rewrite Hnew. simpl.
  eapply Forall_impl; [exact Hall|].
  intros issue (id & loc & -> & _ & ? & ?). by exists id, loc.
Qed.

(** ** The undefined-name visitor: every unknown read is reported *)

Section coverage_lemmas.
Import ast UndefinedNameVisitor.

Variable get_source_segment : string → location → option string.

Lemma covers_weaken nodes nodes' a :
  (∀ id loc,
     N_expr (Name id Load loc) ∈ nodes' → N_expr (Name id Load loc) ∈ nodes) →
  covers nodes a → covers nodes' a.
Proof.
  intros Hsub Ha self Hseen.
  destruct (Ha self Hseen) as (self' & ? & ? & ? & ? & ? & Hreads).
  exists self'. repeat split; try done.
  intros id loc [Hin Hun]. apply Hreads. split; [by apply Hsub | done].
Qed.

Lemma covers_skip nodes :
  (∀ id loc, N_expr (Name id Load loc) ∉ nodes) → covers nodes skip.
Proof.
  intros Hnone self Hseen. exists self. repeat split; try done.
  intros id loc [Hin _]. by apply Hnone in Hin.
Qed.

Lemma covers_seq nodes1 nodes2 a b :
  covers nodes1 a → covers nodes2 b → covers (nodes1 ++ nodes2) (a;; b).
Proof.
  intros Ha Hb self Hseen.
  destruct (Ha self Hseen) as (self1 & Hv1 & Hseen1 & Hsc1 & Hb1 & Hs1 & Hr1).
  destruct (Hb self1 Hseen1)
    as (self2 & Hv2 & Hseen2 & Hsc2 & Hb2 & Hs2 & Hr2).
  exists self2. split; [apply seq_Some; eauto|].
  split; [done|]. split; [congruence|]. split; [congruence|].
  split; [by etrans|].
  intros id loc [Hin (Hdef & Hnb & Hc)].
  apply elem_of_app in Hin as [Hin|Hin].
  - apply Hs2, Hr1. by repeat split.
  - apply Hr2. repeat split; [done| |by rewrite Hb1|done].
    unfold _is_defined. by rewrite Hsc1.
Qed.

Lemma covers_for_each {A} (f : A → action t) (g : A → list node) xs :
  Forall (λ x, covers (g x) (f x)) xs → covers (xs ≫= g) (for_each f xs).
Proof.
  induction 1 as [|x xs Hx _ IH]; cbn [for_each].
  - apply covers_skip. intros id loc Hin. by apply elem_of_nil in Hin.
  - rewrite bind_cons. by apply covers_seq.
Qed.

(** The node at the root of a walk is no read of a name. *)
Lemma covers_node n nodes a :
  (∀ id loc, n ≠ N_expr (Name id Load loc)) →
  covers nodes a → covers (n :: nodes) a.
Proof.
  intros Hn. apply covers_weaken.
  intros id loc [Heq|Hin]%elem_of_cons; [|done]. by destruct (Hn id loc).
Qed.

Lemma covers_report id loc :
  covers [N_expr (Name id Load loc)]
    (_report_undefined get_source_segment id loc).
Proof.
  intros self Hseen. unfold _report_undefined.
  assert (∀ id' loc',
            unknown_read self [N_expr (Name id Load loc)] id' loc' →
            id' = id ∧ loc' = loc ∧ unknown_in self id) as Hread.
  { intros id' loc' [Hin Hun]. apply list_elem_of_singleton in Hin.
    by simplify_eq. }
  destruct (bool_decide (id ∈ builtins self) || _) eqn:Hb.
  { exists self. repeat split; try done.
    intros id' loc' (-> & -> & _ & Hnb & Hc)%Hread.
    apply orb_true_iff in Hb as [Hb%bool_decide_eq_true|Hb%bool_decide_eq_true];
      done. }
  destruct (_is_defined self id) eqn:Hdef.
  { exists self. repeat split; try done.
    intros id' loc' (-> & -> & Hdef' & _)%Hread. congruence. }
  destruct (bool_decide ((id, lineno loc) ∈ _seen self)) eqn:Hs.
  { apply bool_decide_eq_true in Hs. exists self. repeat split; try done.
    by intros id' loc' (-> & -> & _)%Hread. }
  eexists. split; [done|]. cbn [scopes builtins _seen issues].
  repeat split; try done.
  - intros id' l [Hin|Hin%elem_of_singleton]%elem_of_union.
    + destruct (Hseen id' l Hin) as (issue & ? & ?). exists issue.
      split; [|done]. apply elem_of_app. by left.
    + injection Hin as -> ->. eexists. split.
      * apply elem_of_app. right. apply list_elem_of_singleton. reflexivity.
      * apply finding_key_issue.
  - apply union_subseteq_l.
  - intros id' loc' (-> & -> & _)%Hread. apply elem_of_union. right.
    by apply elem_of_singleton.
Qed.

Lemma visit_expr_covers e :
  covers (walk.expr e) (visit_expr get_source_segment e).
Proof.
  induction e using expr_keyword_ind with
    (P0 := λ k, covers (walk.keyword k) (visit_keyword get_source_segment k)).
  all: repeat match goal with
       | H : list_all _ _ _ |- _ => apply list_all_Forall in H
       end.
  all: cbn [walk.expr walk.keyword visit_expr visit_keyword].
  all: try (apply covers_node; [done|]).
  all: repeat first
         [ assumption
         | apply covers_seq
         | match goal with
           | H : Forall _ ?xs |- covers (?xs ≫= _) (for_each _ ?xs) =>
               apply covers_for_each; exact H
           end
         | apply covers_skip; intros ? ? ?%elem_of_nil; done ].
  destruct ctx; unfold visit_Name.
  - apply covers_report.
  - apply covers_skip. intros id' loc' Hin.
    by apply list_elem_of_singleton in Hin.
  - apply covers_skip. intros id' loc' Hin.
    by apply list_elem_of_singleton in Hin.
Qed.

End coverage_lemmas.

(** X6: within one expression every read of an unknown name is reported.
    From a state whose [_seen] pairs all have their finding (the fresh
    visitor is one, and the walk keeps it so), the walk of an expression
    returns, and for every name node in load context of the expression whose
    identifier is in no frame, not predeclared and none of [None], [True],
    [False], the issues afterwards hold a finding with that identifier and
    that node's line. *)
Theorem X6_unknown_reads_are_reported
    (get_source_segment : string → ast.location → option string)
    (e : ast.expr) (self : UndefinedNameVisitor.t) :
  seen_reported self →
  ∃ self',
    UndefinedNameVisitor.visit_expr get_source_segment e self = Some self' ∧
    seen_reported self' ∧
    ∀ id loc,
      N_expr (ast.Name id ast.Load loc) ∈ walk.expr e →
      UndefinedNameVisitor._is_defined self id = false →
      id ∉ UndefinedNameVisitor.builtins self →
      id ∉ constant_names →
      ∃ issue,
        issue ∈ UndefinedNameVisitor.issues self' ∧
        finding_key issue = (id, Some (ast.lineno loc)).
Proof.
  intros Hseen.
  destruct (visit_expr_covers get_source_segment e self Hseen)
    as (self' & Hv & Hseen' & _ & _ & _ & Hreads).
  exists self'. split; [done|]. split; [done|].
  intros id loc Hin Hdef Hnb Hc. apply Hseen', Hreads. by repeat split.
Qed.

(** Witness for X6: [i + len(j)] walked by the fresh visitor. *)
Lemma X6_witness :
  seen_reported (UndefinedNameVisitor.__init__ examples.builtins "") ∧
  ∃ self',
    UndefinedNameVisitor.visit_expr examples.no_segment
      samples.sum_of_unknowns
      (UndefinedNameVisitor.__init__ examples.builtins "") = Some self' ∧
    seen_reported self' ∧
    ∀ id loc,
      N_expr (ast.Name id ast.Load loc) ∈ walk.expr samples.sum_of_unknowns →
      UndefinedNameVisitor._is_defined
        (UndefinedNameVisitor.__init__ examples.builtins "") id = false →
      id ∉ UndefinedNameVisitor.builtins
             (UndefinedNameVisitor.__init__ examples.builtins "") →
      id ∉ constant_names →
      ∃ issue,
        issue ∈ UndefinedNameVisitor.issues self' ∧
        finding_key issue = (id, Some (ast.lineno loc)).
Proof.
  assert (seen_reported (UndefinedNameVisitor.__init__ examples.builtins ""))
    as H1 by (intros id l Hin; by apply not_elem_of_empty in Hin).
  split; [exact H1|].
  exact (X6_unknown_reads_are_reported examples.no_segment
           samples.sum_of_unknowns
           (UndefinedNameVisitor.__init__ examples.builtins "") H1).
Defined.

(** ** The undefined-name visitor: imports and loops *)

Section binding_lemmas.
Import ast UndefinedNameVisitor.

Variable get_source_segment : string → location → option string.

Lemma adds_visit_Import names :
  adds (names_defined (import_binding <$> names)) (visit_Import names).
Proof.
  unfold visit_Import.
  induction names as [|alias names IH]; cbn [for_each fmap list_fmap].
  - apply adds_skip.
  - eapply adds_ext; [apply adds_seq; [apply adds_define | exact IH]|].
    by rewrite <- names_defined_app.
Qed.

Lemma adds_visit_ImportFrom names :
  adds
    (names_defined
       (import_from_binding <$> filter (λ alias, alias_name alias ≠ "*") names))
    (visit_ImportFrom names).
Proof.
  unfold visit_ImportFrom.
  induction names as [|alias names IH]; cbn [for_each].
  - apply adds_skip.
  - destruct (String.eqb (alias_name alias) "*") eqn:Hstar.
    + apply String.eqb_eq in Hstar.
      rewrite filter_cons_False by (intros Hne; by apply Hne).
      eapply adds_ext; [apply adds_seq; [apply adds_skip | exact IH]|].
      by rewrite (left_id_L ∅ (∪)).
    + apply String.eqb_neq in Hstar. rewrite filter_cons_True by done.
      rewrite fmap_cons.
      eapply adds_ext; [apply adds_seq; [apply adds_define | exact IH]|].
      by rewrite <- names_defined_app.
Qed.

End binding_lemmas.

(** X7: what the two import statements bind. [import] adds to the top frame,
    for each alias, its [as] name or else the part of the module path before
    the first dot; [from ... import] adds the [as] name or else the imported
    name, and nothing for the alias [*]. Empty names are skipped; nothing
    else of the visitor changes. *)
Theorem X7_import_bindings
    (get_source_segment : string → ast.location → option string)
    (self : UndefinedNameVisitor.t) (below : list (gset string))
    (top : gset string) (names : list ast.alias)
    (module : option ast.identifier) (level : Z) :
  UndefinedNameVisitor.scopes self = below ++ [top] →
  UndefinedNameVisitor.visit_stmt get_source_segment (ast.Import names) self
  = Some
      (UndefinedNameVisitor.set_scopes self
         (below ++ [top ∪ names_defined (import_binding <$> names)])) ∧
  UndefinedNameVisitor.visit_stmt get_source_segment
    (ast.ImportFrom module names level) self
  = Some
      (UndefinedNameVisitor.set_scopes self
         (below ++
          [top ∪
           names_defined
             (import_from_binding <$>
              filter (λ alias, ast.alias_name alias ≠ "*") names)])).
Proof.
  intros Hsc. split.
  - by apply adds_visit_Import.
  - by apply adds_visit_ImportFrom.
Qed.

(** Witness for X7: [import os.path] and [import numpy as np] seen by the
    fresh visitor. *)
Lemma X7_witness :
  UndefinedNameVisitor.scopes
    (UndefinedNameVisitor.__init__ examples.builtins "") = [] ++ [∅] ∧
  UndefinedNameVisitor.visit_stmt examples.no_segment
    (ast.Import samples.imported)
    (UndefinedNameVisitor.__init__ examples.builtins "")
  = Some
      (UndefinedNameVisitor.set_scopes
         (UndefinedNameVisitor.__init__ examples.builtins "")
         ([] ++ [∅ ∪ names_defined (import_binding <$> samples.imported)])).
Proof.
  assert (UndefinedNameVisitor.scopes
            (UndefinedNameVisitor.__init__ examples.builtins "") = [] ++ [∅])
    as H1 by reflexivity.
  split; [exact H1|].
  exact (proj1
           (X7_import_bindings examples.no_segment
              (UndefinedNameVisitor.__init__ examples.builtins "") [] ∅
              samples.imported None 0 H1)).
Defined.

(** X8: a [for] statement walks its iterable before it binds the loop
    variables, and keeps them bound afterwards. For a name [x] among the
    target names of the loop, visited from a non-empty stack: the iterable
    is walked first, in the state the loop was reached in (so an unknown
    [x] read there is reported); every finding made after that, in the body
    and in the [else] block, is about a name other than [x]; and [x] is
    still visible when the visit of the loop returns. *)
Theorem X8_loop_variables_bound_after_iterable
    (get_source_segment : string → ast.location → option string)
    (self : UndefinedNameVisitor.t) (target iter : ast.expr)
    (body orelse : list ast.stmt) (x : string) :
  UndefinedNameVisitor.scopes self ≠ [] →
  x ∈ target_names target →
  ∃ self1 final new,
    UndefinedNameVisitor.visit_expr get_source_segment iter self = Some self1 ∧
    UndefinedNameVisitor.visit_stmt get_source_segment
      (ast.For target iter body orelse) self = Some final ∧
    UndefinedNameVisitor.issues final =
      UndefinedNameVisitor.issues self1 ++ new ∧
    Forall
      (λ issue,
         ∃ id loc,
           issue =
           UndefinedNameVisitor.undefined_issue get_source_segment
             (UndefinedNameVisitor.source self) id loc ∧
           id ≠ x)
      new ∧
    UndefinedNameVisitor._is_defined final x = true.
Proof.
  intros Hne Hx.
  destruct (visit_expr_any get_source_segment iter self I)
    as (self1 & Hiter & _ & Hsrc & Hsc & _).
  destruct (nonempty_snoc _ Hne) as (below & top & Hself).
  rewrite <- Hsc in Hself.
  pose proof (adds_target target self1 below top Hself) as Htarget.
  set (self2 := UndefinedNameVisitor.set_scopes self1
                  (below ++ [top ∪ target_names target])) in Htarget.
  assert (in_scope self2) as Hne2
    by (unfold in_scope; simpl; by destruct below).
  assert (ensures in_scope (grows get_source_segment)
            (for_each (UndefinedNameVisitor.visit_stmt get_source_segment)
               body;;
             for_each (UndefinedNameVisitor.visit_stmt get_source_segment)
               orelse)) as Hblocks.
  { apply ensures_seq;
      [apply grows_preorder | apply visit_block_grows..]. }
  destruct (Hblocks self2 Hne2) as (final & Hfinal & _ & Hg).
  destruct (grows_snoc _ _ _ _ _ Hg eq_refl) as (top' & Hsc' & Htop).
  destruct Hg as (_ & _ & _ & _ & _ & new & Hnew & Hall).
  exists self1, final, new. split; [done|]. split; [|split; [done|split]].
  - cbn [UndefinedNameVisitor.visit_stmt].
    unfold UndefinedNameVisitor.visit_For.
    erewrite seq_step by exact Hiter.
    by erewrite seq_step by exact Htarget.
  - eapply Forall_impl; [exact Hall|].
    intros issue (id & loc & -> & Hdef & _). exists id, loc.
    split.
    { change (UndefinedNameVisitor.source self2)
        with (UndefinedNameVisitor.source self1).
      by rewrite Hsrc. }
    intros ->.
    rewrite (is_defined_top self2 below (top ∪ target_names target) x) in Hdef;
      [done | done | set_solver].
  - apply (is_defined_top final below top' x Hsc'). set_solver.
Qed.

(** Witness for X8: [for x in x: x] seen by the fresh visitor. *)
Lemma X8_witness :
  UndefinedNameVisitor.scopes
    (UndefinedNameVisitor.__init__ examples.builtins "") ≠ [] ∧
  ("x" ∈ target_names (ast.Name "x" ast.Store (examples.at_line 1))) ∧
  ∃ self1 final new,
    UndefinedNameVisitor.visit_expr examples.no_segment (examples.name "x" 1)
      (UndefinedNameVisitor.__init__ examples.builtins "") = Some self1 ∧
    UndefinedNameVisitor.visit_stmt examples.no_segment
      samples.loop_over_itself
      (UndefinedNameVisitor.__init__ examples.builtins "") = Some final ∧
    UndefinedNameVisitor.issues final =
      UndefinedNameVisitor.issues self1 ++ new ∧
    Forall
      (λ issue,
         ∃ id loc,
           issue =
           UndefinedNameVisitor.undefined_issue examples.no_segment
             (UndefinedNameVisitor.source
                (UndefinedNameVisitor.__init__ examples.builtins "")) id loc ∧
           id ≠ "x")
      new ∧
    UndefinedNameVisitor._is_defined final "x" = true.
Proof.
  assert (UndefinedNameVisitor.scopes
            (UndefinedNameVisitor.__init__ examples.builtins "") ≠ [])
    as H1 by discriminate.
  assert ("x" ∈ target_names (ast.Name "x" ast.Store (examples.at_line 1)))
    as H2 by (refine (bool_decide_unpack _ _); vm_compute; exact I).
  split; [exact H1|]. split; [exact H2|].
  exact (X8_loop_variables_bound_after_iterable examples.no_segment
           (UndefinedNameVisitor.__init__ examples.builtins "")
           (ast.Name "x" ast.Store (examples.at_line 1))
           (examples.name "x" 1) [ast.Expr (examples.name "x" 1)] [] "x"
           H1 H2).
Defined.

(** ** [_normalize_clusters] *)

Lemma type_NameError_cases (items : dict) :
  items !! "type" = Some (JStr "NameError") ∨
  items !! "type" ≠ Some (JStr "NameError").
Proof.
  destruct (items !! "type") as [[| | | |s| |]|]; try (by right).
  destruct (String.eqb_spec s "NameError") as [->|Hne]; [by left|].
  right. by intros [= ->].
Qed.

Lemma normalize_cluster_NameError (items : dict) :
  items !! "type" = Some (JStr "NameError") →
  normalize_cluster (JDict items) =
  Some (JDict (<["type" := JStr "Potential issue"]> items)).
Proof. intros Htype. unfold normalize_cluster. by rewrite Htype. Qed.

Lemma normalize_cluster_other (items : dict) :
  items !! "type" ≠ Some (JStr "NameError") →
  normalize_cluster (JDict items) = Some (JDict items).
Proof.
  intros Htype. unfold normalize_cluster.
  destruct (items !! "type") as [[| | | |s| |]|]; try reflexivity.
  repeat (destruct s as [|[[] [] [] [] [] [] [] []] s]; try reflexivity).
  by destruct Htype.
Qed.

(** One dictionary: the result is a dictionary without the type
    ["NameError"], equal to the argument at every other key, and normalised
    again it stays as it is. *)
Lemma normalize_cluster_dict (items : dict) :
  ∃ items' : dict,
    normalize_cluster (JDict items) = Some (JDict items') ∧
    items' !! "type" ≠ Some (JStr "NameError") ∧
    (∀ key, key ≠ "type" → items' !! key = items !! key) ∧
    (items !! "type" ≠ Some (JStr "NameError") → items' = items) ∧
    (items !! "type" = Some (JStr "NameError") →
     items' !! "type" = Some (JStr "Potential issue")).
Proof.
  destruct (type_NameError_cases items) as [Htype|Htype].
  - exists (<["type" := JStr "Potential issue"]> items).
    split; [by apply normalize_cluster_NameError|].
    split; [by rewrite lookup_insert_eq|].
    split; [intros key Hkey; by rewrite lookup_insert_ne|].
    split; [done|]. intros _. by rewrite lookup_insert_eq.
  - exists items. split; [by apply normalize_cluster_other|]. by repeat split.
Qed.

Lemma normalize_clusters_dicts (clusters : list (gmap string json)) :
  ∃ clusters' : list (gmap string json),
    mapM normalize_cluster (JDict <$> clusters) = Some (JDict <$> clusters') ∧
    Forall (λ items', items' !! "type" ≠ Some (JStr "NameError")) clusters' ∧
    Forall2
      (λ items items' : gmap string json,
         (∀ key, key ≠ "type" → items' !! key = items !! key) ∧
         (items !! "type" ≠ Some (JStr "NameError") → items' = items) ∧
         (items !! "type" = Some (JStr "NameError") →
          items' !! "type" = Some (JStr "Potential issue")))
      clusters clusters'.
Proof.
  induction clusters as [|items clusters (clusters' & Hrest & Hall & Hrel)].
  - exists []. by repeat split.
  - destruct (normalize_cluster_dict items)
      as (items' & Hone & Htype & Hkeys & Hsame & Hnew).
    exists (items' :: clusters'). split; [|split].
    + rewrite fmap_cons. cbn [mapM]. rewrite Hone. simpl.
      by rewrite Hrest.
    + by constructor.
    + by constructor.
Qed.

Lemma normalize_clusters_fixed (clusters : list (gmap string json)) :
  Forall (λ items, items !! "type" ≠ Some (JStr "NameError")) clusters →
  _normalize_clusters (JList (JDict <$> clusters)) =
  Some (JList (JDict <$> clusters)).
Proof.
  intros Hall. unfold _normalize_clusters.
  rewrite (mapM_Some_2 _ _ (JDict <$> clusters)); [done|].
  apply Forall2_fmap, Forall_Forall2_diag.
  eapply Forall_impl; [exact Hall|]. intros items.
  apply normalize_cluster_other.
Qed.

(** X9: on a list of dictionaries [_normalize_clusters] returns a list of
    dictionaries of the same length in which no cluster has the type
    ["NameError"] any more: a cluster of that type has become a
    ["Potential issue"], a cluster of any other type (or of none) is
    returned as it was, and no other key of any cluster has changed.
    Normalising the result again changes nothing. *)
Theorem X9_normalize_clusters_renames_NameError
    (clusters : list (gmap string json)) :
  ∃ clusters' : list (gmap string json),
    _normalize_clusters (JList (JDict <$> clusters)) =
      Some (JList (JDict <$> clusters')) ∧
    length clusters' = length clusters ∧
    Forall (λ items', items' !! "type" ≠ Some (JStr "NameError")) clusters' ∧
    Forall2
      (λ items items' : gmap string json,
         (∀ key, key ≠ "type" → items' !! key = items !! key) ∧
         (items !! "type" ≠ Some (JStr "NameError") → items' = items) ∧
         (items !! "type" = Some (JStr "NameError") →
          items' !! "type" = Some (JStr "Potential issue")))
      clusters clusters' ∧
    _normalize_clusters (JList (JDict <$> clusters')) =
      Some (JList (JDict <$> clusters')).
Proof.
  destruct (normalize_clusters_dicts clusters)
    as (clusters' & Hrun & Hall & Hrel).
  exists clusters'. split; [|split; [|split; [done|split; [done|]]]].
  - unfold _normalize_clusters. by rewrite Hrun.
  - symmetry. by eapply Forall2_length.
  - by apply normalize_clusters_fixed.
Qed.

(** X10: when [_normalize_clusters] raises. It returns for a list whose
    elements are all dictionaries, for the empty string and for the empty
    dictionary, and for nothing else: [None], a number, a non-empty string
    or dictionary, and a list holding anything that is no dictionary all
    make it raise. *)
Theorem X10_normalize_clusters_raises (clusters : json) :
  is_Some (_normalize_clusters clusters) ↔
  (∃ dicts : list (gmap string json), clusters = JList (JDict <$> dicts)) ∨
  clusters = JStr "" ∨
  clusters = JDict ∅.
Proof.
  split.
  - destruct clusters as [| | | |s|items|items]; simpl;
      try (by intros [? [=]]).
    + destruct s; simpl; [auto | by intros [? [=]]].
    + intros Hsome. left.
      apply fmap_is_Some, mapM_is_Some in Hsome.
      induction Hsome as [|cluster items Hcluster _ (dicts & [= ->])].
      * by exists [].
      * destruct cluster as [| | | | | |d]; try (by destruct Hcluster as [? [=]]).
        by exists (d :: dicts).
    + destruct (bool_decide (dom items = ∅)) eqn:Hdom; simpl;
        [|by intros [? [=]]].
      apply bool_decide_eq_true, dom_empty_iff_L in Hdom. subst. auto.
  - intros [[dicts ->]|[->| ->]]; [|done..].
    destruct (normalize_clusters_dicts dicts) as (clusters' & Hrun & _).
    unfold _normalize_clusters. by rewrite Hrun.
Qed.

(** ** The static layer as the feedback layer sees it *)

Section static_layer.

Variable runtime_builtins : gset string.
Variable get_source_segment : string → ast.location → option string.
Variable ast_parse : string → parse_outcome.
Variable strip : string → string.

Lemma node_findings_kinds src n :
  Forall (λ issue, static_kind (issue_to_dict issue))
    (node_findings get_source_segment src n).
Proof.
  unfold node_findings, division_finding, loop_finding, comparison_finding.
  repeat apply Forall_app_2.
  all: repeat case_match; repeat constructor.
  all: unfold static_kind, static_kinds; cbn; try by eexists.
  all: set_solver.
Qed.

Lemma static_kind_type d : static_kind d → d_type d ≠ "NameError".
Proof.
  intros [Hkind _] Htype. unfold static_kinds in Hkind.
  rewrite Htype in Hkind.
  repeat (apply elem_of_cons in Hkind as [[=]|Hkind]).
  by apply elem_of_nil in Hkind.
Qed.

Lemma static_issues_normalized issues :
  Forall static_kind issues →
  _normalize_clusters (JList (json_of_issue <$> issues)) =
  Some (JList (json_of_issue <$> issues)).
Proof.
  intros Hall. unfold json_of_issue.
  rewrite (list_fmap_compose dict_of_issue JDict).
  apply normalize_clusters_fixed, Forall_fmap.
  eapply Forall_impl; [exact Hall|]. intros d Hd%static_kind_type. simpl.
  unfold dict_of_issue. rewrite lookup_insert_eq. by intros [= ?].
Qed.

(** What [analyze_python_code] hands to the feedback layer, and when it
    raises instead. *)
Lemma analysed_static_kinds code include_complexity :
  (∀ source tree, ast_parse source = Parsed tree → parser_shape tree = true) →
  match
    analyze_python_code runtime_builtins get_source_segment ast_parse strip
      code include_complexity
  with
  | None => strip code ≠ "" ∧ ast_parse (strip code) = RaisedOther
  | Some NoCodeProvided => strip code = ""
  | Some (Analysed source issues complexity) =>
      source = strip code ∧ source ≠ "" ∧
      ast_parse source ≠ RaisedOther ∧
      Forall static_kind issues ∧
      (include_complexity = false → complexity = None)
  end.
Proof.
  intros Hshape. unfold analyze_python_code, static_report.
  destruct (String.eqb_spec (strip code) "") as [Hempty|Hcode]; [done|].
  destruct (ast_parse (strip code)) as [tree|exc|] eqn:Hparse.
  - destruct (run_static_checks_parsed runtime_builtins get_source_segment
                ast_parse (strip code) tree Hparse (Hshape _ _ Hparse))
      as (u & p & c & Hu & Hp & Hissues & Hc & ->).
    cbn [mbind option_bind fst snd sc_issues sc_complexity].
    split; [done|]. split; [done|]. split; [by rewrite Hparse|].
    split; [|by intros ->].
    rewrite Forall_map. apply Forall_app. split.
    + destruct (visit_well_reported runtime_builtins get_source_segment tree
                  (strip code)) as (u' & Hu' & _ & [[_ Hall] _]).
      assert (u' = u) as -> by congruence.
      eapply Forall_impl; [exact Hall|]. intros issue (id & loc & ->).
      split; [set_solver | by eexists].
    + rewrite Hissues. apply Forall_bind, Forall_all. intros n.
      apply node_findings_kinds.
  - cbn [mbind option_bind fst snd sc_issues sc_complexity].
    split; [done|]. split; [done|]. split; [by rewrite Hparse|].
    split; [|by destruct include_complexity]. apply Forall_singleton.
    split; [set_solver | by eexists].
  - by split.
Qed.

End static_layer.



(** X12: the default hints. Their number is the hint level clamped to
    1..3, plus one when there are no issues; their levels are the first
    that many of beginner, intermediate, near_solution in this order,
    followed by one more beginner hint when there are no issues. A level
    below 1 counts as 1 and a level above 3 as 3, so there are never fewer
    than one hint and never more than four. *)
Theorem X12_default_hints (issues : list IssueDict) (hint_level : Z) :
  let depth := Z.to_nat (Z.max 1 (Z.min 3 hint_level)) in
  let hints := _default_hints_from_issues issues hint_level in
  models.level <$> hints =
    take depth ["beginner"; "intermediate"; "near_solution"] ++
    (if list_bool issues then [] else ["beginner"]) ∧
  length hints = (depth + (if list_bool issues then 0 else 1))%nat ∧
  (1 ≤ length hints ≤ 4)%nat.
Proof.
  unfold _default_hints_from_issues. cbv zeta.
  destruct (Z.leb_spec 2 (Z.max 1 (Z.min 3 hint_level))) as [H2|H2];
    destruct (Z.leb_spec 3 (Z.max 1 (Z.min 3 hint_level))) as [H3|H3];
    try lia.
  - replace (Z.max 1 (Z.min 3 hint_level)) with 3 by lia.
    destruct issues; simpl; repeat split; lia.
  - replace (Z.max 1 (Z.min 3 hint_level)) with 2 by lia.
    destruct issues; simpl; repeat split; lia.
  - replace (Z.max 1 (Z.min 3 hint_level)) with 1 by lia.
    destruct issues; simpl; repeat split; lia.
Qed.

(** ** [llm.py]: what [generate_feedback] returns *)

Lemma substring_zero i s : substring i 0 s = "".
Proof.
  revert i. induction s as [|c s IH]; intros [|i]; simpl; try done.
Qed.

Lemma find_substring c s i n :
  find c s = Some i → ∃ rest, substring i (S n) s = String c rest.
Proof.
  revert i. induction s as [|d s IH]; intros i; simpl; [done|].
  destruct (Ascii.eqb_spec d c) as [->|Hne].
  - intros [= <-]. eauto.
  - destruct (find c s) as [j|]; [|done]. intros [= <-]. simpl. by apply IH.
Qed.

(** The text handed to the JSON parser is empty or starts with a brace. *)
Lemma slice_braces candidate start end_ :
  find "{" candidate = Some start →
  slice start (end_ + 1) candidate = "" ∨
  String.prefix "{" (slice start (end_ + 1) candidate) = true.
Proof.
  intros Hfind. unfold slice.
  destruct (end_ + 1 - start)%nat as [|n]; [left; apply substring_zero|].
  right. destruct (find_substring _ _ _ n Hfind) as (rest & ->).
  simpl. destruct (ascii_dec "{" "{"); [by destruct rest | done].
Qed.

Section feedback_lemmas.

Variable fence_group : string → option string.
Variable strip : string → string.
Variable json_loads : string → loads_outcome.
Variable environ : gmap string string.
Variable int : string → option Z.
Variable prompt : string → list IssueDict → Z → bool → bool → string.
Variable post : string → string → Z → option string.

Hypothesis loads_empty : json_loads "" = JSONDecodeError.
Hypothesis loads_object :
  ∀ s v,
    String.prefix "{" s = true → json_loads s = Loaded v →
    ∃ items, v = JDict items.

Lemma extract_json_dict text v :
  _extract_json fence_group strip json_loads text = Some (Some v) →
  ∃ items, v = JDict items.
Proof.
  unfold _extract_json. destruct (negb (str_bool text)); [done|].
  set (candidate := match fence_group text with
                    | Some group => strip group
                    | None => strip text
                    end).
  destruct (find "{" candidate) as [start|] eqn:Hstart; [|done].
  destruct (rfind "}" candidate) as [end_|]; [|done].
  unfold loads_or_None.
  destruct (slice_braces candidate start end_ Hstart) as [->|Hprefix].
  - by rewrite loads_empty.
  - destruct (json_loads (slice start (end_ + 1) candidate))
      as [value| |] eqn:Hloads; [|done..].
    intros [= ->]. by eapply loads_object.
Qed.

(** [generate_feedback] raises exactly when [_call_gemini] does or
    [_extract_json] does on the reply. *)
Lemma generate_feedback_raises code issues hint_level include_complexity
    include_solution complexity :
  generate_feedback fence_group strip json_loads environ int prompt post code
    issues hint_level include_complexity include_solution complexity = None ↔
  _call_gemini strip environ int post
    (prompt code issues hint_level include_complexity include_solution)
  = None ∨
  ∃ text,
    _call_gemini strip environ int post
      (prompt code issues hint_level include_complexity include_solution)
    = Some (Some text) ∧
    _extract_json fence_group strip json_loads text = None.
Proof.
  unfold generate_feedback.
  destruct (_call_gemini _ _ _ _ _) as [[text|]|]; cbn [mbind option_bind].
  - destruct (str_bool text) eqn:Htext.
    + destruct (_extract_json _ _ _ text) as [[v|]|] eqn:Hv;
        cbn [mbind option_bind].
      * destruct (extract_json_dict _ _ Hv) as (items & ->).
        split; [by destruct (negb _)|].
        intros [|(? & [= <-] & ?)]; [done | congruence].
      * split; [done|]. intros [|(? & [= <-] & ?)]; [done | congruence].
      * split; [|done]. intros _. right. by exists text.
    + cbn [mbind option_bind]. split; [done|].
      intros [|(? & [= <-] & Hraise)]; [done|].
      unfold _extract_json in Hraise. by rewrite Htext in Hraise.
  - split; [done | by intros [|(? & [=] & ?)]].
  - split; [by left | done].
Qed.

End feedback_lemmas.

Lemma dom_insert_within (key : string) (v : json) (m : gmap string json)
    (keys : gset string) :
  key ∈ keys → dom m ⊆ keys → dom (<[key := v]> m) ⊆ keys.
Proof.
  intros Hkey Hm. rewrite dom_insert_L. apply union_subseteq.
  split; [by apply singleton_subseteq_l | done].
Qed.

Ltac in_union :=
  first
    [ apply elem_of_singleton; reflexivity
    | apply elem_of_union;
      first [left; apply elem_of_singleton; reflexivity | right; in_union] ].

Ltac in_keys :=
  first
    [ in_union
    | apply elem_of_list_to_set;
      cbv [feedback_keys optional_feedback_keys app];
      repeat first [apply list_elem_of_here | apply list_elem_of_further] ].

Ltac within_keys :=
  repeat (apply dom_insert_within; [in_keys|]);
  try (rewrite dom_empty_L; apply empty_subseteq).

Ltac lookups :=
  repeat first
    [ rewrite lookup_insert_eq
    | rewrite lookup_insert_ne by done
    | rewrite lookup_delete_eq
    | rewrite lookup_delete_ne by done
    | rewrite lookup_empty
    | rewrite bool_decide_eq_true_2 by eauto
    | rewrite bool_decide_eq_false_2 by (by intros [? ?])
    | progress cbn [andb negb] ].

Lemma fallback_lookups code issues hint_level include_complexity
    include_solution complexity :
  let response :=
    build_fallback_response code issues hint_level include_complexity
      include_solution complexity in
  response !! "summary" =
    Some (JStr (if list_bool issues then issues_summary (length issues)
                else no_issues_summary)) ∧
  response !! "error_clusters" = Some (JList (json_of_issue <$> issues)) ∧
  response !! "hints" =
    Some (JList (models.model_dump <$>
                 _default_hints_from_issues issues hint_level)) ∧
  response !! "key_concepts" = Some fallback_key_concepts ∧
  response !! "best_practices" = Some fallback_best_practices ∧
  response !! "complexity" =
    (if include_complexity then json_of_complexity <$> complexity else None) ∧
  response !! "full_solution" =
    (if include_solution then Some no_key_solution else None) ∧
  dom response ⊆ list_to_set (feedback_keys ++ optional_feedback_keys).
Proof.
  unfold build_fallback_response. cbv zeta.
  set (base :=
         <["summary" := _]>
           (<["error_clusters" := _]>
              (<["hints" := _]>
                 (<["key_concepts" := _]> (<["best_practices" := _]> ∅))))).
  assert (base !! "summary" =
          Some (JStr (if list_bool issues then issues_summary (length issues)
                      else no_issues_summary))) as H1
    by (subst base; by lookups).
  assert (base !! "error_clusters" = Some (JList (json_of_issue <$> issues)))
    as H2
    by (subst base; by lookups).
  assert (base !! "hints" =
          Some (JList (models.model_dump <$>
                       _default_hints_from_issues issues hint_level))) as H3
    by (subst base; by lookups).
  assert (base !! "key_concepts" = Some fallback_key_concepts) as H4
    by (subst base; by lookups).
  assert (base !! "best_practices" = Some fallback_best_practices) as H5
    by (subst base; by lookups).
  assert (base !! "complexity" = None) as H6
    by (subst base; by lookups).
  assert (base !! "full_solution" = None) as H7
    by (subst base; by lookups).
  assert (dom base ⊆ list_to_set (feedback_keys ++ optional_feedback_keys))
    as H8 by (subst base; within_keys).
  clearbody base.
  destruct complexity, include_complexity, include_solution;
    cbn [fmap option_fmap option_map]; repeat split; lookups; try done.
  all: within_keys; done.
Qed.

Lemma reply_lookups (parsed : gmap string json) issues hint_level
    include_complexity include_solution :
  let result :=
    feedback_from_reply parsed issues hint_level include_complexity
      include_solution in
  result !! "summary" =
    Some (default (JStr "No clear message from tutor model.")
            (parsed !! "summary")) ∧
  result !! "error_clusters" =
    Some (default (JList (json_of_issue <$> issues))
            (parsed !! "error_clusters")) ∧
  result !! "hints" =
    Some (default
            (JList (models.model_dump <$>
                    _default_hints_from_issues issues hint_level))
            (parsed !! "hints")) ∧
  result !! "key_concepts" =
    Some (default (JList []) (parsed !! "key_concepts")) ∧
  result !! "best_practices" =
    Some (default (JList []) (parsed !! "best_practices")) ∧
  result !! "complexity" =
    match parsed !! "complexity" with
    | Some value =>
        if include_complexity && is_not_None value then Some value else None
    | None => None
    end ∧
  result !! "full_solution" =
    match parsed !! "full_solution" with
    | Some value =>
        if include_solution && is_not_None value then Some value else None
    | None => if include_solution then Some no_answer_solution else None
    end ∧
  dom result ⊆ list_to_set (feedback_keys ++ optional_feedback_keys).
Proof.
  unfold feedback_from_reply. cbv zeta.
  set (base :=
         <["summary" := _]>
           (<["error_clusters" := _]>
              (<["hints" := _]>
                 (<["key_concepts" := _]> (<["best_practices" := _]> ∅))))).
  assert (base !! "summary" =
          Some (default (JStr "No clear message from tutor model.")
                  (parsed !! "summary"))) as H1 by (subst base; by lookups).
  assert (base !! "error_clusters" =
          Some (default (JList (json_of_issue <$> issues))
                  (parsed !! "error_clusters"))) as H2
    by (subst base; by lookups).
  assert (base !! "hints" =
          Some (default
                  (JList (models.model_dump <$>
                          _default_hints_from_issues issues hint_level))
                  (parsed !! "hints"))) as H3 by (subst base; by lookups).
  assert (base !! "key_concepts" =
          Some (default (JList []) (parsed !! "key_concepts"))) as H4
    by (subst base; by lookups).
  assert (base !! "best_practices" =
          Some (default (JList []) (parsed !! "best_practices"))) as H5
    by (subst base; by lookups).
  assert (base !! "complexity" = None) as H6 by (subst base; by lookups).
  assert (base !! "full_solution" = None) as H7 by (subst base; by lookups).
  assert (dom base ⊆ list_to_set (feedback_keys ++ optional_feedback_keys))
    as H8 by (subst base; within_keys).
  clearbody base.
  destruct (parsed !! "complexity") as [vc|];
    destruct (parsed !! "full_solution") as [vs|];
    destruct include_complexity, include_solution;
    try destruct (is_not_None vc); try destruct (is_not_None vs);
    cbn [andb negb]; repeat split; lookups; rewrite ?H7; lookups; try done.
  all: within_keys; done.
Qed.

Section feedback_results.

Variable fence_group : string → option string.
Variable strip : string → string.
Variable json_loads : string → loads_outcome.
Variable environ : gmap string string.
Variable int : string → option Z.
Variable prompt : string → list IssueDict → Z → bool → bool → string.
Variable post : string → string → Z → option string.

(** The two ways [generate_feedback] returns. *)
Lemma generate_feedback_cases code issues hint_level include_complexity
    include_solution complexity result :
  generate_feedback fence_group strip json_loads environ int prompt post code
    issues hint_level include_complexity include_solution complexity
  = Some result →
  result =
    build_fallback_response code issues hint_level include_complexity
      include_solution complexity ∨
  ∃ parsed,
    result =
    feedback_from_reply parsed issues hint_level include_complexity
      include_solution.
Proof.
  unfold generate_feedback.
  destruct (_call_gemini _ _ _ _ _) as [[text|]|]; cbn [mbind option_bind];
    [|intros [= <-]; by left|done].
  destruct (str_bool text); cbn [mbind option_bind];
    [|intros [= <-]; by left].
  destruct (_extract_json _ _ _ text) as [[v|]|]; cbn [mbind option_bind];
    [|intros [= <-]; by left|done].
  destruct v; destruct (negb _); intros [= <-]; eauto.
Qed.

Lemma generate_feedback_keys code issues hint_level include_complexity
    include_solution complexity result :
  generate_feedback fence_group strip json_loads environ int prompt post code
    issues hint_level include_complexity include_solution complexity
  = Some result →
  Forall (λ key, is_Some (result !! key)) feedback_keys ∧
  (∀ value,
     result !! "complexity" = Some value →
     include_complexity = true ∧ value ≠ JNull) ∧
  (∀ value,
     result !! "full_solution" = Some value →
     include_solution = true ∧ value ≠ JNull) ∧
  dom result ⊆ list_to_set (feedback_keys ++ optional_feedback_keys).
Proof.
  intros [->|[parsed ->]]%generate_feedback_cases.
  - destruct (fallback_lookups code issues hint_level include_complexity
                include_solution complexity)
      as (H1 & H2 & H3 & H4 & H5 & H6 & H7 & H8).
    split; [by repeat constructor|]. split; [|split; [|done]].
    + intros value. rewrite H6. destruct include_complexity; [|done].
      by destruct complexity; intros [= <-].
    + intros value. rewrite H7. destruct include_solution; [|done].
      by intros [= <-].
  - destruct (reply_lookups parsed issues hint_level include_complexity
                include_solution)
      as (H1 & H2 & H3 & H4 & H5 & H6 & H7 & H8).
    split; [by repeat constructor|]. split; [|split; [|done]].
    + intros value. rewrite H6. destruct (parsed !! "complexity") as [v|];
        [|done].
      destruct include_complexity; [|done]. by destruct v; intros [= <-].
    + intros value. rewrite H7.
      destruct (parsed !! "full_solution") as [v|];
        destruct include_solution; try done.
      * by destruct v; intros [= <-].
      * by intros [= <-].
Qed.

(** When [_call_gemini] raises: a key is configured and the timeout setting
    is no integer. *)
Lemma call_gemini_raises text :
  _call_gemini strip environ int post text = None ↔
  strip (os_getenv environ "GEMINI_API_KEY" "") ≠ "" ∧
  strip (os_getenv environ "GEMINI_API_KEY" "") ≠
    "PASTE_YOUR_GEMINI_API_KEY_HERE" ∧
  int (os_getenv environ "GEMINI_TIMEOUT_SECONDS" "20") = None.
Proof.
  unfold _call_gemini, str_bool. cbv zeta. rewrite negb_involutive.
  destruct (String.eqb_spec (strip (os_getenv environ "GEMINI_API_KEY" "")) "")
    as [Hkey|Hkey]; cbn [orb].
  { split; [done | by intros [? _]]. }
  destruct (String.eqb_spec (strip (os_getenv environ "GEMINI_API_KEY" ""))
              "PASTE_YOUR_GEMINI_API_KEY_HERE") as [Hdummy|Hdummy].
  { split; [done | by intros (_ & ? & _)]. }
  destruct (int _); cbn [mbind option_bind]; [|done].
  split; [done | by intros (_ & _ & [=])].
Qed.

(** When [_extract_json] raises: the JSON parser raises something else than
    [JSONDecodeError] on the text from the first opening brace to the last
    closing brace of the candidate. *)
Lemma extract_json_raises text :
  _extract_json fence_group strip json_loads text = None ↔
  text ≠ "" ∧
  ∃ start end_,
    let candidate :=
      match fence_group text with
      | Some group => strip group
      | None => strip text
      end in
    find "{" candidate = Some start ∧
    rfind "}" candidate = Some end_ ∧
    json_loads (slice start (end_ + 1) candidate) = LoadsRaised.
Proof.
  unfold _extract_json, str_bool. cbv zeta. rewrite negb_involutive.
  destruct (String.eqb_spec text "") as [Htext|Htext].
  { split; [done | by intros [? _]]. }
  set (candidate := match fence_group text with
                    | Some group => strip group
                    | None => strip text
                    end).
  destruct (find "{" candidate) as [start|];
    [|split; [done | by intros (_ & ? & ? & [=] & _)]].
  destruct (rfind "}" candidate) as [end_|];
    [|split; [done | by intros (_ & ? & ? & _ & [=] & _)]].
  unfold loads_or_None. split.
  - destruct (json_loads (slice start (end_ + 1) candidate)) eqn:Hloads;
      [done..|].
    intros _. split; [done|]. by exists start, end_.
  - intros (_ & ? & ? & [= <-] & [= <-] & ->). done.
Qed.

End feedback_results.

(** X13: when [generate_feedback] raises, and what it returns. For a JSON
    parser that rejects the empty text and reads a text that starts with a
    brace as an object (as [json.loads] does): the call raises exactly when
    [_call_gemini] raises, which it does exactly when a key is configured
    and the timeout setting is no integer, or [_extract_json] raises on the
    tutor's reply, which it does exactly when the JSON parser raises
    something else than [JSONDecodeError] on the text between the outermost
    braces. Whenever it returns, whatever the tutor replied, the dictionary
    has the keys summary, error_clusters, hints, key_concepts and
    best_practices; it has the key complexity only if [include_complexity]
    is set and the key full_solution only if [include_solution] is set,
    neither ever bound to [None]; and it has no other key, so anything else
    in the tutor's reply is dropped. *)
Theorem X13_generate_feedback_keys
    (fence_group : string → option string) (strip : string → string)
    (json_loads : string → loads_outcome)
    (environ : gmap string string) (int : string → option Z)
    (prompt : string → list IssueDict → Z → bool → bool → string)
    (post : string → string → Z → option string)
    (code : string) (issues : list IssueDict) (hint_level : Z)
    (include_complexity include_solution : bool)
    (complexity : option ComplexityDict) :
  json_loads "" = JSONDecodeError →
  (∀ text value,
     String.prefix "{" text = true → json_loads text = Loaded value →
     ∃ items, value = JDict items) →
  let reply :=
    _call_gemini strip environ int post
      (prompt code issues hint_level include_complexity include_solution) in
  let feedback :=
    generate_feedback fence_group strip json_loads environ int prompt post
      code issues hint_level include_complexity include_solution complexity in
  (feedback = None ↔
   reply = None ∨
   ∃ text,
     reply = Some (Some text) ∧
     _extract_json fence_group strip json_loads text = None) ∧
  (reply = None ↔
   strip (os_getenv environ "GEMINI_API_KEY" "") ≠ "" ∧
   strip (os_getenv environ "GEMINI_API_KEY" "") ≠
     "PASTE_YOUR_GEMINI_API_KEY_HERE" ∧
   int (os_getenv environ "GEMINI_TIMEOUT_SECONDS" "20") = None) ∧
  (∀ text,
     _extract_json fence_group strip json_loads text = None ↔
     text ≠ "" ∧
     ∃ start end_,
       let candidate :=
         match fence_group text with
         | Some group => strip group
         | None => strip text
         end in
       find "{" candidate = Some start ∧
       rfind "}" candidate = Some end_ ∧
       json_loads (slice start (end_ + 1) candidate) = LoadsRaised) ∧
  ∀ result,
    feedback = Some result →
    Forall (λ key, is_Some (result !! key)) feedback_keys ∧
    (∀ value,
       result !! "complexity" = Some value →
       include_complexity = true ∧ value ≠ JNull) ∧
    (∀ value,
       result !! "full_solution" = Some value →
       include_solution = true ∧ value ≠ JNull) ∧
    ∀ key,
      is_Some (result !! key) →
      key ∈ feedback_keys ++ optional_feedback_keys.
Proof.
  intros Hempty Hobject reply feedback.
  split; [by apply generate_feedback_raises|].
  split; [apply call_gemini_raises|].
  split; [intros text; apply extract_json_raises|].
  intros result Hresult.
  destruct (generate_feedback_keys _ _ _ _ _ _ _ _ _ _ _ _ _ _ Hresult)
    as (Hkeys & Hc & Hs & Hdom).
  split; [done|]. split; [done|]. split; [done|].
  intros key Hkey%elem_of_dom. apply Hdom in Hkey.
  by apply elem_of_list_to_set in Hkey.
Qed.

(** Witness for X13: the sample tutor and the sample JSON parser. The call
    returns, with a complexity only on request. *)
Lemma X13_witness :
  samples.loads "" = JSONDecodeError ∧
  (∀ text value,
     String.prefix "{" text = true → samples.loads text = Loaded value →
     ∃ items, value = JDict items) ∧
  ∃ result,
    generate_feedback samples.no_fence examples.strip samples.loads
      samples.environ samples.int samples.prompt samples.tutor "y = x / 0" []
      2 true true None = Some result ∧
    Forall (λ key, is_Some (result !! key)) feedback_keys ∧
    ∀ key,
      is_Some (result !! key) →
      key ∈ feedback_keys ++ optional_feedback_keys.
Proof.
  assert (samples.loads "" = JSONDecodeError) as H1 by reflexivity.
  assert (∀ text value,
            String.prefix "{" text = true → samples.loads text = Loaded value →
            ∃ items, value = JDict items) as H2.
  { intros text value _. unfold samples.loads.
    destruct (String.eqb text "{reply}"); [|discriminate].
    intros [= <-]. by eexists. }
  split; [exact H1|]. split; [exact H2|].
  destruct (X13_generate_feedback_keys samples.no_fence examples.strip
              samples.loads samples.environ samples.int samples.prompt
              samples.tutor "y = x / 0" [] 2 true true None H1 H2)
    as (_ & _ & _ & H3).
  destruct (generate_feedback samples.no_fence examples.strip samples.loads
              samples.environ samples.int samples.prompt samples.tutor
              "y = x / 0" [] 2 true true None) as [result|] eqn:H4.
  - exists result. split; [reflexivity|].
    destruct (H3 result eq_refl) as (H5 & _ & _ & H6).
    split; [exact H5 | exact H6].
  - apply (f_equal (λ o, match o with Some _ => true | None => false end))
      in H4.
    vm_compute in H4. discriminate H4.
Defined.

(** ** [_extract_json]: the text between the outermost braces *)

Lemma find_app c before rest :
  find c before = None →
  find c (before ++ String c rest) = Some (String.length before).
Proof.
  induction before as [|d before IH]; simpl.
  - intros _. by rewrite Ascii.eqb_refl.
  - destruct (Ascii.eqb d c); [done|].
    destruct (find c before); [done|]. intros _. by rewrite IH.
Qed.

Lemma rfind_app c before rest :
  rfind c rest = None →
  rfind c (before ++ String c rest) = Some (String.length before).
Proof.
  intros Hrest. induction before as [|d before IH]; simpl.
  - by rewrite Hrest, Ascii.eqb_refl.
  - by rewrite IH.
Qed.

Lemma substring_skip before n s :
  substring (String.length before) n (before ++ s) = substring 0 n s.
Proof. induction before as [|d before IH]; simpl; [done | exact IH]. Qed.

Lemma string_app_assoc (s t u : string) : ((s ++ t) ++ u = s ++ t ++ u)%string.
Proof.
  induction s as [|c s IH]; [done|].
  change (String c ((s ++ t) ++ u) = String c (s ++ t ++ u))%string.
  by rewrite IH.
Qed.

Lemma slice_between before inner after :
  slice (String.length before)
    (String.length (before ++ String "{" inner) + 1)
    (before ++ String "{" (inner ++ String "}" after)) =
  String "{" (inner ++ "}").
Proof.
  unfold slice. rewrite length_append. simpl String.length.
  replace (String.length before + S (String.length inner) + 1 -
           String.length before)%nat
    with (String.length (String "{" (inner ++ "}"))).
  - rewrite substring_skip.
    change (String "{" (inner ++ String "}" after))
      with (String "{" inner ++ String "}" after)%string.
    replace (String "{" inner ++ String "}" after)%string
      with (String "{" (inner ++ "}") ++ after)%string.
    + apply substring_prefix.
    + change (String "{" ((inner ++ "}") ++ after) =
              String "{" (inner ++ String "}" after))%string.
      by rewrite string_app_assoc.
  - simpl. rewrite length_append. simpl. lia.
Qed.

(** X18: [_extract_json] drops what the tutor writes around the JSON
    object. If the candidate text (the inside of the first json fence when
    there is one, else the whole reply, stripped) reads
    [before {inner} after] with no opening brace in [before] and no closing
    brace in [after], then the result is what the JSON parser makes of
    [{inner}] alone: its value, [None] when it raises [JSONDecodeError], and
    its exception when it raises another one. *)
Theorem X18_extract_json_drops_chatter
    (fence_group : string → option string) (strip : string → string)
    (json_loads : string → loads_outcome)
    (payload_text before inner after : string) :
  payload_text ≠ "" →
  match fence_group payload_text with
  | Some group => strip group
  | None => strip payload_text
  end = (before ++ String "{" (inner ++ String "}" after))%string →
  find "{" before = None →
  rfind "}" after = None →
  _extract_json fence_group strip json_loads payload_text =
  loads_or_None json_loads (String "{" (inner ++ "}")).
Proof.
  intros Htext Hcandidate Hbefore Hafter. unfold _extract_json.
  destruct (String.eqb_spec payload_text "") as [|_]; [done|].
  unfold str_bool. replace (String.eqb payload_text "") with false
    by (symmetry; by apply String.eqb_neq).
  cbn [negb]. rewrite Hcandidate.
  rewrite (find_app "{" before _ Hbefore).
  replace (before ++ String "{" (inner ++ String "}" after))%string
    with ((before ++ String "{" inner) ++ String "}" after)%string at 1
    by (rewrite string_app_assoc; done).
  rewrite (rfind_app "}" _ _ Hafter).
  by rewrite slice_between.
Qed.

(** Witness for X18: the reply of the sample tutor. *)
Lemma X18_witness :
  "Here you are: {reply} Good luck!" ≠ "" ∧
  match samples.no_fence "Here you are: {reply} Good luck!" with
  | Some group => examples.strip group
  | None => examples.strip "Here you are: {reply} Good luck!"
  end =
  ("Here you are: " ++ String "{" ("reply" ++ String "}" " Good luck!"))%string
  ∧ find "{" "Here you are: " = None
  ∧ rfind "}" " Good luck!" = None
  ∧ _extract_json samples.no_fence examples.strip samples.loads
      "Here you are: {reply} Good luck!" =
    loads_or_None samples.loads (String "{" ("reply" ++ "}")).
Proof.
  assert ("Here you are: {reply} Good luck!" ≠ "") as H1 by discriminate.
  assert (match samples.no_fence "Here you are: {reply} Good luck!" with
          | Some group => examples.strip group
          | None => examples.strip "Here you are: {reply} Good luck!"
          end =
          ("Here you are: " ++
           String "{" ("reply" ++ String "}" " Good luck!"))%string)
    as H2 by reflexivity.
  assert (find "{" "Here you are: " = None) as H3 by reflexivity.
  assert (rfind "}" " Good luck!" = None) as H4 by reflexivity.
  split; [exact H1|]. split; [exact H2|]. split; [exact H3|].
  split; [exact H4|].
  exact (X18_extract_json_drops_chatter samples.no_fence examples.strip
           samples.loads "Here you are: {reply} Good luck!" "Here you are: "
           "reply" " Good luck!" H1 H2 H3 H4).
Defined.

(** ** [analyze_python_code] from line 63 on *)

Section response_lemmas.

Variable runtime_builtins : gset string.
Variable get_source_segment : string → ast.location → option string.
Variable ast_parse : string → parse_outcome.
Variable strip : string → string.
Variable fence_group : string → option string.
Variable json_loads : string → loads_outcome.
Variable environ : gmap string string.
Variable int : string → option Z.
Variable prompt : string → list IssueDict → Z → bool → bool → string.
Variable post : string → string → Z → option string.

(** The feedback dictionary as it is after the diagnostic branch. *)
Lemma feedback_response_Some source issues complexity hint_level help_mode
    include_complexity include_solution response :
  feedback_response strip fence_group json_loads environ int prompt post
    source issues complexity hint_level help_mode include_complexity
    include_solution
  = Some response →
  ∃ feedback (feedback' : gmap string json) clusters,
    generate_feedback fence_group strip json_loads environ int prompt post
      source issues hint_level include_complexity
      (include_solution && String.eqb help_mode "guided") complexity
    = Some feedback ∧
    feedback' =
      (if String.eqb help_mode "diagnostic"
       then
         delete "key_concepts"
           (delete "best_practices"
              (<["full_solution" := JNull]> (<["hints" := JList []]> feedback)))
       else feedback) ∧
    _normalize_clusters
      (if list_bool issues then JList (json_of_issue <$> issues)
       else default (JList []) (feedback' !! "error_clusters"))
    = Some clusters ∧
    response =
    models.mk_AnalyzeResponse
      (default (JStr "Analysis completed.") (feedback' !! "summary"))
      clusters
      (default (JList []) (feedback' !! "hints"))
      (default JNull (feedback' !! "full_solution"))
      (default (JList []) (feedback' !! "key_concepts"))
      (if include_complexity then default JNull (feedback' !! "complexity")
       else JNull)
      (default (JList []) (feedback' !! "best_practices")).
Proof.
  unfold feedback_response. intros (feedback & Hgen & Hrest)%bind_Some.
  cbv zeta in Hrest. apply bind_Some in Hrest as (clusters & Hnorm & [= <-]).
  eexists feedback, _, clusters. split; [done|]. split; [reflexivity|].
  split; [exact Hnorm | done].
Qed.

(** With static issues the clusters are the static issues, whatever the
    feedback holds. *)
Lemma feedback_response_static source issues complexity hint_level help_mode
    include_complexity include_solution :
  Forall static_kind issues →
  issues ≠ [] →
  match
    generate_feedback fence_group strip json_loads environ int prompt post
      source issues hint_level include_complexity
      (include_solution && String.eqb help_mode "guided") complexity
  with
  | None =>
      feedback_response strip fence_group json_loads environ int prompt post
        source issues complexity hint_level help_mode include_complexity
        include_solution = None
  | Some _ =>
      ∃ response,
        feedback_response strip fence_group json_loads environ int prompt
          post source issues complexity hint_level help_mode
          include_complexity include_solution = Some response ∧
        models.error_clusters response = JList (json_of_issue <$> issues)
  end.
Proof.
  intros Hkinds Hissues. unfold feedback_response.
  destruct (generate_feedback _ _ _ _ _ _ _ _ _ _ _ _ _) as [feedback|];
    [|done].
  cbn [mbind option_bind]. cbv zeta.
  destruct issues as [|issue issues]; [done|]. cbn [list_bool].
  rewrite (static_issues_normalized _ Hkinds). cbn [mbind option_bind].
  by eexists.
Qed.


End response_lemmas.

(** *** The response without the tutor has the declared types *)





(** X14: the static findings take precedence over the tutor's. With a
    parser whose trees have the parser's shape, whenever the static layer
    has found at least one issue: if [generate_feedback] raises, so does the
    analysis; if it returns, then whatever the tutor replied
    [AnalyzeResponse] is called, and the error clusters it is called with
    are exactly the static issues, in their order and unchanged (the
    normalisation does not raise on them and renames none). The analysis
    then answers what the validation of these arguments answers. *)
Theorem X14_static_findings_take_precedence
    (runtime_builtins : gset string)
    (get_source_segment : string → ast.location → option string)
    (ast_parse : string → parse_outcome) (strip : string → string)
    (fence_group : string → option string)
    (json_loads : string → loads_outcome)
    (environ : gmap string string) (int : string → option Z)
    (prompt : string → list IssueDict → Z → bool → bool → string)
    (post : string → string → Z → option string)
    (response_dump : models.AnalyzeResponse → option (gmap string json))
    (code : string) (hint_level : Z) (help_mode : string)
    (include_complexity include_solution : bool)
    (source : string) (issues : list IssueDict)
    (complexity : option ComplexityDict) :
  (∀ source tree, ast_parse source = Parsed tree → parser_shape tree = true) →
  analyze_python_code runtime_builtins get_source_segment ast_parse strip
    code include_complexity = Some (Analysed source issues complexity) →
  issues ≠ [] →
  match
    generate_feedback fence_group strip json_loads environ int prompt post
      source issues hint_level include_complexity
      (include_solution && String.eqb help_mode "guided") complexity
  with
  | None =>
      analyze_python_code_response runtime_builtins get_source_segment
        ast_parse strip fence_group json_loads environ int prompt post
        response_dump code hint_level help_mode include_complexity
        include_solution = None
  | Some _ =>
      ∃ response,
        feedback_response strip fence_group json_loads environ int prompt
          post source issues complexity hint_level help_mode
          include_complexity include_solution = Some response ∧
        models.error_clusters response = JList (json_of_issue <$> issues) ∧
        analyze_python_code_response runtime_builtins get_source_segment
          ast_parse strip fence_group json_loads environ int prompt post
          response_dump code hint_level help_mode include_complexity
          include_solution = response_dump response
  end.
Proof.
  intros Hshape Hrun Hissues.
  pose proof (analysed_static_kinds runtime_builtins get_source_segment
                ast_parse strip code include_complexity Hshape) as Hout.
  rewrite Hrun in Hout. destruct Hout as (_ & _ & _ & Hkinds & _).
  pose proof (feedback_response_static strip fence_group json_loads environ
                int prompt post source issues complexity hint_level help_mode
                include_complexity include_solution Hkinds Hissues) as Hfeedback.
  unfold analyze_python_code_response. rewrite Hrun. cbn [mbind option_bind].
  destruct (generate_feedback _ _ _ _ _ _ _ _ _ _ _ _ _) as [feedback|].
  - destruct Hfeedback as (response & Hresponse & Hclusters).
    exists response. split; [exact Hresponse|]. split; [exact Hclusters|].
    by rewrite Hresponse.
  - by rewrite Hfeedback.
Qed.

(** Witness for X14: [y = x / 0] with the sample tutor, whose reply names
    one cluster of its own. *)
Lemma X14_witness :
  (∀ source tree,
     examples.parse source = Parsed tree → parser_shape tree = true) ∧
  analyze_python_code examples.builtins examples.no_segment examples.parse
    examples.strip "y = x / 0" true
  = Some (Analysed "y = x / 0" samples.found (Some samples.linear)) ∧
  samples.found ≠ [] ∧
  ∃ response,
    feedback_response examples.strip samples.no_fence samples.loads
      samples.environ samples.int samples.prompt samples.tutor "y = x / 0"
      samples.found (Some samples.linear) 2 "guided" true true
    = Some response ∧
    models.error_clusters response = JList (json_of_issue <$> samples.found).
Proof.
  assert (∀ source tree,
            examples.parse source = Parsed tree → parser_shape tree = true)
    as H1.
  { intros source tree. unfold examples.parse.
    destruct (String.eqb source "y = x / 0"); [|discriminate].
    intros [= <-]. reflexivity. }
  assert (analyze_python_code examples.builtins examples.no_segment
            examples.parse examples.strip "y = x / 0" true
          = Some (Analysed "y = x / 0" samples.found (Some samples.linear)))
    as H2 by (vm_compute; reflexivity).
  assert (samples.found ≠ []) as H3 by discriminate.
  split; [exact H1|]. split; [exact H2|]. split; [exact H3|].
  pose proof (X14_static_findings_take_precedence examples.builtins
                examples.no_segment examples.parse examples.strip
                samples.no_fence samples.loads samples.environ samples.int
                samples.prompt samples.tutor samples.dump "y = x / 0" 2
                "guided" true true "y = x / 0" samples.found
                (Some samples.linear) H1 H2 H3)
    as H4.
  destruct (generate_feedback samples.no_fence examples.strip
              samples.loads samples.environ samples.int samples.prompt
              samples.tutor "y = x / 0" samples.found 2 true
              (true && String.eqb "guided" "guided") (Some samples.linear))
    as [feedback|] eqn:H5.
  - destruct H4 as (response & H6 & H7 & _).
    exists response. split; [exact H6 | exact H7].
  - apply (f_equal (λ o, match o with Some _ => true | None => false end))
      in H5.
    vm_compute in H5. discriminate H5.
Defined.

(** X15: diagnostic mode strips the tutoring. Whatever the static layer
    found and whatever the tutor replied, a response built in the help mode
    ["diagnostic"] has no hints, no solution, no key concepts and no best
    practices. *)
Theorem X15_diagnostic_mode_strips_tutoring
    (strip : string → string) (fence_group : string → option string)
    (json_loads : string → loads_outcome)
    (environ : gmap string string) (int : string → option Z)
    (prompt : string → list IssueDict → Z → bool → bool → string)
    (post : string → string → Z → option string)
    (source : string) (issues : list IssueDict)
    (complexity : option ComplexityDict) (hint_level : Z)
    (include_complexity include_solution : bool)
    (response : models.AnalyzeResponse) :
  feedback_response strip fence_group json_loads environ int prompt post
    source issues complexity hint_level "diagnostic" include_complexity
    include_solution
  = Some response →
  models.hints response = JList [] ∧
  models.full_solution response = JNull ∧
  models.key_concepts response = JList [] ∧
  models.best_practices response = JList [].
Proof.
  intros (feedback & feedback' & clusters & _ & Hfeedback' & _ & ->)
    %feedback_response_Some.
  cbn [models.hints models.full_solution models.key_concepts
       models.best_practices].
  change (String.eqb "diagnostic" "diagnostic") with true in Hfeedback'.
  subst feedback'. by lookups.
Qed.

(** X16: the optional parts of a response are there only on request.
    Whatever the tutor replied, a response carries a complexity only if
    [include_complexity] was set, and a solution only if [include_solution]
    was set and the help mode is ["guided"]. *)
Theorem X16_optional_parts_only_on_request
    (strip : string → string) (fence_group : string → option string)
    (json_loads : string → loads_outcome)
    (environ : gmap string string) (int : string → option Z)
    (prompt : string → list IssueDict → Z → bool → bool → string)
    (post : string → string → Z → option string)
    (source : string) (issues : list IssueDict)
    (complexity : option ComplexityDict) (hint_level : Z) (help_mode : string)
    (include_complexity include_solution : bool)
    (response : models.AnalyzeResponse) :
  feedback_response strip fence_group json_loads environ int prompt post
    source issues complexity hint_level help_mode include_complexity
    include_solution
  = Some response →
  (models.complexity response ≠ JNull → include_complexity = true) ∧
  (models.full_solution response ≠ JNull →
   include_solution = true ∧ help_mode = "guided").
Proof.
  intros (feedback & feedback' & clusters & Hgen & Hfeedback' & _ & ->)
    %feedback_response_Some.
  cbn [models.complexity models.full_solution].
  split; [by destruct include_complexity|].
  destruct (generate_feedback_keys _ _ _ _ _ _ _ _ _ _ _ _ _ _ Hgen)
    as (_ & _ & Hsolution & _).
  destruct (String.eqb_spec help_mode "diagnostic") as [->|_].
  - subst feedback'. by lookups.
  - subst feedback'.
    destruct (feedback !! "full_solution") as [value|] eqn:Hvalue; [|done].
    destruct (Hsolution value eq_refl) as [Hflags _].
    apply andb_true_iff in Hflags as [-> Hmode%String.eqb_eq]. done.
Qed.

(** Witness for X15: the sample tutor's reply in diagnostic mode. *)
Lemma X15_witness :
  ∃ response,
    feedback_response examples.strip samples.no_fence samples.loads
      samples.environ samples.int samples.prompt samples.tutor "pass" [] None
      3 "diagnostic" true true = Some response ∧
    models.hints response = JList [] ∧
    models.full_solution response = JNull ∧
    models.key_concepts response = JList [] ∧
    models.best_practices response = JList [].
Proof.
  destruct (feedback_response examples.strip samples.no_fence samples.loads
              samples.environ samples.int samples.prompt samples.tutor "pass"
              [] None 3 "diagnostic" true true)
    as [response|] eqn:H1.
  - exists response. split; [reflexivity|].
    exact (X15_diagnostic_mode_strips_tutoring examples.strip
             samples.no_fence samples.loads samples.environ samples.int
             samples.prompt samples.tutor "pass" [] None 3 true true response
             H1).
  - apply (f_equal (λ o, match o with Some _ => true | None => false end))
      in H1.
    vm_compute in H1. discriminate H1.
Defined.

(** Witness for X16: the sample tutor's reply in guided mode, with both
    optional parts asked for. *)
Lemma X16_witness :
  ∃ response,
    feedback_response examples.strip samples.no_fence samples.loads
      samples.environ samples.int samples.prompt samples.tutor "pass" [] None
      3 "guided" true true = Some response ∧
    (models.complexity response ≠ JNull → true = true) ∧
    (models.full_solution response ≠ JNull →
     true = true ∧ "guided" = "guided").
Proof.
  destruct (feedback_response examples.strip samples.no_fence samples.loads
              samples.environ samples.int samples.prompt samples.tutor "pass"
              [] None 3 "guided" true true)
    as [response|] eqn:H1.
  - exists response. split; [reflexivity|].
    exact (X16_optional_parts_only_on_request examples.strip
             samples.no_fence samples.loads samples.environ samples.int
             samples.prompt samples.tutor "pass" [] None 3 "guided" true true
             response H1).
  - apply (f_equal (λ o, match o with Some _ => true | None => false end))
      in H1.
    vm_compute in H1. discriminate H1.
Defined.



(** X19: the hint level a request asks for. For a validated request
    ([hint_depth] and [hint_level] absent or between 1 and 3) the level
    handed to the analysis is [hint_depth] when it is given, else
    [hint_level] when it is given, else 1; it lies between 1 and 3, so the
    clamp of [_default_hints_from_issues] does nothing and the request gets
    exactly that many graded default hints (and one more when there are no
    issues). *)
Theorem X19_requested_hint_level
    (payload : models.AnalyzeRequest) (issues : list IssueDict) :
  models.valid_hint (models.hint_depth payload) →
  models.valid_hint (models.hint_level payload) →
  requested_hint_level payload =
    default (default 1 (models.hint_level payload))
      (models.hint_depth payload) ∧
  1 ≤ requested_hint_level payload ≤ 3 ∧
  length (_default_hints_from_issues issues (requested_hint_level payload)) =
    (Z.to_nat (requested_hint_level payload) +
     (if list_bool issues then 0 else 1))%nat.
Proof.
  intros Hdepth Hlevel.
  assert (requested_hint_level payload =
          default (default 1 (models.hint_level payload))
            (models.hint_depth payload) ∧
          1 ≤ requested_hint_level payload ≤ 3) as [Heq Hrange].
  { unfold requested_hint_level, or_else.
    destruct (models.hint_depth payload) as [depth|];
      destruct (models.hint_level payload) as [level|]; simpl in *.
    - destruct (Z.eqb_spec depth 0); [lia|]. simpl.
      destruct (Z.eqb_spec depth 0); [lia|]. split; [done | lia].
    - destruct (Z.eqb_spec depth 0); [lia|]. simpl.
      destruct (Z.eqb_spec depth 0); [lia|]. split; [done | lia].
    - destruct (Z.eqb_spec level 0); [lia|]. split; [done | lia].
    - split; [done | lia]. }
  split; [exact Heq|]. split; [exact Hrange|].
  unfold _default_hints_from_issues. cbv zeta.
  replace (Z.max 1 (Z.min 3 (requested_hint_level payload)))
    with (requested_hint_level payload) by lia.
  destruct (Z.leb_spec 2 (requested_hint_level payload)) as [H2|H2];
    destruct (Z.leb_spec 3 (requested_hint_level payload)) as [H3|H3];
    try lia.
  - replace (requested_hint_level payload) with 3 by lia.
    by destruct issues.
  - replace (requested_hint_level payload) with 2 by lia.
    by destruct issues.
  - replace (requested_hint_level payload) with 1 by lia.
    by destruct issues.
Qed.

(** Witness for X19: a request with both fields, depth 3 and level 1. *)
Lemma X19_witness :
  models.valid_hint (models.hint_depth samples.request) ∧
  models.valid_hint (models.hint_level samples.request) ∧
  requested_hint_level samples.request =
    default (default 1 (models.hint_level samples.request))
      (models.hint_depth samples.request) ∧
  1 ≤ requested_hint_level samples.request ≤ 3 ∧
  length (_default_hints_from_issues [] (requested_hint_level samples.request))
  = (Z.to_nat (requested_hint_level samples.request) +
     (if list_bool (@nil IssueDict) then 0 else 1))%nat.
Proof.
  assert (models.valid_hint (models.hint_depth samples.request)) as H1
    by (simpl; lia).
  assert (models.valid_hint (models.hint_level samples.request)) as H2
    by (simpl; lia).
  split; [exact H1|]. split; [exact H2|].
  exact (X19_requested_hint_level samples.request [] H1 H2).
Defined.



(** ** The complexity estimate and the pattern findings of a module *)

Lemma max_of_app {A} (f : A → Z) xs ys :
  max_of f (xs ++ ys) = Z.max (max_of f xs) (max_of f ys).
Proof.
  induction xs as [|x xs IH]; simpl.
  - pose proof (max_of_nonneg f ys). lia.
  - rewrite IH. lia.
Qed.

Lemma max_of_Permutation {A} (f : A → Z) xs ys :
  xs ≡ₚ ys → max_of f xs = max_of f ys.
Proof. induction 1; simpl; lia. Qed.

Lemma existsb_Permutation {A} (f : A → bool) xs ys :
  xs ≡ₚ ys → existsb f xs = existsb f ys.
Proof.
  induction 1 as [|x xs ys _ IH|x y xs|xs ys zs _ IH1 _ IH2]; simpl.
  - done.
  - by rewrite IH.
  - by destruct (f x), (f y).
  - by rewrite IH1.
Qed.

(** The state the complexity visitor ends a module in. *)
Lemma visit_module_tracks body :
  ComplexityVisitor.visit (ast.Module_ body) ComplexityVisitor.__init__ =
  Some
    (ComplexityVisitor.mk 0 (max_of loop_nesting body) false
       (existsb (λ s, existsb self_recursive (walk.stmt s)) body) None).
Proof.
  rewrite (visit_tracks (ast.Module_ body) ComplexityVisitor.__init__)
    by done.
  unfold after. cbn [ComplexityVisitor.loop_depth
    ComplexityVisitor.max_loop_depth ComplexityVisitor.has_nested_data
    ComplexityVisitor.has_recursion ComplexityVisitor.function_name
    ComplexityVisitor.__init__ module_loop_nesting walk.module existsb
    self_recursive orb].
  pose proof (max_of_nonneg loop_nesting body).
  rewrite existsb_bind. do 2 f_equal. lia.
Qed.

(** X21: the complexity estimate of a module does not depend on the order
    of its statements and never drops when statements are added. For a
    permutation [body'] of the statements [body] the runs of the complexity
    visitor end with the same maximal loop depth and the same recursion
    flag, so with the same time and space labels; and for [body] followed
    by more statements the maximal loop depth is at least as large and the
    recursion flag stays set. *)
Theorem X21_complexity_ignores_statement_order
    (body body' extra : list ast.stmt) :
  body ≡ₚ body' →
  ∃ checker checker' longer,
    ComplexityVisitor.visit (ast.Module_ body) ComplexityVisitor.__init__
    = Some checker ∧
    ComplexityVisitor.visit (ast.Module_ body') ComplexityVisitor.__init__
    = Some checker' ∧
    ComplexityVisitor.visit (ast.Module_ (body ++ extra))
      ComplexityVisitor.__init__ = Some longer ∧
    ComplexityVisitor.max_loop_depth checker' =
      ComplexityVisitor.max_loop_depth checker ∧
    ComplexityVisitor.has_recursion checker' =
      ComplexityVisitor.has_recursion checker ∧
    _derive_time_complexity checker' = _derive_time_complexity checker ∧
    _derive_space_complexity checker' = _derive_space_complexity checker ∧
    ComplexityVisitor.max_loop_depth checker ≤
      ComplexityVisitor.max_loop_depth longer ∧
    (ComplexityVisitor.has_recursion checker = true →
     ComplexityVisitor.has_recursion longer = true).
Proof.
  intros Hperm. eexists _, _, _.
  split; [apply visit_module_tracks|].
  split; [apply visit_module_tracks|].
  split; [apply visit_module_tracks|].
  unfold _derive_time_complexity, _derive_space_complexity.
  cbn [ComplexityVisitor.max_loop_depth ComplexityVisitor.has_recursion].
  rewrite <- (max_of_Permutation loop_nesting body body' Hperm).
  rewrite <- (existsb_Permutation _ body body' Hperm).
  do 4 (split; [done|]). split.
  - rewrite max_of_app. lia.
  - rewrite existsb_app. by intros ->.
Qed.

(** Witness for X21: a loop nest and a loop, in either order. *)
Lemma X21_witness :
  [samples.two_deep; samples.one_deep] ≡ₚ
    [samples.one_deep; samples.two_deep] ∧
  ∃ checker checker',
    ComplexityVisitor.visit
      (ast.Module_ [samples.two_deep; samples.one_deep])
      ComplexityVisitor.__init__ = Some checker ∧
    ComplexityVisitor.visit
      (ast.Module_ [samples.one_deep; samples.two_deep])
      ComplexityVisitor.__init__ = Some checker' ∧
    _derive_time_complexity checker' = _derive_time_complexity checker.
Proof.
  assert ([samples.two_deep; samples.one_deep] ≡ₚ
            [samples.one_deep; samples.two_deep]) as H1 by apply perm_swap.
  split; [exact H1|].
  destruct (X21_complexity_ignores_statement_order
              [samples.two_deep; samples.one_deep]
              [samples.one_deep; samples.two_deep] [] H1)
    as (checker & checker' & _ & Hrun & Hrun' & _ & _ & _ & Htime & _).
  exists checker, checker'. split; [exact Hrun|]. split; [exact Hrun'|].
  exact Htime.
Defined.

(** X22: the pattern findings are local. On a tree with the parser's shape
    the findings of the pattern visitor for a module are the findings for
    its first statements followed by the findings for the rest, each part
    visited alone: unlike an undefined-name finding, a pattern finding does
    not depend on the code around it. *)
Theorem X22_pattern_findings_are_local
    (get_source_segment : string → ast.location → option string)
    (src : string) (pre post : list ast.stmt) :
  parser_shape (ast.Module_ (pre ++ post)) = true →
  ∃ whole first second,
    RuntimePatternVisitor.visit get_source_segment
      (ast.Module_ (pre ++ post)) (RuntimePatternVisitor.__init__ src)
    = Some whole ∧
    RuntimePatternVisitor.visit get_source_segment (ast.Module_ pre)
      (RuntimePatternVisitor.__init__ src) = Some first ∧
    RuntimePatternVisitor.visit get_source_segment (ast.Module_ post)
      (RuntimePatternVisitor.__init__ src) = Some second ∧
    RuntimePatternVisitor.issues whole =
      RuntimePatternVisitor.issues first ++
      RuntimePatternVisitor.issues second.
Proof.
  intros Hshape.
  assert (parser_shape (ast.Module_ pre) = true ∧
          parser_shape (ast.Module_ post) = true) as [Hpre Hpost].
  { unfold parser_shape in *. cbn [walk.module forallb well_formed andb] in *.
    rewrite bind_app, forallb_app in Hshape.
    by apply andb_true_iff in Hshape. }
  destruct (visit_findings get_source_segment _ src Hshape)
    as (whole & Hwhole & _ & Hissues).
  destruct (visit_findings get_source_segment _ src Hpre)
    as (first & Hfirst & _ & Hissues1).
  destruct (visit_findings get_source_segment _ src Hpost)
    as (second & Hsecond & _ & Hissues2).
  exists whole, first, second. do 3 (split; [done|]).
  rewrite Hissues, Hissues1, Hissues2. unfold walk.module.
  rewrite !bind_cons, bind_app. cbn [node_findings division_finding
    loop_finding comparison_finding app]. by rewrite bind_app.
Qed.

(** Witness for X22: [x / 0] followed by [x == None]. *)
Lemma X22_witness :
  parser_shape (ast.Module_ ([samples.divides] ++ [samples.compares])) = true ∧
  ∃ whole first second,
    RuntimePatternVisitor.visit examples.no_segment
      (ast.Module_ ([samples.divides] ++ [samples.compares]))
      (RuntimePatternVisitor.__init__ "") = Some whole ∧
    RuntimePatternVisitor.visit examples.no_segment
      (ast.Module_ [samples.divides]) (RuntimePatternVisitor.__init__ "")
    = Some first ∧
    RuntimePatternVisitor.visit examples.no_segment
      (ast.Module_ [samples.compares]) (RuntimePatternVisitor.__init__ "")
    = Some second ∧
    RuntimePatternVisitor.issues whole =
      RuntimePatternVisitor.issues first ++
      RuntimePatternVisitor.issues second.
Proof.
  assert (parser_shape
            (ast.Module_ ([samples.divides] ++ [samples.compares])) = true)
    as H1 by (vm_compute; reflexivity).
  split; [exact H1|].
  exact (X22_pattern_findings_are_local examples.no_segment ""
           [samples.divides] [samples.compares] H1).
Defined.

(** X23: the list of allowed origins is never empty and holds no empty
    origin: blank entries of [ALLOWED_ORIGINS] are dropped, and when
    nothing is left the list is [["*"]]. *)
Theorem X23_allow_list_never_empty (strip : string → string)
    (allowed : string) :
  allow_list strip allowed ≠ [] ∧
  Forall (λ origin, origin ≠ "") (allow_list strip allowed) ∧
  (allow_list strip allowed = ["*"] ∨
   allow_list strip allowed =
     strip <$>
       filter (λ origin, strip origin ≠ "") (split "," allowed)).
Proof.
  unfold allow_list. cbv zeta.
  assert (∀ origins : list string,
            filter (λ origin, str_bool (strip origin) = true) origins =
            filter (λ origin, strip origin ≠ "") origins) as Hfilter.
  { intros origins. apply list_filter_iff. intros origin. unfold str_bool.
    by rewrite negb_true_iff, String.eqb_neq. }
  rewrite Hfilter.
  set (kept := filter (λ origin, strip origin ≠ "") (split "," allowed)).
  assert (Forall (λ origin, origin ≠ "") (strip <$> kept)) as Hkept.
  { apply Forall_fmap, Forall_forall. intros origin Hin.
    by apply list_elem_of_filter in Hin as [? _]. }
  destruct (strip <$> kept) as [|origin origins] eqn:Hlist; cbn [list_bool].
  - split; [done|]. split; [by repeat constructor | by left].
  - split; [done|]. split; [done | by right].
Qed.
